(** * FX TARF Monte Carlo engine: proxy construction and evaluation

    A shallow embedding of [ql/experimental/fx/fxtarf.hpp] (which holds the
    instrument header and the Monte Carlo engine [McFxTarfEngine] with its
    [QuadraticProxyFunction], the factory [MakeMcFxTarfEngine] and the
    regression driver inside [McFxTarfEngine::calculate]).

    Conventions of the embedding
    - [Real] (a C++ [double]) is idealised as an exact rational [Q] where it
      carries data (spots, payoffs, coefficients, amounts); the rounding of
      data is not modelled.  Comparisons are the boolean ones the code
      branches on.
    - The scalars that decide how often the splitting loop runs and how
      many time steps are taken (the relative cutoff and the cutoff of the
      loop, its minimum data segment, the product of steps per year and
      time) are computed as the code computes them, every operation rounded
      to the nearest binary64 number, ties to even; see [Binary64].
      Overflow is not modelled.  The positions [size * fraction] of the
      percentile spots are exact products.
    - [Size] values that only count elements are [nat]; the [Size] arguments
      of the engine constructor, which carry the [Null<Size>()] sentinel, are
      [N].
    - [QL_REQUIRE] failures, reads of data members that were never assigned
      and out-of-range [operator[]] accesses are outcomes of the [Result]
      monad, so that a run that throws is told apart from one that returns.
    - Library pieces the header only includes ([close], [QL_EPSILON],
      [QL_MAX_REAL], [QL_MIN_REAL], [GeneralLinearLeastSquares]) are Section
      variables; [Double] gives one concrete instance of them. *)

From Stdlib Require Import QArith Qabs Qround ZArith NArith List Lia Lqa Bool.
From Stdlib Require Import Permutation Sorted Qpower.
Import ListNotations.

Open Scope Q_scope.

(** ** Reals and sizes *)

(** [Real] is QuantLib's name for [double]. *)
Abbreviation Real := Q (only parsing).

Definition Qltb (x y : Q) : bool := negb (Qle_bool y x).

Notation "x <=? y" := (Qle_bool x y) : Q_scope.
Notation "x <? y" := (Qltb x y) : Q_scope.

(** [std::min(a, b)] is [(b < a) ? b : a], [std::max(a, b)] is
    [(a < b) ? b : a]. *)
Definition std_min (a b : Real) : Real := if b <? a then b else a.
Definition std_max (a b : Real) : Real := if a <? b then b else a.

(** [static_cast<Size>(x)] for a non-negative real: truncation. *)
Definition to_Size (x : Real) : nat := Z.to_nat (Qfloor x).

Definition of_Size (n : nat) : Real := inject_Z (Z.of_nat n).

(** ** Double precision *)

Module Binary64.

(** The integer nearest to [x], a tie going to the even one. *)
Definition roundHalfEven (x : Q) : Z :=
  let f := Qfloor x in
  match Qcompare (x - inject_Z f) (1 # 2) with
  | Lt => f
  | Gt => (f + 1)%Z
  | Eq => if Z.even f then f else (f + 1)%Z
  end.

(** For [0 < x], the [b] with [2 ^ b <= x < 2 ^ (b + 1)]. *)
Definition binade (x : Q) : Z :=
  let k := (Z.log2 (Qnum x) - Z.log2 (Zpos (Qden x)))%Z in
  if Qle_bool (2 ^ k) x then k else (k - 1)%Z.

(** The exponent of the last of the 53 bits of [x], not below that of the
    subnormal numbers. *)
Definition exponent (x : Q) : Z := Z.max (binade x - 52) (-1074).

Definition roundPositive (x : Q) : Q :=
  let e := exponent x in
  inject_Z (roundHalfEven (x * 2 ^ (- e))) * 2 ^ e.

(** The [double] nearest to [x], ties to even.  It is the way a decimal
    literal of the source is read and the way the result of an operation
    is stored. *)
Definition round (x : Q) : Q :=
  match Qcompare x 0 with
  | Eq => 0
  | Gt => roundPositive x
  | Lt => - roundPositive (- x)
  end.

Definition add (x y : Q) : Q := round (x + y).
Definition sub (x y : Q) : Q := round (x - y).
Definition mul (x y : Q) : Q := round (x * y).
Definition div (x y : Q) : Q := round (x / y).

(** The rationals that are [double]s. *)
Definition is_double (x : Q) : Prop := round x == x.

(** [static_cast<Size>(x)] for a 64-bit [Size]: the integer part of [x],
    rounded toward zero, when it fits, and no defined result otherwise. *)
Definition to_Size (x : Q) : option N :=
  let z := Z.quot (Qnum x) (Zpos (Qden x)) in
  if (0 <=? z)%Z && (z <? 2 ^ 64)%Z then Some (Z.to_N z) else None.

End Binary64.

(** ** Option type *)

Inductive OptionType : Type := Put | Call.

Definition isCallType (t : OptionType) : bool :=
  match t with Call => true | Put => false end.

Definition isPutType (t : OptionType) : bool :=
  match t with Put => true | Call => false end.

(** ** Outcomes *)

(** The text of every [QL_REQUIRE] of the header, with the values streamed
    into it. *)
Inductive Message : Type :=
| LowerCutoffSide (lowerCutoff cutoff : Real) (type : OptionType)
    (* "lowerCutoff (..) must be less or equal (call) or greater equal (put)
        than cutoff (..) for type .." *)
| LinearCoefficientNotPositive (segment : nat) (b : Real)
    (* "for a call and a1=0 b (..) must be positive" (resp. a2) *)
| TooFewPoints (set : nat) (size : nat)
    (* "too few points for regression in set 1 (..)" (resp. set 2) *)
| NoTimeSteps
    (* "no time steps provided" *)
| BothTimeSteps
    (* "both time steps and time steps per year were provided" *)
| TimeStepsNotPositive (n : N)
    (* "timeSteps must be positive, .. not allowed" *)
| TimeStepsPerYearNotPositive (n : N)
    (* "timeStepsPerYear must be positive, .. not allowed" *)
| NoDiscountCurve
    (* "no discount curve given" *)
| ToleranceAlreadySet
    (* "tolerance already set" *)
| SamplesAlreadySet
    (* "number of samples already set" *)
| NoErrorEstimate
    (* "chosen random generator policy does not allow an error estimate" *)
| StepsNotGiven
    (* "number of steps not given" *)
| StepsOverspecified.
    (* "number of steps overspecified" *)

(** Data members of [QuadraticProxyFunction] that the constructor may leave
    without a value. *)
Inductive Member : Type :=
| flatExtrapolationType1 | flatExtrapolationType2
| extrapolationPoint1 | extrapolationPoint2.

Inductive Failure : Type :=
| Thrown (m : Message)              (* a QL_REQUIRE was violated *)
| IndeterminateRead (f : Member)    (* a member read before any assignment *)
| OutOfRange (index size : nat)     (* v[index] with index >= v.size() *)
| OutOfFuel.                        (* the model's loop bound was too small *)

Inductive Result (A : Type) : Type :=
| Ok (a : A)
| Fail (f : Failure).

Arguments Ok {A} a.
Arguments Fail {A} f.

Definition bind {A B} (c : Result A) (k : A -> Result B) : Result B :=
  match c with
  | Ok a => k a
  | Fail f => Fail f
  end.

Notation "x <- c ;; k" := (bind c (fun x => k))
  (at level 61, c at next level, right associativity).
Notation "c ;;; k" := (bind c (fun _ => k))
  (at level 61, right associativity).

Definition QL_REQUIRE (cond : bool) (m : Message) : Result unit :=
  if cond then Ok tt else Fail (Thrown m).

Definition read {A} (f : Member) (slot : option A) : Result A :=
  match slot with
  | Some v => Ok v
  | None => Fail (IndeterminateRead f)
  end.

Definition isOk {A} (r : Result A) : bool :=
  match r with Ok _ => true | Fail _ => false end.

(** ** QuadraticProxyFunction *)

Record QuadraticProxyFunction : Type := {
  type_ : OptionType;
  a1_ : Real; b1_ : Real; c1_ : Real;
  a2_ : Real; b2_ : Real; c2_ : Real;
  cutoff_ : Real; lowerCutoff_ : Real;
  coreRegionMin_ : Real; coreRegionMax_ : Real;
  (* +1 = right, -1 = left; [None] while unassigned *)
  flatExtrapolationType1_ : option Z;
  flatExtrapolationType2_ : option Z;
  extrapolationPoint1_ : option Real;
  extrapolationPoint2_ : option Real
}.

(** [(type_ == Option::Call ? 1.0 : -1.0) * (a > 0.0 ? -1 : 1)] *)
Definition flatExtrapolationType (type : OptionType) (a : Real) : Z :=
  ((if isCallType type then 1 else -1) * (if (0 <? a)%Q then -1 else 1))%Z.

Section Proxy.

(** [close(x, y)] of ql/math/comparison.hpp. *)
Variable close : Real -> Real -> bool.

(** One branch of the constructor: a segment whose quadratic coefficient
    is close to zero must have a positive slope and gets no vertex; the
    other segments get vertex and flat-extrapolation direction. *)
Definition segmentExtrapolation (segment : nat) (type : OptionType)
    (a b : Real) : Result (option Z * option Real) :=
  if close a 0 then
    QL_REQUIRE (0 <? b) (LinearCoefficientNotPositive segment b) ;;;
    Ok (None, None)
  else
    Ok (Some (flatExtrapolationType type a), Some (- b / (2 * a))).

Definition newQuadraticProxyFunction (type : OptionType) (cutoff : Real)
    (a1 b1 c1 a2 b2 c2 : Real)
    (lowerCutoff coreRegionMin coreRegionMax : Real)
  : Result QuadraticProxyFunction :=
  QL_REQUIRE ((isCallType type && (lowerCutoff <=? cutoff))
              || (isPutType type && (cutoff <=? lowerCutoff)))
             (LowerCutoffSide lowerCutoff cutoff type) ;;;
  e1 <- segmentExtrapolation 1 type a1 b1 ;;
  e2 <- segmentExtrapolation 2 type a2 b2 ;;
  Ok {| type_ := type;
        a1_ := a1; b1_ := b1; c1_ := c1;
        a2_ := a2; b2_ := b2; c2_ := c2;
        cutoff_ := cutoff; lowerCutoff_ := lowerCutoff;
        coreRegionMin_ := coreRegionMin; coreRegionMax_ := coreRegionMax;
        flatExtrapolationType1_ := fst e1;
        flatExtrapolationType2_ := fst e2;
        extrapolationPoint1_ := snd e1;
        extrapolationPoint2_ := snd e2 |}.

End Proxy.

(** The side of the cutoff the lower cutoff has to lie on. *)
Definition cutoffSideOk (type : OptionType) (lowerCutoff cutoff : Real)
  : Prop :=
  match type with
  | Call => lowerCutoff <= cutoff
  | Put => cutoff <= lowerCutoff
  end.

(** [flat * std::min(flat * point, flat * x)]: [x] moved to the vertex when
    it lies on the flat side of it. *)
Definition clampToVertex (flat : Z) (point x : Real) : Real :=
  inject_Z flat * std_min (inject_Z flat * point) (inject_Z flat * x).

Definition quadratic (a b c x : Real) : Real := a * x * x + b * x + c.

(** [(2.0 * a * lowerCutoff + b) * spot + c - a * lowerCutoff * lowerCutoff] *)
Definition linearExtrapolation (a b c lowerCutoff spot : Real) : Real :=
  (2 * a * lowerCutoff + b) * spot + c - a * lowerCutoff * lowerCutoff.

(** The guard [spot ? lowerCutoff_ && type_ == t && flat == dir] with C++
    short-circuit evaluation: the member is read only when the first two
    conjuncts hold. *)
Definition linearGuard (outside : bool) (typeMatches : bool) (f : Member)
    (flat : option Z) (dir : Z) : Result bool :=
  if outside && typeMatches then
    v <- read f flat ;; Ok (Z.eqb v dir)
  else Ok false.

(** [QuadraticProxyFunction::operator()] *)
Definition evaluate (p : QuadraticProxyFunction) (spot : Real) : Result Real :=
  if spot <=? cutoff_ p then
    lin <- linearGuard (spot <=? lowerCutoff_ p) (isCallType (type_ p))
             flatExtrapolationType1 (flatExtrapolationType1_ p) 1 ;;
    if lin then
      Ok (linearExtrapolation (a1_ p) (b1_ p) (c1_ p) (lowerCutoff_ p) spot)
    else
      f1 <- read flatExtrapolationType1 (flatExtrapolationType1_ p) ;;
      e1 <- read extrapolationPoint1 (extrapolationPoint1_ p) ;;
      let x := clampToVertex f1 e1 spot in
      let tmp := quadratic (a1_ p) (b1_ p) (c1_ p) x in
      if isPutType (type_ p) then
        f2 <- read flatExtrapolationType2 (flatExtrapolationType2_ p) ;;
        e2 <- read extrapolationPoint2 (extrapolationPoint2_ p) ;;
        let ct := clampToVertex f2 e2 (cutoff_ p) in
        Ok (std_max (quadratic (a2_ p) (b2_ p) (c2_ p) ct) tmp)
      else Ok tmp
  else
    lin <- linearGuard (lowerCutoff_ p <=? spot) (isPutType (type_ p))
             flatExtrapolationType2 (flatExtrapolationType2_ p) (-1) ;;
    if lin then
      Ok (linearExtrapolation (a2_ p) (b2_ p) (c2_ p) (lowerCutoff_ p) spot)
    else
      f2 <- read flatExtrapolationType2 (flatExtrapolationType2_ p) ;;
      e2 <- read extrapolationPoint2 (extrapolationPoint2_ p) ;;
      let x := clampToVertex f2 e2 spot in
      let tmp := quadratic (a2_ p) (b2_ p) (c2_ p) x in
      if isCallType (type_ p) then
        f1 <- read flatExtrapolationType1 (flatExtrapolationType1_ p) ;;
        e1 <- read extrapolationPoint1 (extrapolationPoint1_ p) ;;
        let ct := clampToVertex f1 e1 (cutoff_ p) in
        Ok (std_max (quadratic (a1_ p) (b1_ p) (c1_ p) ct) tmp)
      else Ok tmp.

(** ** Containers *)

(** [v[i]]; an index past the end is reported, the program would read
    outside the vector. *)
Definition at_ {A} (v : list A) (i : nat) : Result A :=
  match nth_error v i with
  | Some x => Ok x
  | None => Fail (OutOfRange i (length v))
  end.

Fixpoint replaceAt {A} (v : list A) (i : nat) (x : A) : list A :=
  match v, i with
  | [], _ => []
  | _ :: t, O => x :: t
  | y :: t, S j => y :: replaceAt t j x
  end.

(** [v[i] = x] *)
Definition assign {A} (v : list A) (i : nat) (x : A) : Result (list A) :=
  if (i <? length v)%nat then Ok (replaceAt v i x)
  else Fail (OutOfRange i (length v)).

(** (spot, npv) *)
Definition Observation : Type := (Real * Real)%type.

(** [operator<] of [std::pair<Real, Real>] *)
Definition pair_ltb (p q : Observation) : bool :=
  (fst p <? fst q) || (negb (fst q <? fst p) && (snd p <? snd q)).

(** [std::merge] of two ranges into a fresh one: the element of the second
    range is taken only when it is smaller than that of the first. *)
Fixpoint merge (l1 : list Observation) : list Observation -> list Observation :=
  fix merge_with_l1 (l2 : list Observation) : list Observation :=
    match l1, l2 with
    | [], _ => l2
    | _, [] => l1
    | x1 :: t1, x2 :: t2 =>
        if pair_ltb x2 x1 then x2 :: merge_with_l1 t2
        else x1 :: merge t1 l2
    end.

(** [std::upper_bound(v.begin(), v.end(), value) - v.begin()]: on a range
    partitioned by [value < element], as a sorted one is, the position of
    the first element greater than [value]. *)
Fixpoint upper_bound (v : list Observation) (value : Observation) : nat :=
  match v with
  | [] => O
  | x :: t => if pair_ltb value x then O else S (upper_bound t value)
  end.

(** ** The heuristics of [McFxTarfEngine::calculate] *)

Definition nAccBuckets : nat := 5.
Definition dFactor : nat := 10.
Definition relCutoff : Real := Binary64.round (80 # 100).
Definition minCutoffRatio : Real := Binary64.round (33 # 100).
Definition cutoffShrinkFactor : Real := Binary64.round (99 # 100).
Definition minLowerExtr : Real := 5 # 100.
Definition coreCutoff : Real := 1 # 100.
Definition minRegPoints : nat := 3.

(** *** Buckets for accumulated amounts *)

Definition bucketLimit (nBuckets : nat) (target accumulatedAmount : Real)
    (i : nat) : Real :=
  of_Size i / of_Size nBuckets * (target - accumulatedAmount)
  + accumulatedAmount.

(** The [push_back] loop followed by [accBucketLimits_[0] = 0.0]. *)
Definition createBuckets (nBuckets : nat) (target accumulatedAmount : Real)
  : Result (list Real) :=
  let accBucketLimits :=
    map (bucketLimit nBuckets target accumulatedAmount) (seq 0 nBuckets) in
  assign accBucketLimits 0 0.

(** *** Merging of buckets *)

Record Group : Type := {
  xTmp : list Observation;
  spotMin : Real;
  spotMax : Real
}.

(** One pass of either merging loop body: merge the bucket into [xTmp] and
    widen the spot range by its first and last spot. *)
Definition absorb (g : Group) (bucket : list Observation) : Group :=
  let merged := merge (xTmp g) bucket in
  match bucket with
  | [] => {| xTmp := merged; spotMin := spotMin g; spotMax := spotMax g |}
  | front :: _ =>
      let back := last bucket front in
      {| xTmp := merged;
         spotMin := if fst front <? spotMin g then fst front else spotMin g;
         spotMax := if spotMax g <? fst back then fst back else spotMax g |}
  end.

(** [numberOfDataPoints] and [remainingDataPoints] *)
Definition dataPoints (buckets : list (list Observation)) : nat :=
  fold_left (fun acc b => (acc + length b)%nat) buckets O.

(** The inner [do ... while (dFactor * xTmp.size() < numberOfDataPoints)] *)
Fixpoint collect (fuel : nat) (tmp : list (list Observation))
    (numberOfDataPoints : nat) (g : Group) (k0 : nat) : Result (Group * nat) :=
  match fuel with
  | O => Fail OutOfFuel
  | S fuel' =>
      bucket <- at_ tmp k0 ;;
      let g' := absorb g bucket in
      let k0' := S k0 in
      if (dFactor * length (xTmp g') <? numberOfDataPoints)%nat
      then collect fuel' tmp numberOfDataPoints g' k0'
      else Ok (g', k0')
  end.

(** "... and join the rest of data if they are to few" *)
Definition joinRest (tmp : list (list Observation))
    (numberOfDataPoints : nat) (g : Group) (k0 : nat) : Group * nat :=
  let remainingDataPoints := dataPoints (skipn k0 tmp) in
  if (dFactor * remainingDataPoints <? numberOfDataPoints)%nat
  then (fold_left absorb (skipn k0 tmp) g, length tmp)
  else (g, k0).

(** *** Splitting a merged group at the cutoff *)

(** [(isCall && relCutoffTmp > 0.5) || (!isCall && relCutoffTmp < 0.5)] *)
Definition mayShrink (isCall : bool) (relCutoffTmp : Real) : bool :=
  (isCall && ((1 # 2) <? relCutoffTmp))
  || (negb isCall && (relCutoffTmp <? (1 # 2))).

(** [criticalSize] for the current cutoff *)
Definition criticalSize (isCall : bool) (x : list Observation)
    (cutoff : Real) : nat :=
  let sizeA := upper_bound x (cutoff, 0) in
  let sizeB := (length x - sizeA)%nat in
  if isCall then sizeB else sizeA.

(** [criticalSize < minDataSegment || criticalSize < minRegPoints] *)
Definition tooSmall (minDataSegment critical : nat) : bool :=
  (critical <? minDataSegment)%nat || (critical <? minRegPoints)%nat.

(** [relCutoffTmp *= cutoffShrinkFactor] and
    [relCutoffTmp /= std::min(cutoffShrinkFactor, 1.0)] *)
Definition shrink (isCall : bool) (relCutoffTmp : Real) : Real :=
  if isCall then Binary64.mul relCutoffTmp cutoffShrinkFactor
  else Binary64.div relCutoffTmp (std_min cutoffShrinkFactor 1).

(** [spotMin + relCutoffTmp * (spotMax - spotMin)] *)
Definition cutoffAt (lo hi relCutoffTmp : Real) : Real :=
  Binary64.add lo (Binary64.mul relCutoffTmp (Binary64.sub hi lo)).

(** The [do ... while] that lowers the cutoff.  [minDataSegment] is the
    value computed before the loop. *)
Fixpoint shrinkCutoff (fuel : nat) (isCall : bool) (g : Group)
    (minDataSegment : nat) (relCutoffTmp cutoff : Real)
  : Result (Real * Real) :=
  match fuel with
  | O => Fail OutOfFuel
  | S fuel' =>
      let critical := criticalSize isCall (xTmp g) cutoff in
      let '(relCutoffTmp', cutoff') :=
        if mayShrink isCall relCutoffTmp && tooSmall minDataSegment critical
        then (shrink isCall relCutoffTmp,
              cutoffAt (spotMin g) (spotMax g) (shrink isCall relCutoffTmp))
        else (relCutoffTmp, cutoff) in
      if mayShrink isCall relCutoffTmp' && tooSmall minDataSegment critical
      then shrinkCutoff fuel' isCall g minDataSegment relCutoffTmp' cutoff'
      else Ok (relCutoffTmp', cutoff')
  end.

(** Loop bound of the model for [shrinkCutoff]; [finalCutoff_total] shows
    it is never exhausted. *)
Definition shrinkFuel : nat := 100.

(** [isCall ? relCutoff : 1.0 - relCutoff] *)
Definition initialRelCutoff (isCall : bool) : Real :=
  if isCall then relCutoff else Binary64.sub 1 relCutoff.

(** [static_cast<Size>((1.0 - relCutoffTmp) * minCutoffRatio * size) + 1],
    the size converted to [double] and the two products rounded as they
    are taken.  The product is neither negative nor, for a size a vector
    can have, too large for [Size]. *)
Definition minDataSegmentOfSize (isCall : bool) (size : nat) : nat :=
  let product :=
    Binary64.mul
      (Binary64.mul (Binary64.sub 1 (initialRelCutoff isCall))
         minCutoffRatio)
      (Binary64.round (of_Size size)) in
  (to_Size product + 1)%nat.

Definition minDataSegmentOf (isCall : bool) (g : Group) : nat :=
  minDataSegmentOfSize isCall (length (xTmp g)).

(** Relative cutoff and cutoff after the loop. *)
Definition finalCutoff (isCall : bool) (g : Group) : Result (Real * Real) :=
  shrinkCutoff shrinkFuel isCall g (minDataSegmentOf isCall g)
    (initialRelCutoff isCall)
    (cutoffAt (spotMin g) (spotMax g) (initialRelCutoff isCall)).

(** "copy the data to the final vectors used for the regression" *)
Definition segment1 (x : list Observation) (cutoff : Real) : list Observation :=
  filter (fun o => fst o <=? cutoff) x.
Definition segment2 (x : list Observation) (cutoff : Real) : list Observation :=
  filter (fun o => negb (fst o <=? cutoff)) x.

(** [avg = 0.0; for (...) avg += y[i];] over both segments *)
Definition sumPayoffs (start : Real) (seg : list Observation) : Real :=
  fold_left (fun acc o => acc + snd o) seg start.

(** [xTmp[xTmp.size() * fraction].first] *)
Definition spotAtFraction (x : list Observation) (fraction : Real)
  : Result Real :=
  o <- at_ x (to_Size (of_Size (length x) * fraction)) ;; Ok (fst o).

(** *** Regression on the merged groups *)

(** One regression result: the merged group, the buckets [k0Before .. k0)
    it covers and the function stored for them (what the trace lines of the
    loop report). *)
Record MergedGroup : Type := {
  firstBucket : nat;
  endBucket : nat;
  merged : Group;
  function : QuadraticProxyFunction
}.

(** [for (kk = k0Before; kk < k0; ++kk) proxy_->functions[i][kk] = fct;]
    with [count = k0 - k0Before] *)
Fixpoint storeFunction (row : list (option QuadraticProxyFunction))
    (kk count : nat) (fct : QuadraticProxyFunction)
  : Result (list (option QuadraticProxyFunction)) :=
  match count with
  | O => Ok row
  | S count' =>
      row' <- assign row kk (Some fct) ;;
      storeFunction row' (S kk) count' fct
  end.

Section Engine.

Variable close : Real -> Real -> bool.
Variables QL_EPSILON QL_MAX_REAL QL_MIN_REAL : Real.
(** [GeneralLinearLeastSquares(x, y, {basis0, basis1, basis2})
     .coefficients()], as the triple of entries 0, 1 and 2. *)
Variable GeneralLinearLeastSquares :
  list Real -> list Real -> Real * Real * Real.

Definition emptyGroup : Group :=
  {| xTmp := []; spotMin := QL_MAX_REAL; spotMax := QL_MIN_REAL |}.

(** [std::fabs(spotMax - spotMin) < QL_EPSILON] *)
Definition degenerate (g : Group) : bool :=
  Qabs (spotMax g - spotMin g) <? QL_EPSILON.

Definition regress (seg : list Observation) : Real * Real * Real :=
  GeneralLinearLeastSquares (map fst seg) (map snd seg).

(** The part of the loop body from "we rearrange the data to get two
    segments for the spot" to the construction of [fct]. *)
Definition buildProxyFunction (type : OptionType) (g : Group)
  : Result QuadraticProxyFunction :=
  let isCall := isCallType type in
  rc <- finalCutoff isCall g ;;
  let cutoff := snd rc in
  let s1 := segment1 (xTmp g) cutoff in
  let s2 := segment2 (xTmp g) cutoff in
  lowerCutoff <- spotAtFraction (xTmp g)
                   (if isCall then minLowerExtr else 1 - minLowerExtr) ;;
  coreRegionMin <- spotAtFraction (xTmp g) coreCutoff ;;
  coreRegionMax <- spotAtFraction (xTmp g) (1 - coreCutoff) ;;
  if degenerate g then
    let avg := sumPayoffs (sumPayoffs 0 s1) s2
               / of_Size (length s1 + length s2) in
    newQuadraticProxyFunction close type cutoff 0 0 avg 0 0 avg
      (- QL_MAX_REAL) (spotMin g) (spotMax g)
  else
    QL_REQUIRE (3 <=? length s1)%nat (TooFewPoints 1 (length s1)) ;;;
    QL_REQUIRE (3 <=? length s2)%nat (TooFewPoints 2 (length s2)) ;;;
    let '(c1, b1, a1) := regress s1 in
    let '(c2, b2, a2) := regress s2 in
    let lowerCutoff' := std_min lowerCutoff cutoff in
    newQuadraticProxyFunction close type cutoff a1 b1 c1 a2 b2 c2
      lowerCutoff' coreRegionMin coreRegionMax.

(** The [do ... while (k0 < tmp.size())] over the accumulated amount
    buckets of one fixing index.  The result is the row
    [proxy_->functions[i]] and the groups in the order they were built. *)
Fixpoint regressBuckets (fuel : nat) (type : OptionType)
    (tmp : list (list Observation)) (numberOfDataPoints : nat)
    (k0 : nat) (row : list (option QuadraticProxyFunction))
  : Result (list (option QuadraticProxyFunction) * list MergedGroup) :=
  match fuel with
  | O => Fail OutOfFuel
  | S fuel' =>
      let k0Before := k0 in
      c <- collect (S (length tmp)) tmp numberOfDataPoints emptyGroup k0 ;;
      let j := joinRest tmp numberOfDataPoints (fst c) (snd c) in
      let g := fst j in
      let k0 := snd j in
      fct <- buildProxyFunction type g ;;
      row' <- storeFunction row k0Before (k0 - k0Before) fct ;;
      let this := {| firstBucket := k0Before; endBucket := k0;
                     merged := g; function := fct |} in
      if (k0 <? length tmp)%nat then
        r <- regressBuckets fuel' type tmp numberOfDataPoints k0 row' ;;
        Ok (fst r, this :: snd r)
      else Ok (row', [this])
  end.

(** The body of the loop over the open fixings for one index: [tmp] is
    [data_[i]], the row starts as [nLimits] null pointers. *)
Definition regressFixing (type : OptionType) (nLimits : nat)
    (tmp : list (list Observation))
  : Result (list (option QuadraticProxyFunction) * list MergedGroup) :=
  regressBuckets (S (length tmp)) type tmp (dataPoints tmp) 0
    (repeat None nLimits).

(** [for (Size i = 0; i < arguments_.openFixingDates.size(); ++i)],
    [remaining] iterations from index [i] on. *)
Fixpoint regressFixings (remaining i : nat) (type : OptionType)
    (nLimits : nat) (data : list (list (list Observation)))
  : Result (list (list (option QuadraticProxyFunction))) :=
  match remaining with
  | O => Ok []
  | S remaining' =>
      tmp <- at_ data i ;;
      r <- regressFixing type nLimits tmp ;;
      rest <- regressFixings remaining' (S i) type nLimits data ;;
      Ok (fst r :: rest)
  end.

(** The proxy part of [calculate]: the functions of all open fixings. *)
Definition proxyFunctions (type : OptionType) (openFixings : nat)
    (nLimits : nat) (data : list (list (list Observation)))
  : Result (list (list (option QuadraticProxyFunction))) :=
  regressFixings openFixings 0 type nLimits data.

End Engine.

(** ** The rule of the specification for lowering the cutoff

    The design document words the loop differently from the header: the
    minimum segment size is taken from the current relative cutoff and the
    loop goes on only while the critical segment is below both bounds.
    This definition follows those words, for comparison with
    [shrinkCutoff]. *)
Definition tooSmallSpec (g : Group) (relCutoffTmp : Real)
    (critical : nat) : bool :=
  (of_Size critical
     <? minCutoffRatio * (1 - relCutoffTmp) * of_Size (length (xTmp g)) + 1)
  && (critical <? minRegPoints)%nat.

Fixpoint shrinkCutoffSpec (fuel : nat) (isCall : bool) (g : Group)
    (relCutoffTmp cutoff : Real) : Result (Real * Real) :=
  match fuel with
  | O => Fail OutOfFuel
  | S fuel' =>
      let critical := criticalSize isCall (xTmp g) cutoff in
      if mayShrink isCall relCutoffTmp
         && tooSmallSpec g relCutoffTmp critical
      then
        let relCutoffTmp' := shrink isCall relCutoffTmp in
        shrinkCutoffSpec fuel' isCall g relCutoffTmp'
          (cutoffAt (spotMin g) (spotMax g) relCutoffTmp')
      else Ok (relCutoffTmp, cutoff)
  end.

(** The relative cutoff [k] shrinking steps after [rel], and after the
    initial value. *)
Fixpoint shrinkBy (isCall : bool) (k : nat) (rel : Real) : Real :=
  match k with
  | O => rel
  | S k' => shrink isCall (shrinkBy isCall k' rel)
  end.

Definition relCutoffAfter (isCall : bool) (k : nat) : Real :=
  shrinkBy isCall k (initialRelCutoff isCall).

(** ** Engine construction *)

Section Construction.

(** [Null<Size>()] and [Null<Real>()] of ql/utilities/null.hpp, and
    [RNG::allowsErrorEstimate] of the random number policy. *)
Variable NullSize : N.
Variable NullReal : Real.
Variable allowsErrorEstimate : bool.
(** What a [Handle<YieldTermStructure>] points to; [None] is the empty
    handle. *)
Variable YieldTermStructure : Type.

Record McFxTarfEngine : Type := {
  timeSteps_ : N;
  timeStepsPerYear_ : N;
  requiredSamples_ : N;
  maxSamples_ : N;
  requiredTolerance_ : Real;
  brownianBridge_ : bool;
  antitheticVariate_ : bool;
  seed_ : N;
  discount_ : option YieldTermStructure;
  generateProxy_ : bool
}.

(** [McFxTarfEngine::McFxTarfEngine] *)
Definition newMcFxTarfEngine (timeSteps timeStepsPerYear : N)
    (brownianBridge antitheticVariate : bool) (requiredSamples : N)
    (requiredTolerance : Real) (maxSamples seed : N)
    (discount : option YieldTermStructure) (generateProxy : bool)
  : Result McFxTarfEngine :=
  QL_REQUIRE (negb (timeSteps =? NullSize)%N
              || negb (timeStepsPerYear =? NullSize)%N) NoTimeSteps ;;;
  QL_REQUIRE ((timeSteps =? NullSize)%N
              || (timeStepsPerYear =? NullSize)%N) BothTimeSteps ;;;
  QL_REQUIRE (negb (timeSteps =? 0)%N) (TimeStepsNotPositive timeSteps) ;;;
  QL_REQUIRE (negb (timeStepsPerYear =? 0)%N)
             (TimeStepsPerYearNotPositive timeStepsPerYear) ;;;
  QL_REQUIRE (match discount with Some _ => true | None => false end)
             NoDiscountCurve ;;;
  Ok {| timeSteps_ := timeSteps;
        timeStepsPerYear_ := timeStepsPerYear;
        requiredSamples_ := requiredSamples;
        maxSamples_ := maxSamples;
        requiredTolerance_ := requiredTolerance;
        brownianBridge_ := brownianBridge;
        antitheticVariate_ := antitheticVariate;
        seed_ := seed;
        discount_ := discount;
        generateProxy_ := generateProxy |}.

(** The factory [MakeMcFxTarfEngine]. *)
Record MakeMcFxTarfEngine : Type := {
  mk_brownianBridge_ : bool;
  mk_antithetic_ : bool;
  mk_steps_ : N;
  mk_stepsPerYear_ : N;
  mk_samples_ : N;
  mk_maxSamples_ : N;
  mk_tolerance_ : Real;
  mk_seed_ : N;
  mk_discount_ : option YieldTermStructure;
  mk_generateProxy_ : bool
}.

(** The factory's constructor; [riskFreeRate] is
    [process->riskFreeRate()]. *)
Definition newMakeMcFxTarfEngine (riskFreeRate : option YieldTermStructure)
  : MakeMcFxTarfEngine :=
  {| mk_brownianBridge_ := false; mk_antithetic_ := false;
     mk_steps_ := NullSize; mk_stepsPerYear_ := NullSize;
     mk_samples_ := NullSize; mk_maxSamples_ := NullSize;
     mk_tolerance_ := NullReal; mk_seed_ := 0%N;
     mk_discount_ := riskFreeRate; mk_generateProxy_ := false |}.

Definition setSteps (m : MakeMcFxTarfEngine) (v : N) :=
  {| mk_brownianBridge_ := mk_brownianBridge_ m;
     mk_antithetic_ := mk_antithetic_ m;
     mk_steps_ := v; mk_stepsPerYear_ := mk_stepsPerYear_ m;
     mk_samples_ := mk_samples_ m; mk_maxSamples_ := mk_maxSamples_ m;
     mk_tolerance_ := mk_tolerance_ m; mk_seed_ := mk_seed_ m;
     mk_discount_ := mk_discount_ m;
     mk_generateProxy_ := mk_generateProxy_ m |}.

Definition setStepsPerYear (m : MakeMcFxTarfEngine) (v : N) :=
  {| mk_brownianBridge_ := mk_brownianBridge_ m;
     mk_antithetic_ := mk_antithetic_ m;
     mk_steps_ := mk_steps_ m; mk_stepsPerYear_ := v;
     mk_samples_ := mk_samples_ m; mk_maxSamples_ := mk_maxSamples_ m;
     mk_tolerance_ := mk_tolerance_ m; mk_seed_ := mk_seed_ m;
     mk_discount_ := mk_discount_ m;
     mk_generateProxy_ := mk_generateProxy_ m |}.

Definition setSamples (m : MakeMcFxTarfEngine) (v : N) :=
  {| mk_brownianBridge_ := mk_brownianBridge_ m;
     mk_antithetic_ := mk_antithetic_ m;
     mk_steps_ := mk_steps_ m; mk_stepsPerYear_ := mk_stepsPerYear_ m;
     mk_samples_ := v; mk_maxSamples_ := mk_maxSamples_ m;
     mk_tolerance_ := mk_tolerance_ m; mk_seed_ := mk_seed_ m;
     mk_discount_ := mk_discount_ m;
     mk_generateProxy_ := mk_generateProxy_ m |}.

Definition setTolerance (m : MakeMcFxTarfEngine) (v : Real) :=
  {| mk_brownianBridge_ := mk_brownianBridge_ m;
     mk_antithetic_ := mk_antithetic_ m;
     mk_steps_ := mk_steps_ m; mk_stepsPerYear_ := mk_stepsPerYear_ m;
     mk_samples_ := mk_samples_ m; mk_maxSamples_ := mk_maxSamples_ m;
     mk_tolerance_ := v; mk_seed_ := mk_seed_ m;
     mk_discount_ := mk_discount_ m;
     mk_generateProxy_ := mk_generateProxy_ m |}.

(** The named parameters.  Those that cannot fail return the factory. *)
Definition withSteps (m : MakeMcFxTarfEngine) (steps : N)
  : Result MakeMcFxTarfEngine := Ok (setSteps m steps).

Definition withStepsPerYear (m : MakeMcFxTarfEngine) (steps : N)
  : Result MakeMcFxTarfEngine := Ok (setStepsPerYear m steps).

Definition withSamples (m : MakeMcFxTarfEngine) (samples : N)
  : Result MakeMcFxTarfEngine :=
  QL_REQUIRE (Qeq_bool (mk_tolerance_ m) NullReal) ToleranceAlreadySet ;;;
  Ok (setSamples m samples).

Definition withAbsoluteTolerance (m : MakeMcFxTarfEngine) (tolerance : Real)
  : Result MakeMcFxTarfEngine :=
  QL_REQUIRE (mk_samples_ m =? NullSize)%N SamplesAlreadySet ;;;
  QL_REQUIRE allowsErrorEstimate NoErrorEstimate ;;;
  Ok (setTolerance m tolerance).

(** [operator boost::shared_ptr<PricingEngine>()] *)
Definition toPricingEngine (m : MakeMcFxTarfEngine) : Result McFxTarfEngine :=
  QL_REQUIRE (negb (mk_steps_ m =? NullSize)%N
              || negb (mk_stepsPerYear_ m =? NullSize)%N) StepsNotGiven ;;;
  QL_REQUIRE ((mk_steps_ m =? NullSize)%N
              || (mk_stepsPerYear_ m =? NullSize)%N) StepsOverspecified ;;;
  newMcFxTarfEngine (mk_steps_ m) (mk_stepsPerYear_ m)
    (mk_brownianBridge_ m) (mk_antithetic_ m) (mk_samples_ m)
    (mk_tolerance_ m) (mk_maxSamples_ m) (mk_seed_ m) (mk_discount_ m)
    (mk_generateProxy_ m).

(** A use of the factory: some named parameters in sequence, then the
    conversion. *)
Inductive NamedParameter : Type :=
| WithSteps (steps : N)
| WithStepsPerYear (steps : N)
| WithSamples (samples : N)
| WithAbsoluteTolerance (tolerance : Real).

Definition applyParameter (m : MakeMcFxTarfEngine) (p : NamedParameter)
  : Result MakeMcFxTarfEngine :=
  match p with
  | WithSteps n => withSteps m n
  | WithStepsPerYear n => withStepsPerYear m n
  | WithSamples n => withSamples m n
  | WithAbsoluteTolerance t => withAbsoluteTolerance m t
  end.

Fixpoint applyParameters (m : MakeMcFxTarfEngine) (ps : list NamedParameter)
  : Result MakeMcFxTarfEngine :=
  match ps with
  | [] => Ok m
  | p :: rest => m' <- applyParameter m p ;; applyParameters m' rest
  end.

Definition makeEngine (riskFreeRate : option YieldTermStructure)
    (ps : list NamedParameter) : Result McFxTarfEngine :=
  m <- applyParameters (newMakeMcFxTarfEngine riskFreeRate) ps ;;
  toPricingEngine m.

End Construction.

Arguments newMcFxTarfEngine NullSize {YieldTermStructure}.
Arguments newMakeMcFxTarfEngine NullSize NullReal {YieldTermStructure}.
Arguments mk_brownianBridge_ {YieldTermStructure}.
Arguments mk_antithetic_ {YieldTermStructure}.
Arguments mk_steps_ {YieldTermStructure}.
Arguments mk_stepsPerYear_ {YieldTermStructure}.
Arguments mk_samples_ {YieldTermStructure}.
Arguments mk_maxSamples_ {YieldTermStructure}.
Arguments mk_tolerance_ {YieldTermStructure}.
Arguments mk_seed_ {YieldTermStructure}.
Arguments mk_discount_ {YieldTermStructure}.
Arguments mk_generateProxy_ {YieldTermStructure}.
Arguments withSteps {YieldTermStructure}.
Arguments withStepsPerYear {YieldTermStructure}.
Arguments withSamples NullReal {YieldTermStructure}.
Arguments withAbsoluteTolerance NullSize allowsErrorEstimate
  {YieldTermStructure}.
Arguments toPricingEngine NullSize {YieldTermStructure}.
Arguments makeEngine NullSize NullReal allowsErrorEstimate
  {YieldTermStructure}.

(** ** One environment for concrete runs

    The general statements below hold for every [close], [QL_EPSILON],
    [QL_MAX_REAL], [QL_MIN_REAL] and least-squares routine (under the
    stated assumptions).  Concrete runs need concrete values; these are the
    ones of an IEEE double build. *)
Module Double.

(** [std::numeric_limits<double>::epsilon()] *)
Definition QL_EPSILON : Real := 1 # (2 ^ 52).

(** [std::numeric_limits<double>::max()] and its negative *)
Definition QL_MAX_REAL : Real := inject_Z (2 ^ 1024 - 2 ^ 971).
Definition QL_MIN_REAL : Real := - QL_MAX_REAL.

(** [close(x, y)] with the default [n = 42]: equal, or within
    [42 * QL_EPSILON] relative to both arguments. *)
Definition close (x y : Real) : bool :=
  Qeq_bool x y
  || (let diff := Qabs (x - y) in
      let tolerance := 42 * QL_EPSILON in
      (diff <=? tolerance * Qabs x) && (diff <=? tolerance * Qabs y)).

Definition det3 (a b c d e f g h i : Real) : Real :=
  a * (e * i - f * h) - b * (d * i - f * g) + c * (d * h - e * g).

Definition sumOf (f : Real -> Real -> Real) (xs ys : list Real) : Real :=
  fold_left Qplus (map (fun p => f (fst p) (snd p)) (combine xs ys)) 0.

(** Modelled from the spec: the Quadratic Regressor, "ordinary
    least-squares fit of each segment onto the basis {1, x, x²}"
    (ql/math/generallinearleastsquares.hpp is not among the sources).
    The normal equations are solved by Cramer's rule; the result is
    (coefficient of 1, of x, of x²). *)
Definition GeneralLinearLeastSquares (xs ys : list Real)
  : Real * Real * Real :=
  let s0 := sumOf (fun _ _ => 1) xs ys in
  let s1 := sumOf (fun x _ => x) xs ys in
  let s2 := sumOf (fun x _ => x * x) xs ys in
  let s3 := sumOf (fun x _ => x * x * x) xs ys in
  let s4 := sumOf (fun x _ => x * x * x * x) xs ys in
  let t0 := sumOf (fun _ y => y) xs ys in
  let t1 := sumOf (fun x y => x * y) xs ys in
  let t2 := sumOf (fun x y => x * x * y) xs ys in
  let d := det3 s0 s1 s2 s1 s2 s3 s2 s3 s4 in
  (Qred (det3 t0 s1 s2 t1 s2 s3 t2 s3 s4 / d),
   Qred (det3 s0 t0 s2 s1 t1 s3 s2 t2 s4 / d),
   Qred (det3 s0 s1 t0 s1 s2 t1 s2 s3 t2 / d)).

(** [std::numeric_limits<int>::max()] and
    [std::numeric_limits<float>::max()] *)
Definition NullSize : N := 2147483647.
Definition NullReal : Real := inject_Z (2 ^ 128 - 2 ^ 104).

Definition buildProxyFunction :=
  buildProxyFunction close QL_EPSILON QL_MAX_REAL GeneralLinearLeastSquares.
Definition regressFixing :=
  regressFixing close QL_EPSILON QL_MAX_REAL QL_MIN_REAL
    GeneralLinearLeastSquares.
Definition proxyFunctions :=
  proxyFunctions close QL_EPSILON QL_MAX_REAL QL_MIN_REAL
    GeneralLinearLeastSquares.

End Double.

(** ** Sample data *)

(** Observations on the parabola [npv = spot²] at the spots
    [first, first + 1, ..]. *)
Definition onParabola (first count : nat) : list Observation :=
  map (fun k => (of_Size k, of_Size k * of_Size k)) (seq first count).

(** Five buckets of one fixing index: ten points each in the first two,
    one point each in the next two, none in the last. *)
Definition sampleBuckets : list (list Observation) :=
  [ onParabola 1 10; onParabola 1 10; onParabola 11 1; onParabola 12 1; [] ].

(** Five buckets holding four observations in all. *)
Definition sparseBuckets : list (list Observation) :=
  [ onParabola 1 2; onParabola 3 2; []; []; [] ].

(** All observations at the same spot. *)
Definition flatBuckets : list (list Observation) :=
  [ [(1, 2); (1, 4)]; [(1, 6)]; []; []; [] ].

(** A merged group of ten observations at the spots 1 to 10. *)
Definition tenPoints : Group :=
  {| xTmp := onParabola 1 10; spotMin := 1; spotMax := 10 |}.

(** A merged group of three observations at one and the same spot. *)
Definition flatGroup : Group :=
  {| xTmp := [(1, 2); (1, 4); (1, 6)]; spotMin := 1; spotMax := 1 |}.

(** A merged group of four observations: two below and two above every
    cutoff the loop can reach. *)
Definition fourPoints : Group :=
  {| xTmp := onParabola 1 2 ++ onParabola 9 2; spotMin := 1; spotMax := 10 |}.

(** A call group of 500 observations of which 33 lie above the initial
    cutoff: the size for which the minimum data segment is 33 in double
    precision, the product [(1.0 - 0.8) * 0.33 * 500] falling just short
    of 33. *)
Definition atThreshold : Group :=
  {| xTmp := repeat (0, 0) 467 ++ repeat (1000, 0) 33;
     spotMin := 0; spotMax := 1000 |}.

(** A put group with observations of value zero at the spots 0 to 10; the
    initial relative cutoff [1.0 - 0.8] lies just below one fifth, and so
    the initial cutoff just below the spot 2. *)
Definition onFifth : Group :=
  {| xTmp := map (fun k => (of_Size k, 0)) (seq 0 11);
     spotMin := 0; spotMax := 10 |}.

(** ** Vocabulary of the statements *)

Fixpoint nonDecreasing (l : list Real) : Prop :=
  match l with
  | x :: ((y :: _) as rest) => x <= y /\ nonDecreasing rest
  | _ => True
  end.

(** What is expected of the bucket limits for [nBuckets] buckets up to
    [target]. *)
Definition bucketLimitsOk (nBuckets : nat) (target : Real)
    (limits : list Real) : Prop :=
  length limits = nBuckets
  /\ (exists first, nth_error limits 0 = Some first /\ first == 0)
  /\ nonDecreasing limits
  /\ Forall (fun limit => limit < target) limits.

Definition bucketLimitsSpec (nBuckets : nat) (target accumulatedAmount : Real)
  : Prop :=
  exists limits,
    createBuckets nBuckets target accumulatedAmount = Ok limits
    /\ bucketLimitsOk nBuckets target limits.

(** Which named parameters a use of the factory supplies. *)
Definition stepsGiven (ps : list NamedParameter) : bool :=
  existsb (fun p => match p with WithSteps _ => true | _ => false end) ps.
Definition stepsPerYearGiven (ps : list NamedParameter) : bool :=
  existsb (fun p => match p with WithStepsPerYear _ => true | _ => false end)
    ps.
Definition samplesGiven (ps : list NamedParameter) : bool :=
  existsb (fun p => match p with WithSamples _ => true | _ => false end) ps.
Definition toleranceGiven (ps : list NamedParameter) : bool :=
  existsb (fun p => match p with WithAbsoluteTolerance _ => true
                            | _ => false end) ps.

(** The configuration errors as the design document lists them: neither or
    both of steps and steps per year, neither or both of samples and
    tolerance, or a tolerance without error estimates. *)
Definition configurationErrorListed (allowsErrorEstimate : bool)
    (ps : list NamedParameter) : bool :=
  Bool.eqb (stepsGiven ps) (stepsPerYearGiven ps)
  || Bool.eqb (samplesGiven ps) (toleranceGiven ps)
  || (toleranceGiven ps && negb allowsErrorEstimate).

(** The acceptance condition of the engine constructor. *)
Definition timeStepsOk (NullSize timeSteps timeStepsPerYear : N) : Prop :=
  (timeSteps <> NullSize \/ timeStepsPerYear <> NullSize)
  /\ (timeSteps = NullSize \/ timeStepsPerYear = NullSize)
  /\ timeSteps <> 0%N /\ timeStepsPerYear <> 0%N.

(** The groups cover the buckets [first .. stop) one after the other, each
    with at least one bucket. *)
Fixpoint contiguous (first : nat) (groups : list MergedGroup) (stop : nat)
  : Prop :=
  match groups with
  | [] => first = stop
  | mg :: rest =>
      firstBucket mg = first
      /\ (first < endBucket mg)%nat
      /\ contiguous (endBucket mg) rest stop
  end.

(** Bucket [kk] belongs to the group. *)
Definition covers (mg : MergedGroup) (kk : nat) : Prop :=
  (firstBucket mg <= kk < endBucket mg)%nat.

(** The number of observations in all merged groups. *)
Definition totalMergedSize (groups : list MergedGroup) : nat :=
  list_sum (map (fun mg => length (xTmp (merged mg))) groups).

(** Every bucket of every group holds the function of its group. *)
Definition rowHolds (row : list (option QuadraticProxyFunction))
    (groups : list MergedGroup) : Prop :=
  forall mg kk,
    In mg groups -> covers mg kk ->
    nth_error row kk = Some (Some (function mg)).


(** The regression fails with [f] at fixing index [i]: the fixings before
    it are regressed, the one at [i] is not. *)
Definition failsAtFixing (type : OptionType) (nLimits : nat)
    (data : list (list (list Observation))) (i : nat) (f : Failure) : Prop :=
  (forall j, (j < i)%nat ->
     exists tmp, at_ data j = Ok tmp
                 /\ isOk (Double.regressFixing type nLimits tmp) = true)
  /\ exists tmp, at_ data i = Ok tmp
                 /\ Double.regressFixing type nLimits tmp = Fail f.

(** Two open fixings each: the sparse buckets first, or second. *)
Definition sparseFirst : list (list (list Observation)) :=
  [ sparseBuckets; sampleBuckets ].
Definition sparseSecond : list (list (list Observation)) :=
  [ sampleBuckets; sparseBuckets ].

(** The loop of the design document started like [finalCutoff]. *)
Definition finalCutoffSpec (isCall : bool) (g : Group)
  : Result (Real * Real) :=
  shrinkCutoffSpec shrinkFuel isCall g (initialRelCutoff isCall)
    (cutoffAt (spotMin g) (spotMax g) (initialRelCutoff isCall)).

(** The loop condition of [shrinkCutoff] after [k] shrinking steps. *)
Definition continuing (isCall : bool) (g : Group) (k : nat) : bool :=
  mayShrink isCall (relCutoffAfter isCall k)
  && tooSmall (minDataSegmentOf isCall g)
       (criticalSize isCall (xTmp g)
          (cutoffAt (spotMin g) (spotMax g) (relCutoffAfter isCall k))).

(** ** Further parts of the engine *)

(** [p <= q] in the order of [operator<] on pairs: [q] is not smaller than
    [p]. *)
Definition pair_le (p q : Observation) : Prop := pair_ltb q p = false.

(** A range sorted by [operator<], as [std::merge] and [std::upper_bound]
    expect and as the comment on [ProxyData] promises ("sorted asc by spot
    values"). *)
Definition ascending (l : list Observation) : Prop :=
  StronglySorted pair_le l.

(** The observations of the buckets [first .. stop) of one fixing index. *)
Definition bucketsBetween (tmp : list (list Observation)) (first stop : nat)
  : list Observation :=
  concat (firstn (stop - first) (skipn first tmp)).

(** Every spot of the group lies between its [spotMin] and [spotMax]. *)
Definition spotsWithin (g : Group) : Prop :=
  Forall (fun o => spotMin g <= fst o /\ fst o <= spotMax g) (xTmp g).

(** [QuadraticProxyFunction::coreRegion] *)
Definition coreRegion (p : QuadraticProxyFunction) : Real * Real :=
  (coreRegionMin_ p, coreRegionMax_ p).

(** *** The time grid *)

(** What [timeGrid] does: it hands the fixing times and a number of steps
    to the constructor of [TimeGrid], or it fails. *)
Inductive TimeGridOutcome : Type :=
| Grid (mandatoryTimes : list Real) (steps : N)
    (* TimeGrid(fixingTimes_.begin(), fixingTimes_.end(), steps) *)
| TimeStepsNotSpecified
    (* QL_FAIL("time steps not specified") *)
| BackOfEmptyVector
    (* fixingTimes_.back() without any fixing time *)
| StepsOutOfRange.
    (* static_cast<Size> of a product that does not fit [Size] *)

Section TimeGrid.

Variable NullSize : N.
Variable YieldTermStructure : Type.

(** [static_cast<Size>(timeStepsPerYear_ * fixingTimes_.back())]: the
    steps per year are converted to [double], the product is rounded to
    [double] and then truncated, if it fits [Size]. *)
Definition stepsUntil (timeStepsPerYear : N) (lastTime : Real) : option N :=
  Binary64.to_Size
    (Binary64.mul (Binary64.round (inject_Z (Z.of_N timeStepsPerYear)))
       lastTime).

(** [McFxTarfEngine::timeGrid] *)
Definition timeGrid (e : McFxTarfEngine YieldTermStructure)
    (fixingTimes : list Real) : TimeGridOutcome :=
  if negb (timeSteps_ _ e =? NullSize)%N then
    Grid fixingTimes (timeSteps_ _ e)
  else if negb (timeStepsPerYear_ _ e =? NullSize)%N then
    match fixingTimes with
    | [] => BackOfEmptyVector
    | t :: _ =>
        match stepsUntil (timeStepsPerYear_ _ e) (last fixingTimes t) with
        | Some steps => Grid fixingTimes (N.max steps 1)
        | None => StepsOutOfRange
        end
    end
  else TimeStepsNotSpecified.

End TimeGrid.

Arguments timeGrid NullSize {YieldTermStructure}.

(** *** The containers of the engine *)

Section Containers.

(** Dates, with the two services [calculate] asks of its collaborators:
    [process_->time(d)] and [discount_->discount(d)]. *)
Variable Date : Type.
Variable time : Date -> Real.
Variable discount : Date -> Real.
(** What [proxy_] points to. *)
Variable Proxy : Type.

(** The mutable members that [calculate] fills and [reset] clears. *)
Record Containers : Type := {
  fixingTimes_ : list Real;
  discounts_ : list Real;
  proxy_ : option Proxy;
  data_ : list (list (list Observation));
  accBucketLimits_ : list Real
}.

(** [McFxTarfEngine::reset], as far as these members go. *)
Definition reset (s : Containers) : Containers :=
  {| fixingTimes_ := []; discounts_ := []; proxy_ := None;
     data_ := []; accBucketLimits_ := [] |}.

(** The loop over the open fixing dates at the start of [calculate]:
    [remaining] iterations from index [i] on. *)
Fixpoint pushFixings (remaining i : nat)
    (openFixingDates openPaymentDates : list Date)
    (fixingTimes discounts : list Real) : Result (list Real * list Real) :=
  match remaining with
  | O => Ok (fixingTimes, discounts)
  | S remaining' =>
      fixing <- at_ openFixingDates i ;;
      payment <- at_ openPaymentDates i ;;
      pushFixings remaining' (S i) openFixingDates openPaymentDates
        (fixingTimes ++ [time fixing]) (discounts ++ [discount payment])
  end.

(** "create the buckets": [nBuckets] times [push_back], then
    [accBucketLimits_[0] = 0.0]. *)
Definition pushBuckets (nBuckets : nat) (target accumulatedAmount : Real)
    (accBucketLimits : list Real) : Result (list Real) :=
  assign
    (accBucketLimits
     ++ map (bucketLimit nBuckets target accumulatedAmount) (seq 0 nBuckets))
    0 0.

(** "initialize the data container": one entry of [nBuckets] empty buckets
    for each of the [fixings] fixing times. *)
Definition pushData (nBuckets fixings : nat)
    (data : list (list (list Observation)))
  : list (list (list Observation)) :=
  data ++ repeat (repeat [] nBuckets) fixings.

(** The part of [calculate] between the trivial cases of the base engine
    and the simulation. *)
Definition prepare (generateProxy : bool)
    (openFixingDates openPaymentDates : list Date)
    (target accumulatedAmount : Real) (s : Containers) : Result Containers :=
  td <- pushFixings (length openFixingDates) 0 openFixingDates
          openPaymentDates (fixingTimes_ s) (discounts_ s) ;;
  if generateProxy then
    limits <- pushBuckets nAccBuckets target accumulatedAmount
                (accBucketLimits_ s) ;;
    Ok {| fixingTimes_ := fst td; discounts_ := snd td; proxy_ := proxy_ s;
          data_ := pushData nAccBuckets (length (fst td)) (data_ s);
          accBucketLimits_ := limits |}
  else
    Ok {| fixingTimes_ := fst td; discounts_ := snd td; proxy_ := proxy_ s;
          data_ := data_ s; accBucketLimits_ := accBucketLimits_ s |}.

End Containers.

Arguments fixingTimes_ {Proxy}.
Arguments discounts_ {Proxy}.
Arguments proxy_ {Proxy}.
Arguments data_ {Proxy}.
Arguments accBucketLimits_ {Proxy}.
Arguments reset {Proxy}.
Arguments prepare {Date} time discount {Proxy}.

(** Sample values for the further statements. *)
Definition sampleCallProxy : Result QuadraticProxyFunction :=
  newQuadraticProxyFunction Double.close Call 8 1 0 0 (-1) 20 (-80) 2 1 10.
Definition samplePutProxy : Result QuadraticProxyFunction :=
  newQuadraticProxyFunction Double.close Put 3 1 (-20) 100 1 (-20) 100 3 1 10.

(** * Properties *)

(** ** Comparisons *)

Lemma Qltb_true (x y : Q) : (x <? y) = true <-> x < y.
Proof.
  unfold Qltb. rewrite negb_true_iff. split; intro H.
  - apply Qnot_le_lt. intro L. apply Qle_bool_iff in L. congruence.
  - destruct (Qle_bool y x) eqn:E; [|reflexivity].
    apply Qle_bool_iff in E. exfalso. apply (Qlt_not_le _ _ H E).
Qed.

Lemma Qltb_false (x y : Q) : (x <? y) = false <-> y <= x.
Proof.
  unfold Qltb. rewrite negb_false_iff. apply Qle_bool_iff.
Qed.

Lemma Qleb_true (x y : Q) : (x <=? y) = true <-> x <= y.
Proof. apply Qle_bool_iff. Qed.

Lemma Qleb_false (x y : Q) : (x <=? y) = false <-> y < x.
Proof.
  split; intro H.
  - apply Qnot_le_lt. intro L. apply Qle_bool_iff in L. congruence.
  - destruct (x <=? y) eqn:E; [|reflexivity].
    apply Qle_bool_iff in E. exfalso. apply (Qlt_not_le _ _ H E).
Qed.

Lemma Qltb_irrefl (x : Q) : (x <? x) = false.
Proof. apply Qltb_false. apply Qle_refl. Qed.

(** ** The result monad *)

Lemma bind_Ok {A B} (c : Result A) (k : A -> Result B) (b : B) :
  bind c k = Ok b -> exists a, c = Ok a /\ k a = Ok b.
Proof. destruct c as [a|f]; simpl; intro H; [eauto | discriminate]. Qed.

Lemma bind_Fail {A B} (c : Result A) (k : A -> Result B) (f : Failure) :
  c = Fail f -> bind c k = Fail f.
Proof. intros ->. reflexivity. Qed.

Lemma QL_REQUIRE_Ok (cond : bool) (m : Message) (u : unit) :
  QL_REQUIRE cond m = Ok u -> cond = true.
Proof. destruct cond; [reflexivity | discriminate]. Qed.

Lemma isOk_true {A} (r : Result A) : isOk r = true <-> exists a, r = Ok a.
Proof.
  destruct r; simpl; split; intro H; eauto; try discriminate.
  destruct H as [a H]. discriminate.
Qed.

(** ** The constructor of [QuadraticProxyFunction] *)

Section ConstructorFacts.

Variable close : Real -> Real -> bool.

Lemma segmentExtrapolation_Ok segment type a b :
  isOk (segmentExtrapolation close segment type a b) = true
  <-> (close a 0 = true -> 0 < b).
Proof.
  unfold segmentExtrapolation. destruct (close a 0).
  - destruct (0 <? b) eqn:E; simpl.
    + apply Qltb_true in E. tauto.
    + apply Qltb_false in E. split; [discriminate|].
      intro H. specialize (H eq_refl). exfalso.
      apply (Qlt_not_le _ _ H E).
  - simpl. split; [discriminate | reflexivity].
Qed.

Lemma segmentExtrapolation_linear segment type a b e :
  close a 0 = true ->
  segmentExtrapolation close segment type a b = Ok e -> e = (None, None).
Proof.
  unfold segmentExtrapolation. intros ->.
  destruct (0 <? b); simpl; intro H; [congruence | discriminate].
Qed.

Lemma segmentExtrapolation_quadratic segment type a b :
  close a 0 = false ->
  segmentExtrapolation close segment type a b
  = Ok (Some (flatExtrapolationType type a), Some (- b / (2 * a))).
Proof. unfold segmentExtrapolation. intros ->. reflexivity. Qed.

Lemma cutoffSide_true type lowerCutoff cutoff :
  (isCallType type && (lowerCutoff <=? cutoff))
  || (isPutType type && (cutoff <=? lowerCutoff)) = true
  <-> cutoffSideOk type lowerCutoff cutoff.
Proof.
  destruct type; simpl; rewrite ?orb_false_r; apply Qleb_true.
Qed.

Lemma constructor_Ok_iff type cutoff a1 b1 c1 a2 b2 c2 lc cmin cmax :
  isOk (newQuadraticProxyFunction close type cutoff a1 b1 c1 a2 b2 c2
          lc cmin cmax) = true
  <-> cutoffSideOk type lc cutoff
      /\ (close a1 0 = true -> 0 < b1)
      /\ (close a2 0 = true -> 0 < b2).
Proof.
  unfold newQuadraticProxyFunction.
  rewrite <- cutoffSide_true.
  rewrite <- (segmentExtrapolation_Ok 1 type a1 b1).
  rewrite <- (segmentExtrapolation_Ok 2 type a2 b2).
  destruct ((isCallType type && (lc <=? cutoff))
            || (isPutType type && (cutoff <=? lc))); simpl.
  - destruct (segmentExtrapolation close 1 type a1 b1); simpl.
    + destruct (segmentExtrapolation close 2 type a2 b2); simpl; tauto.
    + split; [discriminate|]. intros (_ & H & _). discriminate.
  - split; [discriminate|]. intros (H & _). discriminate.
Qed.

(** What an accepted construction stores. *)
Lemma constructor_fields type cutoff a1 b1 c1 a2 b2 c2 lc cmin cmax p :
  newQuadraticProxyFunction close type cutoff a1 b1 c1 a2 b2 c2
    lc cmin cmax = Ok p ->
  exists e1 e2,
    segmentExtrapolation close 1 type a1 b1 = Ok e1
    /\ segmentExtrapolation close 2 type a2 b2 = Ok e2
    /\ p = {| type_ := type;
              a1_ := a1; b1_ := b1; c1_ := c1;
              a2_ := a2; b2_ := b2; c2_ := c2;
              cutoff_ := cutoff; lowerCutoff_ := lc;
              coreRegionMin_ := cmin; coreRegionMax_ := cmax;
              flatExtrapolationType1_ := fst e1;
              flatExtrapolationType2_ := fst e2;
              extrapolationPoint1_ := snd e1;
              extrapolationPoint2_ := snd e2 |}.
Proof.
  unfold newQuadraticProxyFunction. intro H.
  apply bind_Ok in H. destruct H as (u & _ & H).
  apply bind_Ok in H. destruct H as (e1 & E1 & H).
  apply bind_Ok in H. destruct H as (e2 & E2 & H).
  exists e1, e2. repeat split; try assumption. congruence.
Qed.

End ConstructorFacts.

(** C9.  The constructor accepts its arguments exactly when the lower cutoff
    is on the right side of the cutoff for the option type (at most the
    cutoff for a call, at least the cutoff for a put) and every segment whose
    quadratic coefficient is close to zero has a strictly positive linear
    coefficient.  In particular a constant segment (a = 0 and b = 0), in
    either position and for either option type, is rejected. *)
Theorem constructor_acceptance
    (close : Real -> Real -> bool) (Hclose : close 0 0 = true)
    (type : OptionType) (cutoff a1 b1 c1 a2 b2 c2 lc cmin cmax : Real) :
  (isOk (newQuadraticProxyFunction close type cutoff a1 b1 c1 a2 b2 c2
           lc cmin cmax) = true
   <-> (match type with Call => lc <= cutoff | Put => cutoff <= lc end)
       /\ (close a1 0 = true -> 0 < b1)
       /\ (close a2 0 = true -> 0 < b2))
  /\ ((a1 = 0 /\ b1 == 0) \/ (a2 = 0 /\ b2 == 0) ->
      isOk (newQuadraticProxyFunction close type cutoff a1 b1 c1 a2 b2 c2
              lc cmin cmax) = false).
Proof.
  split.
  - apply constructor_Ok_iff.
  - intro H.
    destruct (isOk _) eqn:E; [|reflexivity]. exfalso.
    apply constructor_Ok_iff in E. destruct E as (_ & H1 & H2).
    destruct H as [[-> Hb] | [-> Hb]].
    + specialize (H1 Hclose). rewrite Hb in H1. apply (Qlt_irrefl _ H1).
    + specialize (H2 Hclose). rewrite Hb in H2. apply (Qlt_irrefl _ H2).
Qed.

Lemma constructor_acceptance_witness :
  isOk (newQuadraticProxyFunction Double.close Call 2 0 0 5 0 0 5
          (- Double.QL_MAX_REAL) 1 1) = false
  /\ isOk (newQuadraticProxyFunction Double.close Put 2 0 0 5 0 0 5
             (- Double.QL_MAX_REAL) 1 1) = false.
Proof.
  split.
  - apply (constructor_acceptance Double.close eq_refl Call 2 0 0 5 0 0 5
             (- Double.QL_MAX_REAL) 1 1).
    left. split; reflexivity.
  - apply (constructor_acceptance Double.close eq_refl Put 2 0 0 5 0 0 5
             (- Double.QL_MAX_REAL) 1 1).
    left. split; reflexivity.
Defined.

(** ** Evaluation *)

Lemma flatExtrapolationType_call_concave (a : Real) :
  a < 0 -> flatExtrapolationType Call a = 1%Z.
Proof.
  intro H. unfold flatExtrapolationType. simpl.
  assert (E : (0 <? a) = false) by (apply Qltb_false; lra).
  rewrite E. reflexivity.
Qed.

Lemma flatExtrapolationType_put_concave (a : Real) :
  a < 0 -> flatExtrapolationType Put a = (-1)%Z.
Proof.
  intro H. unfold flatExtrapolationType. simpl.
  assert (E : (0 <? a) = false) by (apply Qltb_false; lra).
  rewrite E. reflexivity.
Qed.

(** Below the lower cutoff a call proxy with a concave first segment is the
    tangent of that segment at the lower cutoff. *)
Lemma evaluate_call_linear close cutoff a1 b1 c1 a2 b2 c2 lc cmin cmax p x :
  newQuadraticProxyFunction close Call cutoff a1 b1 c1 a2 b2 c2 lc cmin cmax
  = Ok p ->
  close a1 0 = false -> a1 < 0 -> x <= lc ->
  evaluate p x = Ok (linearExtrapolation a1 b1 c1 lc x).
Proof.
  intros Hp Hc Ha Hx.
  assert (Hside : lc <= cutoff).
  { assert (E : isOk (newQuadraticProxyFunction close Call cutoff a1 b1 c1
                        a2 b2 c2 lc cmin cmax) = true)
      by (rewrite Hp; reflexivity).
    apply constructor_Ok_iff in E. apply E. }
  apply constructor_fields in Hp. destruct Hp as (e1 & e2 & E1 & _ & ->).
  rewrite (segmentExtrapolation_quadratic close 1 Call a1 b1 Hc) in E1.
  injection E1 as <-.
  unfold evaluate; simpl.
  assert (C1 : (x <=? cutoff) = true) by (apply Qleb_true; lra).
  assert (C2 : (x <=? lc) = true) by (apply Qleb_true; lra).
  rewrite C1, C2. simpl.
  rewrite (flatExtrapolationType_call_concave _ Ha). reflexivity.
Qed.

(** C2.  A call proxy is not monotone everywhere: when the first segment is
    concave and its tangent at the lower cutoff has a negative slope (the
    lower cutoff lies to the right of the vertex), the accepted function is
    strictly decreasing on all spots up to the lower cutoff. *)
Theorem call_proxy_decreases_below_lowerCutoff
    (close : Real -> Real -> bool)
    (cutoff a1 b1 c1 a2 b2 c2 lc cmin cmax : Real)
    (p : QuadraticProxyFunction) (x1 x2 : Real) :
  newQuadraticProxyFunction close Call cutoff a1 b1 c1 a2 b2 c2 lc cmin cmax
  = Ok p ->
  close a1 0 = false -> a1 < 0 -> 2 * a1 * lc + b1 < 0 ->
  x1 < x2 -> x2 <= lc ->
  exists v1 v2,
    evaluate p x1 = Ok v1 /\ evaluate p x2 = Ok v2 /\ v2 < v1.
Proof.
  intros Hp Hc Ha Hslope Hlt Hle.
  exists (linearExtrapolation a1 b1 c1 lc x1),
         (linearExtrapolation a1 b1 c1 lc x2).
  split; [|split].
  - apply (evaluate_call_linear _ _ _ _ _ _ _ _ _ _ _ _ _ Hp Hc Ha). lra.
  - apply (evaluate_call_linear _ _ _ _ _ _ _ _ _ _ _ _ _ Hp Hc Ha). lra.
  - unfold linearExtrapolation.
    set (s := 2 * a1 * lc + b1) in *.
    assert (s * x2 < s * x1); [|lra].
    assert (0 < (- s) * (x2 - x1)) by (apply Qmult_lt_0_compat; lra).
    lra.
Qed.

Lemma call_proxy_decreases_below_lowerCutoff_witness :
  exists p v1 v2,
    newQuadraticProxyFunction Double.close Call 2 (-1) 0 0 (-1) 10 0 1 0 3
    = Ok p
    /\ evaluate p 0 = Ok v1 /\ evaluate p 1 = Ok v2 /\ v2 < v1.
Proof.
  eexists.
  destruct (call_proxy_decreases_below_lowerCutoff Double.close
              2 (-1) 0 0 (-1) 10 0 1 0 3 _ 0 1 eq_refl eq_refl)
    as (v1 & v2 & E1 & E2 & L); try lra.
  exists v1, v2. split; [reflexivity|]. split; [exact E1|]. split; assumption.
Defined.

(** The run behind the witness: the proxy of a call returns 1 at spot 0 and
    -1 at spot 1. *)
Example call_proxy_values :
  exists p,
    newQuadraticProxyFunction Double.close Call 2 (-1) 0 0 (-1) 10 0 1 0 3
    = Ok p
    /\ evaluate p 0 = Ok 1 /\ evaluate p 1 = Ok (-1).
Proof. eexists. split; [reflexivity|]. split; reflexivity. Qed.

(** The mirror image for a put: at and above the lower cutoff the proxy is
    the tangent of the second segment, rising when its slope is positive. *)
Lemma put_proxy_increases_above_lowerCutoff
    (close : Real -> Real -> bool)
    (cutoff a1 b1 c1 a2 b2 c2 lc cmin cmax : Real)
    (p : QuadraticProxyFunction) (x1 x2 : Real) :
  newQuadraticProxyFunction close Put cutoff a1 b1 c1 a2 b2 c2 lc cmin cmax
  = Ok p ->
  close a2 0 = false -> a2 < 0 -> 0 < 2 * a2 * lc + b2 ->
  cutoff < x1 -> lc <= x1 -> x1 < x2 ->
  exists v1 v2,
    evaluate p x1 = Ok v1 /\ evaluate p x2 = Ok v2 /\ v1 < v2.
Proof.
  intros Hp Hc Ha Hslope Hcut Hle Hlt.
  apply constructor_fields in Hp. destruct Hp as (e1 & e2 & _ & E2 & ->).
  rewrite (segmentExtrapolation_quadratic close 2 Put a2 b2 Hc) in E2.
  injection E2 as <-.
  assert (Lin : forall x, x1 <= x ->
            evaluate
              {| type_ := Put; a1_ := a1; b1_ := b1; c1_ := c1;
                 a2_ := a2; b2_ := b2; c2_ := c2;
                 cutoff_ := cutoff; lowerCutoff_ := lc;
                 coreRegionMin_ := cmin; coreRegionMax_ := cmax;
                 flatExtrapolationType1_ := fst e1;
                 flatExtrapolationType2_ := Some (flatExtrapolationType Put a2);
                 extrapolationPoint1_ := snd e1;
                 extrapolationPoint2_ := Some (- b2 / (2 * a2)) |} x
            = Ok (linearExtrapolation a2 b2 c2 lc x)).
  { intros x Hx. unfold evaluate; simpl.
    assert (C1 : (x <=? cutoff) = false) by (apply Qleb_false; lra).
    assert (C2 : (lc <=? x) = true) by (apply Qleb_true; lra).
    rewrite C1, C2. simpl.
    rewrite (flatExtrapolationType_put_concave _ Ha). reflexivity. }
  exists (linearExtrapolation a2 b2 c2 lc x1),
         (linearExtrapolation a2 b2 c2 lc x2).
  split; [|split].
  - apply Lin. lra.
  - apply Lin. lra.
  - unfold linearExtrapolation.
    set (s := 2 * a2 * lc + b2) in *.
    assert (0 < s * (x2 - x1)) by (apply Qmult_lt_0_compat; lra).
    lra.
Qed.

(** C10.  A segment whose quadratic coefficient is close to zero leaves its
    vertex and its flat-extrapolation direction unassigned, and evaluation
    reads them all the same: on the side of the cutoff that belongs to such
    a segment every evaluation starts by reading the unassigned direction
    flag. *)
Theorem evaluation_reads_unassigned_members
    (close : Real -> Real -> bool) (type : OptionType)
    (cutoff a1 b1 c1 a2 b2 c2 lc cmin cmax : Real)
    (p : QuadraticProxyFunction) (spot : Real) :
  newQuadraticProxyFunction close type cutoff a1 b1 c1 a2 b2 c2 lc cmin cmax
  = Ok p ->
  (close a1 0 = true -> spot <= cutoff ->
   evaluate p spot = Fail (IndeterminateRead flatExtrapolationType1))
  /\ (close a2 0 = true -> cutoff < spot ->
      evaluate p spot = Fail (IndeterminateRead flatExtrapolationType2)).
Proof.
  intro Hp.
  apply constructor_fields in Hp. destruct Hp as (e1 & e2 & E1 & E2 & ->).
  split; intros Hc Hs.
  - apply (segmentExtrapolation_linear _ _ _ _ _ _ Hc) in E1. subst e1.
    unfold evaluate, linearGuard; simpl.
    assert (C : (spot <=? cutoff) = true) by (apply Qleb_true; exact Hs).
    rewrite C.
    destruct ((spot <=? lc) && isCallType type); reflexivity.
  - apply (segmentExtrapolation_linear _ _ _ _ _ _ Hc) in E2. subst e2.
    unfold evaluate, linearGuard; simpl.
    assert (C : (spot <=? cutoff) = false) by (apply Qleb_false; exact Hs).
    rewrite C.
    destruct ((lc <=? spot) && isPutType type); reflexivity.
Qed.

Lemma evaluation_reads_unassigned_members_witness :
  exists p,
    newQuadraticProxyFunction Double.close Call 1 0 1 0 1 0 0 0 0 2 = Ok p
    /\ evaluate p (1 # 2) = Fail (IndeterminateRead flatExtrapolationType1).
Proof.
  eexists. split; [reflexivity|].
  apply (evaluation_reads_unassigned_members Double.close Call
           1 0 1 0 1 0 0 0 0 2 _ (1 # 2) eq_refl); [reflexivity|lra].
Defined.

(** With two proper quadratic segments every member is assigned and
    evaluation returns a value at every spot. *)
Lemma evaluate_defined
    (close : Real -> Real -> bool) (type : OptionType)
    (cutoff a1 b1 c1 a2 b2 c2 lc cmin cmax : Real)
    (p : QuadraticProxyFunction) (spot : Real) :
  newQuadraticProxyFunction close type cutoff a1 b1 c1 a2 b2 c2 lc cmin cmax
  = Ok p ->
  close a1 0 = false -> close a2 0 = false ->
  exists v, evaluate p spot = Ok v.
Proof.
  intros Hp H1 H2.
  apply constructor_fields in Hp. destruct Hp as (e1 & e2 & E1 & E2 & ->).
  rewrite (segmentExtrapolation_quadratic close 1 type a1 b1 H1) in E1.
  rewrite (segmentExtrapolation_quadratic close 2 type a2 b2 H2) in E2.
  injection E1 as <-. injection E2 as <-.
  unfold evaluate, linearGuard; simpl.
  destruct (spot <=? cutoff).
  - destruct ((spot <=? lc) && isCallType type); simpl.
    + destruct (flatExtrapolationType type a1 =? 1)%Z; [eauto|].
      destruct (isPutType type); eauto.
    + destruct (isPutType type); eauto.
  - destruct ((lc <=? spot) && isPutType type); simpl.
    + destruct (flatExtrapolationType type a2 =? -1)%Z; [eauto|].
      destruct (isCallType type); eauto.
    + destruct (isCallType type); eauto.
Qed.

(** ** Where a call proxy is monotone *)

Lemma std_min_cases (a b : Real) :
  (b < a /\ std_min a b = b) \/ (a <= b /\ std_min a b = a).
Proof.
  unfold std_min. destruct (b <? a) eqn:E.
  - left. split; [apply Qltb_true; exact E | reflexivity].
  - right. split; [apply Qltb_false; exact E | reflexivity].
Qed.

Lemma std_max_cases (a b : Real) :
  (a < b /\ std_max a b = b) \/ (b <= a /\ std_max a b = a).
Proof.
  unfold std_max. destruct (a <? b) eqn:E.
  - left. split; [apply Qltb_true; exact E | reflexivity].
  - right. split; [apply Qltb_false; exact E | reflexivity].
Qed.

(** Flat to the right: the smaller of vertex and spot. *)
Lemma clamp_right (v x : Real) :
  (clampToVertex 1 v x == x /\ x <= v) \/ (clampToVertex 1 v x == v /\ v <= x).
Proof.
  unfold clampToVertex. change (inject_Z 1) with 1.
  destruct (std_min_cases (1 * v) (1 * x)) as [(H & ->)|(H & ->)].
  - left. split; [ring | lra].
  - right. split; [ring | lra].
Qed.

(** Flat to the left: the larger of vertex and spot. *)
Lemma clamp_left (v x : Real) :
  (clampToVertex (-1) v x == x /\ v <= x)
  \/ (clampToVertex (-1) v x == v /\ x <= v).
Proof.
  unfold clampToVertex. change (inject_Z (-1)) with (-1).
  destruct (std_min_cases (-1 * v) (-1 * x)) as [(H & ->)|(H & ->)].
  - left. split; [ring | lra].
  - right. split; [ring | lra].
Qed.

Lemma quadratic_increasing_right (a b c v y1 y2 : Real) :
  0 < a -> 2 * a * v + b == 0 -> v <= y1 -> y1 <= y2 ->
  quadratic a b c y1 <= quadratic a b c y2.
Proof.
  intros Ha Hv H1 H2. unfold quadratic.
  assert (0 <= (y2 - y1) * (a * (y1 - v) + a * (y2 - v))).
  { apply Qmult_le_0_compat; [lra|].
    assert (0 <= a * (y1 - v)) by (apply Qmult_le_0_compat; lra).
    assert (0 <= a * (y2 - v)) by (apply Qmult_le_0_compat; lra).
    lra. }
  nra.
Qed.

Lemma quadratic_increasing_left (a b c v y1 y2 : Real) :
  a < 0 -> 2 * a * v + b == 0 -> y1 <= y2 -> y2 <= v ->
  quadratic a b c y1 <= quadratic a b c y2.
Proof.
  intros Ha Hv H1 H2. unfold quadratic.
  assert (0 <= (y2 - y1) * ((- a) * (v - y1) + (- a) * (v - y2))).
  { apply Qmult_le_0_compat; [lra|].
    assert (0 <= (- a) * (v - y1)) by (apply Qmult_le_0_compat; lra).
    assert (0 <= (- a) * (v - y2)) by (apply Qmult_le_0_compat; lra).
    lra. }
  nra.
Qed.

Lemma vertex_is_stationary (a b : Real) :
  ~ a == 0 -> 2 * a * (- b / (2 * a)) + b == 0.
Proof. intro H. field. exact H. Qed.

Lemma flatExtrapolationType_call_convex (a : Real) :
  0 < a -> flatExtrapolationType Call a = (-1)%Z.
Proof.
  intro H. unfold flatExtrapolationType. simpl.
  assert (E : (0 <? a) = true) by (apply Qltb_true; exact H).
  rewrite E. reflexivity.
Qed.

(** A segment of a call, clamped at its vertex, never decreases. *)
Lemma clamped_segment_call (a b c x1 x2 : Real) :
  ~ a == 0 -> x1 <= x2 ->
  quadratic a b c
    (clampToVertex (flatExtrapolationType Call a) (- b / (2 * a)) x1)
  <= quadratic a b c
       (clampToVertex (flatExtrapolationType Call a) (- b / (2 * a)) x2).
Proof.
  intros Ha Hx.
  assert (Hv := vertex_is_stationary a b Ha).
  set (v := - b / (2 * a)) in *.
  destruct (Q_dec a 0) as [[Hneg|Hpos]|Hz]; [| |contradiction].
  - rewrite (flatExtrapolationType_call_concave a Hneg).
    destruct (clamp_right v x1) as [(E1 & L1)|(E1 & L1)];
      destruct (clamp_right v x2) as [(E2 & L2)|(E2 & L2)];
      apply (quadratic_increasing_left a b c v); try assumption; lra.
  - rewrite (flatExtrapolationType_call_convex a Hpos).
    destruct (clamp_left v x1) as [(E1 & L1)|(E1 & L1)];
      destruct (clamp_left v x2) as [(E2 & L2)|(E2 & L2)];
      apply (quadratic_increasing_right a b c v); try assumption; lra.
Qed.

(** The tangent at the lower cutoff meets the clamped segment there when
    its slope is not negative. *)
Lemma tangent_meets_segment (a b c lc : Real) :
  ~ a == 0 -> a < 0 -> 0 <= 2 * a * lc + b ->
  linearExtrapolation a b c lc lc
  <= quadratic a b c (clampToVertex 1 (- b / (2 * a)) lc).
Proof.
  intros Ha Hneg Hs.
  assert (Hv := vertex_is_stationary a b Ha).
  set (v := - b / (2 * a)) in *.
  assert (Hlc : lc <= v).
  { assert (0 <= (- a) * (v - lc)); [lra|]. 
    destruct (Qlt_le_dec v lc) as [L|L]; [|exact L].
    assert (0 < (- a) * (lc - v)) by (apply Qmult_lt_0_compat; lra).
    lra. }
  destruct (clamp_right v lc) as [(E & L)|(E & L)].
  - unfold linearExtrapolation, quadratic.
    set (y := clampToVertex 1 v lc) in *. nra.
  - assert (lc == v) by lra.
    unfold linearExtrapolation, quadratic.
    set (y := clampToVertex 1 v lc) in *. nra.
Qed.

Section CallProxy.

Variable close : Real -> Real -> bool.
Variables cutoff a1 b1 c1 a2 b2 c2 lc cmin cmax : Real.
Variable p : QuadraticProxyFunction.
Hypothesis accepted :
  newQuadraticProxyFunction close Call cutoff a1 b1 c1 a2 b2 c2 lc cmin cmax
  = Ok p.
Hypothesis quadratic1 : close a1 0 = false.
Hypothesis quadratic2 : close a2 0 = false.

Local Abbreviation segment1At x :=
  (quadratic a1 b1 c1
     (clampToVertex (flatExtrapolationType Call a1) (- b1 / (2 * a1)) x)).
Local Abbreviation segment2At x :=
  (quadratic a2 b2 c2
     (clampToVertex (flatExtrapolationType Call a2) (- b2 / (2 * a2)) x)).

Lemma call_proxy_fields :
  lc <= cutoff
  /\ p = {| type_ := Call;
            a1_ := a1; b1_ := b1; c1_ := c1;
            a2_ := a2; b2_ := b2; c2_ := c2;
            cutoff_ := cutoff; lowerCutoff_ := lc;
            coreRegionMin_ := cmin; coreRegionMax_ := cmax;
            flatExtrapolationType1_ := Some (flatExtrapolationType Call a1);
            flatExtrapolationType2_ := Some (flatExtrapolationType Call a2);
            extrapolationPoint1_ := Some (- b1 / (2 * a1));
            extrapolationPoint2_ := Some (- b2 / (2 * a2)) |}.
Proof.
  split.
  - assert (E : isOk (newQuadraticProxyFunction close Call cutoff a1 b1 c1
                        a2 b2 c2 lc cmin cmax) = true)
      by (rewrite accepted; reflexivity).
    apply constructor_Ok_iff in E. apply E.
  - destruct (constructor_fields _ _ _ _ _ _ _ _ _ _ _ _ _ accepted)
      as (e1 & e2 & E1 & E2 & ->).
    rewrite (segmentExtrapolation_quadratic close 1 Call a1 b1 quadratic1)
      in E1.
    rewrite (segmentExtrapolation_quadratic close 2 Call a2 b2 quadratic2)
      in E2.
    injection E1 as <-. injection E2 as <-. reflexivity.
Qed.

(** Between the lower cutoff and the cutoff, and up to the cutoff when the
    first segment is convex, the proxy is the clamped first segment. *)
Lemma evaluate_call_segment1 (x : Real) :
  x <= cutoff -> lc < x \/ 0 < a1 ->
  evaluate p x = Ok (segment1At x).
Proof.
  intros Hx Hside. destruct call_proxy_fields as (_ & ->).
  unfold evaluate, linearGuard; simpl.
  assert (C : (x <=? cutoff) = true) by (apply Qleb_true; exact Hx).
  rewrite C.
  destruct Hside as [H|H].
  - assert (C2 : (x <=? lc) = false) by (apply Qleb_false; exact H).
    rewrite C2. reflexivity.
  - rewrite (flatExtrapolationType_call_convex a1 H).
    destruct (x <=? lc); reflexivity.
Qed.

(** Above the cutoff the proxy is the larger of the first segment at the
    cutoff and the second segment. *)
Lemma evaluate_call_segment2 (x : Real) :
  cutoff < x ->
  evaluate p x = Ok (std_max (segment1At cutoff) (segment2At x)).
Proof.
  intro Hx. destruct call_proxy_fields as (_ & ->).
  unfold evaluate, linearGuard; simpl.
  assert (C : (x <=? cutoff) = false) by (apply Qleb_false; exact Hx).
  rewrite C. rewrite andb_false_r. reflexivity.
Qed.

Hypothesis nonzero1 : ~ a1 == 0.
Hypothesis nonzero2 : ~ a2 == 0.
Hypothesis tangent : a1 < 0 -> 0 <= 2 * a1 * lc + b1.

(** Up to the cutoff. *)
Lemma call_proxy_monotone_below (x1 x2 : Real) :
  x1 <= x2 -> x2 <= cutoff ->
  exists v1 v2,
    evaluate p x1 = Ok v1 /\ evaluate p x2 = Ok v2 /\ v1 <= v2
    /\ v2 <= segment1At cutoff.
Proof.
  intros H12 H2.
  assert (Hlc := proj1 call_proxy_fields).
  destruct (Q_dec a1 0) as [[Hneg|Hpos]|Hz]; [| |contradiction].
  - (* concave first segment: tangent up to the lower cutoff *)
    assert (Hs := tangent Hneg).
    assert (Lin : forall x, x <= lc ->
              evaluate p x = Ok (linearExtrapolation a1 b1 c1 lc x)).
    { intros x Hx.
      apply (evaluate_call_linear close cutoff a1 b1 c1 a2 b2 c2 lc cmin cmax
               p x accepted quadratic1 Hneg Hx). }
    assert (LinMono : forall x y, x <= y ->
              linearExtrapolation a1 b1 c1 lc x
              <= linearExtrapolation a1 b1 c1 lc y).
    { intros x y Hxy. unfold linearExtrapolation.
      assert (0 <= (2 * a1 * lc + b1) * (y - x))
        by (apply Qmult_le_0_compat; lra).
      lra. }
    assert (Meet := tangent_meets_segment a1 b1 c1 lc nonzero1 Hneg Hs).
    rewrite <- (flatExtrapolationType_call_concave a1 Hneg) in Meet.
    destruct (Qlt_le_dec lc x2) as [B2|B2].
    + destruct (Qlt_le_dec lc x1) as [B1|B1].
      * exists (segment1At x1), (segment1At x2).
        rewrite !evaluate_call_segment1 by (try lra; left; assumption).
        repeat split; apply clamped_segment_call; assumption || lra.
      * exists (linearExtrapolation a1 b1 c1 lc x1), (segment1At x2).
        rewrite (Lin x1 B1).
        rewrite evaluate_call_segment1 by (try lra; left; assumption).
        repeat split.
        -- apply Qle_trans with (linearExtrapolation a1 b1 c1 lc lc);
             [apply LinMono; exact B1|].
           apply Qle_trans with (segment1At lc); [exact Meet|].
           apply clamped_segment_call; [assumption | lra].
        -- apply clamped_segment_call; assumption || lra.
    + exists (linearExtrapolation a1 b1 c1 lc x1),
             (linearExtrapolation a1 b1 c1 lc x2).
      rewrite (Lin x1) by lra. rewrite (Lin x2 B2).
      repeat split.
      * apply LinMono. exact H12.
      * apply Qle_trans with (linearExtrapolation a1 b1 c1 lc lc);
          [apply LinMono; exact B2|].
        apply Qle_trans with (segment1At lc); [exact Meet|].
        apply clamped_segment_call; assumption || lra.
  - (* convex first segment: no tangent *)
    exists (segment1At x1), (segment1At x2).
    rewrite !evaluate_call_segment1 by (try lra; right; assumption).
    repeat split; apply clamped_segment_call; assumption || lra.
Qed.

(** When the tangent at the lower cutoff does not slope downwards, a call
    proxy with two proper quadratic segments never decreases, across the
    cutoff included. *)
Lemma call_proxy_monotone (x1 x2 : Real) :
  x1 <= x2 ->
  exists v1 v2,
    evaluate p x1 = Ok v1 /\ evaluate p x2 = Ok v2 /\ v1 <= v2.
Proof.
  intro H12.
  destruct (Qlt_le_dec cutoff x2) as [A2|A2].
  - destruct (Qlt_le_dec cutoff x1) as [A1|A1].
    + exists (std_max (segment1At cutoff) (segment2At x1)),
             (std_max (segment1At cutoff) (segment2At x2)).
      rewrite (evaluate_call_segment2 x1 A1), (evaluate_call_segment2 x2 A2).
      split; [reflexivity|]. split; [reflexivity|].
      assert (M := clamped_segment_call a2 b2 c2 x1 x2 nonzero2 H12).
      destruct (std_max_cases (segment1At cutoff) (segment2At x1))
        as [(L1 & ->)|(L1 & ->)];
        destruct (std_max_cases (segment1At cutoff) (segment2At x2))
          as [(L2 & ->)|(L2 & ->)]; lra.
    + destruct (call_proxy_monotone_below x1 x1 (Qle_refl x1) A1)
        as (v1 & v1' & E1 & _ & L & Hup).
      exists v1, (std_max (segment1At cutoff) (segment2At x2)).
      rewrite (evaluate_call_segment2 x2 A2).
      split; [exact E1|]. split; [reflexivity|].
      destruct (std_max_cases (segment1At cutoff) (segment2At x2))
        as [(L2 & ->)|(L2 & ->)]; lra.
  - destruct (call_proxy_monotone_below x1 x2 H12 A2)
      as (v1 & v2 & E1 & E2 & L & _).
    exists v1, v2. repeat split; assumption.
Qed.

End CallProxy.

(** ** Bucket limits *)

Lemma of_Size_nonneg (i : nat) : 0 <= of_Size i.
Proof.
  unfold of_Size. rewrite <- (Qle_bool_iff 0). unfold Qle_bool. simpl.
  apply Z.leb_le. lia.
Qed.

Lemma of_Size_pos (n : nat) : (0 < n)%nat -> 0 < of_Size n.
Proof.
  intro H. unfold of_Size, Qlt. simpl. lia.
Qed.

Lemma of_Size_le (i j : nat) : (i <= j)%nat -> of_Size i <= of_Size j.
Proof.
  intro H. unfold of_Size. rewrite <- Zle_Qle. lia.
Qed.

Lemma of_Size_lt (i j : nat) : (i < j)%nat -> of_Size i < of_Size j.
Proof.
  intro H. unfold of_Size. rewrite <- Zlt_Qlt. lia.
Qed.

Section BucketLimits.

Variable nBuckets : nat.
Variables target accumulatedAmount : Real.
Hypothesis positive : (0 < nBuckets)%nat.
Hypothesis open : accumulatedAmount < target.

Local Abbreviation limit :=
  (bucketLimit nBuckets target accumulatedAmount).

Lemma bucketLimit_monotone (i j : nat) :
  (i <= j)%nat -> limit i <= limit j.
Proof.
  intro H. unfold bucketLimit.
  assert (P := of_Size_pos nBuckets positive).
  assert (R : of_Size i / of_Size nBuckets <= of_Size j / of_Size nBuckets).
  { unfold Qdiv. apply Qmult_le_compat_r.
    - apply of_Size_le, H.
    - apply Qlt_le_weak, Qinv_lt_0_compat, P. }
  assert (M : of_Size i / of_Size nBuckets * (target - accumulatedAmount)
              <= of_Size j / of_Size nBuckets
                 * (target - accumulatedAmount)).
  { apply Qmult_le_compat_r; [exact R | lra]. }
  lra.
Qed.

Lemma bucketLimit_lower (i : nat) : accumulatedAmount <= limit i.
Proof.
  unfold bucketLimit.
  assert (P := of_Size_pos nBuckets positive).
  assert (0 <= of_Size i / of_Size nBuckets).
  { unfold Qdiv. apply Qmult_le_0_compat.
    - apply of_Size_nonneg.
    - apply Qlt_le_weak, Qinv_lt_0_compat, P. }
  assert (0 <= of_Size i / of_Size nBuckets * (target - accumulatedAmount))
    by (apply Qmult_le_0_compat; [assumption | lra]).
  lra.
Qed.

Lemma bucketLimit_upper (i : nat) : (i < nBuckets)%nat -> limit i < target.
Proof.
  intro H. unfold bucketLimit.
  assert (P := of_Size_pos nBuckets positive).
  assert (R : of_Size i / of_Size nBuckets < 1).
  { apply Qlt_shift_div_r; [exact P|].
    rewrite Qmult_1_l. apply of_Size_lt, H. }
  assert (0 < (1 - of_Size i / of_Size nBuckets)
              * (target - accumulatedAmount))
    by (apply Qmult_lt_0_compat; lra).
  lra.
Qed.

Lemma nonDecreasing_limits (start len : nat) :
  nonDecreasing (map limit (seq start len)).
Proof.
  revert start. induction len as [|len IH]; intro start; [exact I|].
  simpl. destruct len as [|len]; [exact I|].
  split.
  - apply bucketLimit_monotone. lia.
  - apply (IH (S start)).
Qed.

Lemma limits_below_target (start len : nat) :
  (start + len <= nBuckets)%nat ->
  Forall (fun l => l < target) (map limit (seq start len)).
Proof.
  revert start. induction len as [|len IH]; intros start H; simpl.
  - constructor.
  - constructor.
    + apply bucketLimit_upper. lia.
    + apply IH. lia.
Qed.

Lemma createBuckets_ok :
  0 <= accumulatedAmount ->
  bucketLimitsSpec nBuckets target accumulatedAmount.
Proof.
  intro Hacc. unfold bucketLimitsSpec, createBuckets.
  assert (E : exists m, nBuckets = S m) by (exists (pred nBuckets); lia).
  destruct E as [m E].
  replace (seq 0 nBuckets) with (0%nat :: seq 1 m)
    by (rewrite E; reflexivity).
  exists (0 :: map limit (seq 1 m)).
  split; [reflexivity|].
  unfold bucketLimitsOk. repeat split.
  - simpl. rewrite length_map, length_seq. symmetry. exact E.
  - exists 0. split; reflexivity.
  - destruct m as [|m']; [exact I|].
    change (0 <= limit 1%nat /\ nonDecreasing (map limit (seq 1 (S m')))).
    split.
    + apply Qle_trans with accumulatedAmount;
        [exact Hacc | apply bucketLimit_lower].
    + apply nonDecreasing_limits.
  - constructor.
    + lra.
    + apply limits_below_target. lia.
Qed.

End BucketLimits.

(** C5 (as amended).  For every bucket count of at least one and every
    target above a non-negative accumulated amount, the bucket limits have
    one entry per bucket, start with 0, are non-decreasing and stay strictly
    below the target; for target 1, accumulated amount 0 and five buckets
    they are 0, 0.2, 0.4, 0.6 and 0.8. *)
Theorem bucket_limits :
  (forall (nBuckets : nat) (target accumulatedAmount : Real),
      (0 < nBuckets)%nat -> 0 <= accumulatedAmount ->
      accumulatedAmount < target ->
      bucketLimitsSpec nBuckets target accumulatedAmount)
  /\ exists limits,
       createBuckets 5 1 0 = Ok limits
       /\ Forall2 Qeq limits [0; 2 # 10; 4 # 10; 6 # 10; 8 # 10].
Proof.
  split.
  - intros n t a Hn Ha Ht. apply createBuckets_ok; assumption.
  - eexists. split; [reflexivity|].
    repeat (constructor; [reflexivity|]). constructor.
Qed.

Lemma bucket_limits_witness : bucketLimitsSpec nAccBuckets 1 0.
Proof.
  apply (proj1 bucket_limits); [unfold nAccBuckets; lia | lra | lra].
Defined.

(** C5 as stated fails: with a negative accumulated amount the forced first
    limit 0 lies above the next ones, and without any bucket there is no
    first limit to set. *)
Lemma bucket_limits_counterexample :
  ~ bucketLimitsSpec 5 1 (-10) /\ ~ bucketLimitsSpec 0 1 0.
Proof.
  split.
  - intros (limits & E & _ & _ & M & _).
    vm_compute in E. injection E as <-.
    simpl in M. destruct M as (M & _).
    apply Qle_bool_iff in M. vm_compute in M. discriminate.
  - intros (limits & E & _). vm_compute in E. discriminate.
Qed.

(** ** Engine construction *)

Section ConstructionFacts.

Variable NullSize : N.
Variable NullReal : Real.
Variable allowsErrorEstimate : bool.
Variable YieldTermStructure : Type.

Local Abbreviation Handle := (option YieldTermStructure).

Lemma newMcFxTarfEngine_Ok_iff timeSteps timeStepsPerYear brownianBridge
    antitheticVariate requiredSamples requiredTolerance maxSamples seed
    (discount : Handle) generateProxy :
  isOk (newMcFxTarfEngine NullSize timeSteps
          timeStepsPerYear brownianBridge antitheticVariate requiredSamples
          requiredTolerance maxSamples seed discount generateProxy) = true
  <-> timeStepsOk NullSize timeSteps timeStepsPerYear /\ discount <> None.
Proof.
  unfold newMcFxTarfEngine, timeStepsOk.
  destruct (N.eqb_spec timeSteps NullSize) as [E1|E1];
    destruct (N.eqb_spec timeStepsPerYear NullSize) as [E2|E2];
    destruct (N.eqb_spec timeSteps 0) as [E3|E3];
    destruct (N.eqb_spec timeStepsPerYear 0) as [E4|E4];
    destruct discount as [c|]; simpl;
    (split; [ try discriminate; intros _; repeat split;
              solve [ auto | discriminate ]
            | try reflexivity; intros ((A & B & C & D) & F);
              solve [ tauto | congruence ] ]).
Qed.

Lemma toPricingEngine_Ok_iff (m : MakeMcFxTarfEngine YieldTermStructure) :
  isOk (toPricingEngine NullSize m) = true
  <-> timeStepsOk NullSize (mk_steps_ m) (mk_stepsPerYear_ m)
      /\ mk_discount_ m <> None.
Proof.
  unfold toPricingEngine.
  rewrite <- newMcFxTarfEngine_Ok_iff
    with (brownianBridge := mk_brownianBridge_ m)
         (antitheticVariate := mk_antithetic_ m)
         (requiredSamples := mk_samples_ m)
         (requiredTolerance := mk_tolerance_ m)
         (maxSamples := mk_maxSamples_ m)
         (seed := mk_seed_ m)
         (generateProxy := mk_generateProxy_ m).
  unfold newMcFxTarfEngine.
  destruct (mk_steps_ m =? NullSize)%N;
    destruct (mk_stepsPerYear_ m =? NullSize)%N; simpl;
    split; intro H; try discriminate; exact H.
Qed.

Lemma withSamples_Ok_iff (m : MakeMcFxTarfEngine YieldTermStructure) n :
  isOk (withSamples NullReal m n) = true <-> mk_tolerance_ m == NullReal.
Proof.
  unfold withSamples. rewrite <- Qeq_bool_iff.
  destruct (Qeq_bool (mk_tolerance_ m) NullReal); simpl;
    split; intro H; try discriminate; reflexivity.
Qed.

Lemma withAbsoluteTolerance_Ok_iff
    (m : MakeMcFxTarfEngine YieldTermStructure) t :
  isOk (withAbsoluteTolerance NullSize allowsErrorEstimate m t) = true
  <-> mk_samples_ m = NullSize /\ allowsErrorEstimate = true.
Proof.
  unfold withAbsoluteTolerance.
  destruct (N.eqb_spec (mk_samples_ m) NullSize) as [E|E];
    destruct allowsErrorEstimate; simpl;
    split; try discriminate; try tauto; intros (A & B); congruence.
Qed.

End ConstructionFacts.

(** C7 (as amended).  Construction of the engine succeeds exactly when one,
    and only one, of time steps and time steps per year is supplied, neither
    of the two is zero, and the discount curve handle is not empty; the
    conversion of the factory succeeds under the same condition on its
    fields.  The sample count and the tolerance are checked by the named
    parameters only: [withSamples] fails exactly when a tolerance has been
    set, [withAbsoluteTolerance] exactly when a sample count has been set or
    the random number policy allows no error estimate, and the two step
    parameters never fail.  A factory that was given a number of time steps
    (other than zero and the null value) and neither samples nor tolerance
    therefore converts to an engine. *)
Theorem configuration_errors
    (NullSize : N) (NullReal : Real) (allowsErrorEstimate : bool)
    (YieldTermStructure : Type) :
  (forall timeSteps timeStepsPerYear brownianBridge antitheticVariate
          requiredSamples requiredTolerance maxSamples seed
          (discount : option YieldTermStructure) generateProxy,
      isOk (newMcFxTarfEngine NullSize timeSteps
              timeStepsPerYear brownianBridge antitheticVariate
              requiredSamples requiredTolerance maxSamples seed discount
              generateProxy) = true
      <-> timeStepsOk NullSize timeSteps timeStepsPerYear
          /\ discount <> None)
  /\ (forall m : MakeMcFxTarfEngine YieldTermStructure,
        isOk (toPricingEngine NullSize m) = true
        <-> timeStepsOk NullSize (mk_steps_ m) (mk_stepsPerYear_ m)
            /\ mk_discount_ m <> None)
  /\ (forall (m : MakeMcFxTarfEngine YieldTermStructure) n,
        isOk (withSamples NullReal m n) = true
        <-> mk_tolerance_ m == NullReal)
  /\ (forall (m : MakeMcFxTarfEngine YieldTermStructure) t,
        isOk (withAbsoluteTolerance NullSize allowsErrorEstimate m t) = true
        <-> mk_samples_ m = NullSize /\ allowsErrorEstimate = true)
  /\ (forall (m : MakeMcFxTarfEngine YieldTermStructure) n,
        isOk (withSteps m n) = true /\ isOk (withStepsPerYear m n) = true)
  /\ (forall (curve : YieldTermStructure) n,
        NullSize <> 0%N -> n <> NullSize -> n <> 0%N ->
        isOk (makeEngine NullSize NullReal allowsErrorEstimate
                (Some curve) [WithSteps n]) = true).
Proof.
  split; [|split; [|split; [|split; [|split]]]].
  - intros. apply newMcFxTarfEngine_Ok_iff.
  - intros. apply toPricingEngine_Ok_iff.
  - intros. apply withSamples_Ok_iff.
  - intros. apply withAbsoluteTolerance_Ok_iff.
  - intros. split; reflexivity.
  - intros curve n HN Hn H0. unfold makeEngine. simpl.
    apply toPricingEngine_Ok_iff. simpl. unfold timeStepsOk.
    repeat split; auto. discriminate.
Qed.

(** C7 as stated fails in both directions: a factory given ten time steps
    and neither samples nor tolerance converts to an engine although the
    list of configuration errors covers it, and a factory given zero time
    steps and a sample count is rejected although the list does not. *)
Lemma configuration_errors_counterexample :
  (isOk (makeEngine Double.NullSize Double.NullReal true (Some tt)
           [WithSteps 10]) = true
   /\ configurationErrorListed true [WithSteps 10] = true)
  /\ (makeEngine Double.NullSize Double.NullReal true (Some tt)
        [WithSteps 0; WithSamples 1000]
      = Fail (Thrown (TimeStepsNotPositive 0))
      /\ configurationErrorListed true [WithSteps 0; WithSamples 1000]
         = false).
Proof. split; split; vm_compute; reflexivity. Qed.

(** ** The loop that lowers the cutoff *)

Section ShrinkLoop.

Variable isCall : bool.
Variable g : Group.
Variable minDataSegment : nat.

Local Abbreviation cutoffOf := (cutoffAt (spotMin g) (spotMax g)).

(** The condition under which the loop body changes the cutoff. *)
Local Abbreviation goesOn rel cutoff :=
  (mayShrink isCall rel
   && tooSmall minDataSegment (criticalSize isCall (xTmp g) cutoff)).

(** The [do ... while] is a [while]: after a change the second test only
    looks at the new relative cutoff, after no change it fails. *)
Lemma shrinkCutoff_step (fuel : nat) (rel cutoff : Real) :
  shrinkCutoff (S fuel) isCall g minDataSegment rel cutoff
  = if goesOn rel cutoff then
      if mayShrink isCall (shrink isCall rel) then
        shrinkCutoff fuel isCall g minDataSegment (shrink isCall rel)
          (cutoffOf (shrink isCall rel))
      else Ok (shrink isCall rel, cutoffOf (shrink isCall rel))
    else Ok (rel, cutoff).
Proof.
  simpl.
  destruct (mayShrink isCall rel) eqn:M; simpl.
  - destruct (tooSmall minDataSegment (criticalSize isCall (xTmp g) cutoff))
      eqn:T; simpl.
    + rewrite andb_true_r. reflexivity.
    + rewrite M. reflexivity.
  - rewrite M. reflexivity.
Qed.

Lemma shrinkBy_shift (k : nat) (rel : Real) :
  shrinkBy isCall k (shrink isCall rel) = shrinkBy isCall (S k) rel.
Proof.
  induction k as [|k IH]; [reflexivity|].
  simpl. rewrite IH. reflexivity.
Qed.

(** If the relative cutoff can no longer move after [n] steps, a run with
    more than [n] units of fuel ends after some [k <= n] steps, at the
    first [k] for which the loop condition fails. *)
Lemma shrinkCutoff_runs (n : nat) :
  forall (fuel : nat) (rel cutoff : Real),
    (n < fuel)%nat ->
    cutoff = cutoffOf rel ->
    mayShrink isCall (shrinkBy isCall n rel) = false ->
    exists k,
      (k <= n)%nat
      /\ shrinkCutoff fuel isCall g minDataSegment rel cutoff
         = Ok (shrinkBy isCall k rel, cutoffOf (shrinkBy isCall k rel))
      /\ (forall j, (j < k)%nat ->
            goesOn (shrinkBy isCall j rel) (cutoffOf (shrinkBy isCall j rel))
            = true)
      /\ goesOn (shrinkBy isCall k rel) (cutoffOf (shrinkBy isCall k rel))
         = false.
Proof.
  induction n as [|n IH]; intros fuel rel cutoff Hfuel -> Hstop;
    (destruct fuel as [|fuel]; [lia|]); rewrite shrinkCutoff_step.
  - simpl in Hstop. rewrite Hstop. simpl.
    exists O. repeat split; [lia | | ].
    + intros j Hj. lia.
    + simpl. rewrite Hstop. reflexivity.
  - destruct (goesOn rel (cutoffOf rel)) eqn:G.
    + destruct (mayShrink isCall (shrink isCall rel)) eqn:M.
      * destruct (IH fuel (shrink isCall rel) (cutoffOf (shrink isCall rel)))
          as (k & Hk & Hrun & Hbefore & Hat);
          [lia | reflexivity | rewrite shrinkBy_shift; exact Hstop |].
        exists (S k). rewrite <- !shrinkBy_shift.
        repeat split; [lia | exact Hrun | | exact Hat].
        intros j Hj. destruct j as [|j]; [exact G|].
        rewrite <- shrinkBy_shift. apply Hbefore. lia.
      * exists 1%nat. simpl. repeat split; [lia | | ].
        -- intros j Hj. assert (j = O) by lia. subst j. exact G.
        -- rewrite M. reflexivity.
    + exists O. simpl. repeat split; [lia | | exact G].
      intros j Hj. lia.
Qed.

End ShrinkLoop.

(** The constants of the loop as the compiler reads them, and the initial
    relative cutoff of a put: [1.0 - 0.8] is exact, the nearest [double]
    to 0.8 lying above it. *)
Lemma loop_constants :
  relCutoff = 7205759403792794 # 2 ^ 53
  /\ minCutoffRatio = 5944751508129055 # 2 ^ 54
  /\ cutoffShrinkFactor = 8917127262193582 # 2 ^ 53
  /\ initialRelCutoff false = 7205759403792792 # 2 ^ 55
  /\ 80 # 100 < relCutoff
  /\ initialRelCutoff false == 1 - relCutoff
  /\ initialRelCutoff false < 20 # 100.
Proof. repeat split. Qed.

(** The minimum data segment follows the rounding of the products: it is
    33 for 500 observations of a call, where the exact product is 33 and
    the rounded one lies below, and 34 for 501. *)
Lemma minDataSegment_rounded :
  minDataSegmentOfSize true 500 = 33%nat
  /\ minDataSegmentOfSize true 501 = 34%nat
  /\ minDataSegmentOfSize true 10 = 1%nat
  /\ minDataSegmentOfSize false 10 = 3%nat.
Proof. repeat split; vm_compute; reflexivity. Qed.

(** With 33 of 500 observations above the initial cutoff the loop of a call
    stops at once; for the put group [onFifth] the observation at the spot
    2 lies above the initial cutoff, and the loop takes one step.  The
    cutoff is rounded as well: between the spots 0 and 10 the initial
    cutoff of a call is 8, below the exact product. *)
Lemma finalCutoff_rounded :
  finalCutoff true atThreshold
  = Ok (relCutoff, cutoffAt 0 1000 relCutoff)
  /\ finalCutoff false onFifth
     = Ok (relCutoffAfter false 1, cutoffAt 0 10 (relCutoffAfter false 1))
  /\ cutoffAt 0 10 relCutoff == 8
  /\ 8 < 0 + relCutoff * (10 - 0).
Proof. repeat split; vm_compute; reflexivity. Qed.

(** The bound on the number of steps: 47 for a call
    (0.8 * 0.99^47 <= 0.5), 92 for a put (0.2 / 0.99^92 >= 0.5). *)
Lemma relCutoff_stops (isCall : bool) :
  mayShrink isCall (relCutoffAfter isCall (if isCall then 47 else 92))
  = false.
Proof. destruct isCall; vm_compute; reflexivity. Qed.

Lemma finalCutoff_runs (isCall : bool) (g : Group) :
  exists k,
    (k <= if isCall then 47 else 92)%nat
    /\ finalCutoff isCall g
       = Ok (relCutoffAfter isCall k,
             cutoffAt (spotMin g) (spotMax g) (relCutoffAfter isCall k))
    /\ (forall j, (j < k)%nat -> continuing isCall g j = true)
    /\ continuing isCall g k = false.
Proof.
  destruct (shrinkCutoff_runs isCall g (minDataSegmentOf isCall g)
              (if isCall then 47 else 92)%nat shrinkFuel
              (initialRelCutoff isCall)
              (cutoffAt (spotMin g) (spotMax g) (initialRelCutoff isCall)))
    as (k & Hk & Hrun & Hbefore & Hat).
  - unfold shrinkFuel. destruct isCall; lia.
  - reflexivity.
  - apply relCutoff_stops.
  - exists k. split; [exact Hk|]. split; [exact Hrun|].
    split; [exact Hbefore | exact Hat].
Qed.

(** The loop never exhausts the fuel of the model. *)
Lemma finalCutoff_total (isCall : bool) (g : Group) :
  exists rc, finalCutoff isCall g = Ok rc.
Proof.
  destruct (finalCutoff_runs isCall g) as (k & _ & H & _). eauto.
Qed.

(** C4 (as amended).  The loop that lowers the cutoff always ends, after
    some [k] steps (at most 47 for a call and 92 for a put).  Each step
    multiplies the relative cutoff by the shrink factor 0.99 for a call and
    divides it by that factor for a put, in double precision and starting
    from 0.8 for a call and 1.0 - 0.8 for a put, and the cutoff is
    spotMin + relCutoff * (spotMax - spotMin) throughout, rounded as the
    code computes it.  A step is taken
    while the relative cutoff has not crossed 0.5 and the critical segment
    is smaller than the minimum data segment or smaller than the three
    points a regression needs, where the minimum data segment is the number
    computed once before the loop from the initial relative cutoff,
    [static_cast<Size>((1.0 - relCutoffTmp) * minCutoffRatio * size) + 1]
    in double precision; the loop stops at the first [k] for which this
    condition fails. *)
Theorem shrinkCutoff_is_while (isCall : bool) (g : Group) :
  exists k,
    (k <= if isCall then 47 else 92)%nat
    /\ finalCutoff isCall g
       = Ok (relCutoffAfter isCall k,
             cutoffAt (spotMin g) (spotMax g) (relCutoffAfter isCall k))
    /\ (forall j, (j < k)%nat -> continuing isCall g j = true)
    /\ continuing isCall g k = false
    /\ relCutoffAfter isCall 0
       = (if isCall then relCutoff else Binary64.sub 1 relCutoff)
    /\ (forall j, relCutoffAfter isCall (S j)
                  = if isCall
                    then Binary64.mul (relCutoffAfter isCall j)
                           cutoffShrinkFactor
                    else Binary64.div (relCutoffAfter isCall j)
                           cutoffShrinkFactor)
    /\ minDataSegmentOfSize isCall (length (xTmp g))
       = (to_Size
            (Binary64.mul
               (Binary64.mul (Binary64.sub 1 (relCutoffAfter isCall 0))
                  minCutoffRatio)
               (Binary64.round (of_Size (length (xTmp g))))) + 1)%nat
    /\ (forall j, continuing isCall g j
                  = mayShrink isCall (relCutoffAfter isCall j)
                    && ((criticalSize isCall (xTmp g)
                           (cutoffAt (spotMin g) (spotMax g)
                              (relCutoffAfter isCall j))
                         <? minDataSegmentOfSize isCall (length (xTmp g)))%nat
                        || (criticalSize isCall (xTmp g)
                              (cutoffAt (spotMin g) (spotMax g)
                                 (relCutoffAfter isCall j))
                            <? 3)%nat)).
Proof.
  destruct (finalCutoff_runs isCall g) as (k & Hk & Hrun & Hbefore & Hat).
  exists k. repeat (split; [assumption|]). split; [reflexivity|]. split.
  - intro j. destruct isCall; reflexivity.
  - split; [reflexivity|]. intro j. reflexivity.
Qed.

(** C4 as stated fails: for ten observations at the spots 1 to 10 of a
    call, the critical segment above the initial cutoff 8.2 holds two
    points, which is not below the minimum data segment but below the three
    points a regression needs.  The loop of the header lowers the cutoff
    three times; the loop as worded in the design document, which goes on
    only while the segment is below both bounds, leaves it at 8.2. *)
Lemma shrinkCutoff_counterexample :
  finalCutoff true tenPoints
  = Ok (relCutoffAfter true 3,
        cutoffAt 1 10 (relCutoffAfter true 3))
  /\ finalCutoffSpec true tenPoints = Ok (relCutoff, cutoffAt 1 10 relCutoff)
  /\ finalCutoff true tenPoints <> finalCutoffSpec true tenPoints.
Proof.
  split; [vm_compute; reflexivity|].
  split; [vm_compute; reflexivity|].
  vm_compute. discriminate.
Qed.

(** ** Building the proxy function of a merged group *)

Lemma at_Ok {A} (v : list A) (i : nat) :
  (i < length v)%nat -> exists x, at_ v i = Ok x.
Proof.
  intro H. unfold at_.
  destruct (nth_error v i) eqn:E; [eauto|].
  apply nth_error_None in E. lia.
Qed.

Lemma at_inv {A} (v : list A) (i : nat) (x : A) :
  at_ v i = Ok x -> nth_error v i = Some x /\ (i < length v)%nat.
Proof.
  unfold at_. destruct (nth_error v i) eqn:E; [|discriminate].
  intro H. injection H as ->. split; [reflexivity|].
  apply nth_error_Some. congruence.
Qed.

(** A fraction of the size, truncated, is an index into the vector. *)
Lemma fraction_index (n : nat) (fraction : Real) :
  (0 < n)%nat -> fraction < 1 ->
  (to_Size (of_Size n * fraction) < n)%nat.
Proof.
  intros Hn Hf. unfold to_Size.
  assert (P := of_Size_pos n Hn).
  assert (L : of_Size n * fraction < of_Size n).
  { assert (0 < of_Size n * (1 - fraction))
      by (apply Qmult_lt_0_compat; lra).
    lra. }
  assert (F := Qfloor_le (of_Size n * fraction)).
  assert (Z : (Qfloor (of_Size n * fraction) < Z.of_nat n)%Z).
  { rewrite Zlt_Qlt.
    apply Qle_lt_trans with (of_Size n * fraction); [exact F | exact L]. }
  lia.
Qed.

Lemma spotAtFraction_Ok (x : list Observation) (fraction : Real) :
  x <> [] -> fraction < 1 -> exists v, spotAtFraction x fraction = Ok v.
Proof.
  intros Hx Hf. unfold spotAtFraction.
  destruct (at_Ok x (to_Size (of_Size (length x) * fraction))) as [o E].
  - apply fraction_index; [|exact Hf].
    destruct x; [congruence | simpl; lia].
  - rewrite E. simpl. eauto.
Qed.

Section Building.

Variable close : Real -> Real -> bool.
Variables QL_EPSILON QL_MAX_REAL : Real.
Variable GeneralLinearLeastSquares :
  list Real -> list Real -> Real * Real * Real.

Local Abbreviation build :=
  (buildProxyFunction close QL_EPSILON QL_MAX_REAL
     GeneralLinearLeastSquares).

(** The degenerate branch hands two constant segments to the constructor,
    which refuses them. *)
Lemma degenerate_rejected (type : OptionType) (g : Group) :
  close 0 0 = true ->
  degenerate QL_EPSILON g = true ->
  isOk (build type g) = false.
Proof.
  intros Hclose Hdeg. unfold buildProxyFunction.
  destruct (finalCutoff (isCallType type) g) as [rc|]; [|reflexivity].
  simpl.
  destruct (spotAtFraction (xTmp g) _) as [lc|]; [|reflexivity]. simpl.
  destruct (spotAtFraction (xTmp g) coreCutoff) as [cmin|]; [|reflexivity].
  simpl.
  destruct (spotAtFraction (xTmp g) (1 - coreCutoff)) as [cmax|];
    [|reflexivity].
  simpl. rewrite Hdeg.
  match goal with
  | |- isOk ?r = false => destruct (isOk r) eqn:E; [|reflexivity]
  end.
  apply constructor_Ok_iff in E. destruct E as (_ & H & _).
  specialize (H Hclose). lra.
Qed.

(** Outside the degenerate case a segment of fewer than three points
    stops the construction, with the number of the set and its size in
    the message. *)
Lemma starved_segment_reported (type : OptionType) (g : Group) :
  xTmp g <> [] ->
  degenerate QL_EPSILON g = false ->
  exists rc,
    finalCutoff (isCallType type) g = Ok rc
    /\ let s1 := segment1 (xTmp g) (snd rc) in
       let s2 := segment2 (xTmp g) (snd rc) in
       ((length s1 < 3)%nat ->
        build type g = Fail (Thrown (TooFewPoints 1 (length s1))))
       /\ ((3 <= length s1)%nat -> (length s2 < 3)%nat ->
           build type g = Fail (Thrown (TooFewPoints 2 (length s2)))).
Proof.
  intros Hx Hdeg.
  destruct (finalCutoff_total (isCallType type) g) as (rc & Hrc).
  exists rc. split; [exact Hrc|].
  unfold buildProxyFunction. rewrite Hrc. cbn [bind].
  destruct (spotAtFraction_Ok (xTmp g)
              (if isCallType type then minLowerExtr else 1 - minLowerExtr)
              Hx) as [lc ->].
  { destruct (isCallType type); reflexivity. }
  destruct (spotAtFraction_Ok (xTmp g) coreCutoff Hx) as [cmin ->];
    [reflexivity|].
  destruct (spotAtFraction_Ok (xTmp g) (1 - coreCutoff) Hx) as [cmax ->];
    [reflexivity|].
  cbn [bind]. rewrite Hdeg. cbv zeta.
  split.
  - intro H1.
    assert (E : (3 <=? length (segment1 (xTmp g) (snd rc)))%nat = false)
      by (apply Nat.leb_gt; exact H1).
    rewrite E. reflexivity.
  - intros H1 H2.
    assert (E1 : (3 <=? length (segment1 (xTmp g) (snd rc)))%nat = true)
      by (apply Nat.leb_le; exact H1).
    assert (E2 : (3 <=? length (segment2 (xTmp g) (snd rc)))%nat = false)
      by (apply Nat.leb_gt; exact H2).
    rewrite E1, E2. reflexivity.
Qed.

(** A group without any observation never reaches that check: the lower
    cutoff is read from [xTmp[0]] first. *)
Lemma empty_group_out_of_range (type : OptionType) (g : Group) :
  xTmp g = [] -> build type g = Fail (OutOfRange 0 0).
Proof.
  intro Hx. unfold buildProxyFunction.
  destruct (finalCutoff_total (isCallType type) g) as (rc & ->).
  cbn [bind]. rewrite Hx. unfold spotAtFraction. simpl length.
  assert (E : forall fraction, to_Size (of_Size 0 * fraction) = O).
  { intro fraction. change (of_Size 0) with 0. unfold to_Size.
    assert (Z : Qfloor (0 * fraction) = 0%Z).
    { transitivity (Qfloor (inject_Z 0)); [|apply Qfloor_Z].
      apply Qfloor_comp. change (inject_Z 0) with 0. ring. }
    rewrite Z. reflexivity. }
  rewrite E. reflexivity.
Qed.

(** Conversely a group whose proxy function was built is not degenerate
    and has three points or more in both segments. *)
Lemma built_group_regular (type : OptionType) (g : Group)
    (fct : QuadraticProxyFunction) :
  close 0 0 = true ->
  build type g = Ok fct ->
  degenerate QL_EPSILON g = false
  /\ exists rc,
       finalCutoff (isCallType type) g = Ok rc
       /\ (3 <= length (segment1 (xTmp g) (snd rc)))%nat
       /\ (3 <= length (segment2 (xTmp g) (snd rc)))%nat.
Proof.
  intros Hclose Hb.
  assert (Hdeg : degenerate QL_EPSILON g = false).
  { destruct (degenerate QL_EPSILON g) eqn:D; [|reflexivity].
    assert (F := degenerate_rejected type g Hclose D).
    rewrite Hb in F. discriminate. }
  split; [exact Hdeg|].
  unfold buildProxyFunction in Hb.
  apply bind_Ok in Hb. destruct Hb as (rc & Hrc & Hb).
  exists rc. split; [exact Hrc|].
  apply bind_Ok in Hb. destruct Hb as (lc & _ & Hb).
  apply bind_Ok in Hb. destruct Hb as (cmin & _ & Hb).
  apply bind_Ok in Hb. destruct Hb as (cmax & _ & Hb).
  rewrite Hdeg in Hb.
  apply bind_Ok in Hb. destruct Hb as (u1 & R1 & Hb).
  apply bind_Ok in Hb. destruct Hb as (u2 & R2 & _).
  apply QL_REQUIRE_Ok in R1. apply QL_REQUIRE_Ok in R2.
  apply Nat.leb_le in R1. apply Nat.leb_le in R2. split; assumption.
Qed.

End Building.

(** C1.  In the degenerate case no proxy function is built at all: the
    constant function the engine asks for, with both quadratic and both
    linear coefficients zero, is refused by the constructor of
    [QuadraticProxyFunction], for calls and puts alike. *)
Theorem degenerate_group_builds_nothing
    (close : Real -> Real -> bool) (QL_EPSILON QL_MAX_REAL : Real)
    (GeneralLinearLeastSquares : list Real -> list Real -> Real * Real * Real)
    (type : OptionType) (g : Group) :
  close 0 0 = true ->
  Qabs (spotMax g - spotMin g) < QL_EPSILON ->
  isOk (buildProxyFunction close QL_EPSILON QL_MAX_REAL
          GeneralLinearLeastSquares type g) = false.
Proof.
  intros Hclose Hdeg. apply degenerate_rejected; [exact Hclose|].
  unfold degenerate. apply Qltb_true. exact Hdeg.
Qed.

Lemma degenerate_group_builds_nothing_witness :
  isOk (Double.buildProxyFunction Call flatGroup) = false
  /\ isOk (Double.buildProxyFunction Put flatGroup) = false.
Proof.
  split;
    apply (degenerate_group_builds_nothing Double.close Double.QL_EPSILON
             Double.QL_MAX_REAL Double.GeneralLinearLeastSquares);
    solve [reflexivity].
Defined.

(** The run behind the witness, from the buckets of one fixing index on:
    three observations at spot 1 with npv 2, 4 and 6.  The call stops at
    the check of the first linear coefficient. *)
Example degenerate_fixing_fails :
  Double.regressFixing Call 5 flatBuckets
  = Fail (Thrown (LinearCoefficientNotPositive 1 0))
  /\ isOk (Double.regressFixing Put 5 flatBuckets) = false.
Proof. split; vm_compute; reflexivity. Qed.

(** ** Merging of buckets *)

Lemma merge_length (l1 l2 : list Observation) :
  length (merge l1 l2) = (length l1 + length l2)%nat.
Proof.
  revert l2. induction l1 as [|x1 t1 IH1]; intro l2.
  - destruct l2; reflexivity.
  - induction l2 as [|x2 t2 IH2].
    + simpl. lia.
    + simpl. destruct (pair_ltb x2 x1).
      * simpl in *. rewrite IH2. lia.
      * simpl. rewrite IH1. simpl. lia.
Qed.

Lemma absorb_length (g : Group) (bucket : list Observation) :
  length (xTmp (absorb g bucket))
  = (length (xTmp g) + length bucket)%nat.
Proof.
  unfold absorb. destruct bucket; simpl xTmp; apply merge_length.
Qed.

Lemma dataPoints_from (buckets : list (list Observation)) (start : nat) :
  fold_left (fun acc b => (acc + length b)%nat) buckets start
  = (start + dataPoints buckets)%nat.
Proof.
  unfold dataPoints. revert start.
  induction buckets as [|b rest IH]; intro start; simpl.
  - lia.
  - rewrite IH. rewrite (IH (length b)). lia.
Qed.

Lemma dataPoints_cons (b : list Observation) (rest : list (list Observation)) :
  dataPoints (b :: rest) = (length b + dataPoints rest)%nat.
Proof. unfold dataPoints at 1. simpl. apply dataPoints_from. Qed.

Lemma skipn_at {A} (v : list A) (k : nat) (x : A) :
  at_ v k = Ok x -> skipn k v = x :: skipn (S k) v.
Proof.
  intro H. apply at_inv in H. destruct H as (H & _).
  revert k H. induction v as [|y t IH]; intros k H.
  - destruct k; discriminate.
  - destruct k as [|k].
    + simpl in H. injection H as ->. reflexivity.
    + simpl in H. apply IH in H. exact H.
Qed.

Lemma absorb_all_length (buckets : list (list Observation)) (g : Group) :
  length (xTmp (fold_left absorb buckets g))
  = (length (xTmp g) + dataPoints buckets)%nat.
Proof.
  revert g. induction buckets as [|b rest IH]; intro g; simpl.
  - unfold dataPoints. simpl. lia.
  - rewrite IH, absorb_length, dataPoints_cons. lia.
Qed.

Section Merging.

Variable tmp : list (list Observation).
Variable numberOfDataPoints : nat.

(** The observations not yet merged when the loop stands at bucket [k]. *)
Local Abbreviation remaining k := (dataPoints (skipn k tmp)).

Lemma collect_S (fuel : nat) (g : Group) (k0 : nat) :
  collect (S fuel) tmp numberOfDataPoints g k0
  = (bucket <- at_ tmp k0 ;;
     if (dFactor * length (xTmp (absorb g bucket))
         <? numberOfDataPoints)%nat
     then collect fuel tmp numberOfDataPoints (absorb g bucket) (S k0)
     else Ok (absorb g bucket, S k0)).
Proof. reflexivity. Qed.

(** What a finished inner loop has done: it moved forward, stayed inside
    the vector, and kept every observation. *)
Lemma collect_inv (fuel : nat) :
  forall (g : Group) (k0 : nat) (g1 : Group) (k1 : nat),
    collect fuel tmp numberOfDataPoints g k0 = Ok (g1, k1) ->
    (k0 < k1 <= length tmp)%nat
    /\ (length (xTmp g1) + remaining k1
        = length (xTmp g) + remaining k0)%nat.
Proof.
  induction fuel as [|fuel IH]; intros g k0 g1 k1 H; [discriminate|].
  rewrite collect_S in H.
  apply bind_Ok in H. destruct H as (bucket & Hat & H).
  assert (Hk := proj2 (at_inv _ _ _ Hat)).
  rewrite (skipn_at _ _ _ Hat), dataPoints_cons.
  destruct (dFactor * length (xTmp (absorb g bucket))
            <? numberOfDataPoints)%nat.
  - apply IH in H. destruct H as (Hr & Hs).
    rewrite absorb_length in Hs. split; lia.
  - injection H as <- <-. rewrite absorb_length. split; lia.
Qed.

(** The inner loop ends inside the vector when the buckets from [k0] on
    hold a tenth of all observations. *)
Lemma collect_total (fuel : nat) :
  forall (g : Group) (k0 : nat),
    (k0 < length tmp)%nat ->
    (length tmp - k0 <= fuel)%nat ->
    (numberOfDataPoints
     <= dFactor * (length (xTmp g) + remaining k0))%nat ->
    exists r, collect fuel tmp numberOfDataPoints g k0 = Ok r.
Proof.
  induction fuel as [|fuel IH]; intros g k0 Hk Hfuel Hdense; [lia|].
  rewrite collect_S. destruct (at_Ok tmp k0 Hk) as (bucket & Hat).
  rewrite Hat. cbn [bind].
  rewrite (skipn_at _ _ _ Hat), dataPoints_cons in Hdense.
  destruct (dFactor * length (xTmp (absorb g bucket))
            <? numberOfDataPoints)%nat eqn:E; [|eauto].
  apply Nat.ltb_lt in E. rewrite absorb_length in E.
  assert (Hnext : (S k0 < length tmp)%nat).
  { destruct (Nat.eq_dec (S k0) (length tmp)) as [L|L]; [|lia].
    exfalso. rewrite L, skipn_all in Hdense.
    change (dataPoints []) with 0%nat in Hdense. lia. }
  apply IH; [exact Hnext | lia |].
  rewrite absorb_length. lia.
Qed.

Lemma joinRest_inv (g : Group) (k : nat) :
  (k <= length tmp)%nat ->
  let j := joinRest tmp numberOfDataPoints g k in
  (k <= snd j <= length tmp)%nat
  /\ (length (xTmp (fst j)) + remaining (snd j)
      = length (xTmp g) + remaining k)%nat
  /\ ((snd j < length tmp)%nat ->
      (numberOfDataPoints <= dFactor * remaining (snd j))%nat).
Proof.
  intro Hk. unfold joinRest.
  destruct (dFactor * remaining k <? numberOfDataPoints)%nat eqn:E; simpl.
  - rewrite absorb_all_length, skipn_all.
    change (dataPoints []) with 0%nat. repeat split; lia.
  - apply Nat.ltb_ge in E. repeat split; try lia. intros _. exact E.
Qed.

End Merging.

(** ** Storing the function of a group *)

Lemma replaceAt_length {A} (v : list A) (i : nat) (x : A) :
  length (replaceAt v i x) = length v.
Proof.
  revert i. induction v as [|y t IH]; intro i; [reflexivity|].
  destruct i; simpl; [reflexivity|]. rewrite IH. reflexivity.
Qed.

Lemma replaceAt_same {A} (v : list A) (i : nat) (x : A) :
  (i < length v)%nat -> nth_error (replaceAt v i x) i = Some x.
Proof.
  revert i. induction v as [|y t IH]; intros i H; simpl in H; [lia|].
  destruct i; simpl; [reflexivity|]. apply IH. lia.
Qed.

Lemma replaceAt_other {A} (v : list A) (i j : nat) (x : A) :
  i <> j -> nth_error (replaceAt v i x) j = nth_error v j.
Proof.
  revert i j. induction v as [|y t IH]; intros i j H; [reflexivity|].
  destruct i, j; simpl; try reflexivity; try congruence.
  apply IH. congruence.
Qed.

Lemma storeFunction_spec (count : nat) :
  forall (row : list (option QuadraticProxyFunction)) (kk : nat)
         (fct : QuadraticProxyFunction),
    (kk + count <= length row)%nat ->
    exists row',
      storeFunction row kk count fct = Ok row'
      /\ length row' = length row
      /\ (forall i, (kk <= i < kk + count)%nat ->
            nth_error row' i = Some (Some fct))
      /\ (forall i, (i < kk \/ kk + count <= i)%nat ->
            nth_error row' i = nth_error row i).
Proof.
  induction count as [|count IH]; intros row kk fct H.
  - exists row. simpl. split; [reflexivity|]. split; [reflexivity|].
    split; [intros i Hi; lia | reflexivity].
  - simpl. unfold assign.
    assert (E : (kk <? length row)%nat = true) by (apply Nat.ltb_lt; lia).
    rewrite E. simpl.
    destruct (IH (replaceAt row kk (Some fct)) (S kk) fct)
      as (row' & Hs & Hl & Hin & Hout).
    { rewrite replaceAt_length. lia. }
    exists row'. split; [exact Hs|].
    rewrite replaceAt_length in Hl. split; [exact Hl|]. split.
    + intros i Hi. destruct (Nat.eq_dec i kk) as [->|Hne].
      * rewrite Hout by lia. apply replaceAt_same. lia.
      * apply Hin. lia.
    + intros i Hi. rewrite Hout by lia. apply replaceAt_other. lia.
Qed.

(** ** Contiguous groups *)

Lemma contiguous_bounds (groups : list MergedGroup) :
  forall first stop,
    contiguous first groups stop ->
    (first <= stop)%nat
    /\ forall mg, In mg groups ->
         (first <= firstBucket mg < endBucket mg)%nat
         /\ (endBucket mg <= stop)%nat.
Proof.
  induction groups as [|g rest IH]; intros first stop H; simpl in H.
  - subst. split; [lia|]. intros mg [].
  - destruct H as (Hf & Hlt & Hrest).
    destruct (IH _ _ Hrest) as (Hle & Hall).
    split; [lia|].
    intros mg [<-|Hin]; [lia|].
    destruct (Hall mg Hin). lia.
Qed.

Lemma contiguous_partition (groups : list MergedGroup) :
  forall first stop,
    contiguous first groups stop ->
    forall kk, (first <= kk < stop)%nat ->
      exists mg,
        In mg groups /\ covers mg kk
        /\ forall mg', In mg' groups -> covers mg' kk -> mg' = mg.
Proof.
  induction groups as [|g rest IH]; intros first stop H kk Hkk; simpl in H.
  - lia.
  - destruct H as (Hf & Hlt & Hrest).
    destruct (contiguous_bounds _ _ _ Hrest) as (_ & Hall).
    destruct (Nat.lt_ge_cases kk (endBucket g)) as [Hin|Hout].
    + exists g. split; [left; reflexivity|]. split; [unfold covers; lia|].
      intros mg' [<-|Hmg'] Hc; [reflexivity|].
      destruct (Hall mg' Hmg'). unfold covers in Hc. lia.
    + destruct (IH _ _ Hrest kk) as (mg & Hmg & Hc & Hu); [lia|].
      exists mg. split; [right; exact Hmg|]. split; [exact Hc|].
      intros mg' [<-|Hmg'] Hc'; [unfold covers in Hc'; lia|].
      apply Hu; assumption.
Qed.

(** ** The regression loops *)

Section Regression.

Variable close : Real -> Real -> bool.
Variables QL_EPSILON QL_MAX_REAL QL_MIN_REAL : Real.
Variable GeneralLinearLeastSquares :
  list Real -> list Real -> Real * Real * Real.
Variable type : OptionType.
Variable tmp : list (list Observation).
Variable numberOfDataPoints : nat.

Local Abbreviation build :=
  (buildProxyFunction close QL_EPSILON QL_MAX_REAL
     GeneralLinearLeastSquares type).
Local Abbreviation loop fuel :=
  (regressBuckets close QL_EPSILON QL_MAX_REAL QL_MIN_REAL
     GeneralLinearLeastSquares fuel type tmp numberOfDataPoints).
Local Abbreviation start := (emptyGroup QL_MAX_REAL QL_MIN_REAL).

Lemma regressBuckets_S (fuel k0 : nat)
    (row : list (option QuadraticProxyFunction)) :
  loop (S fuel) k0 row
  = (c <- collect (S (length tmp)) tmp numberOfDataPoints start k0 ;;
     fct <- build (fst (joinRest tmp numberOfDataPoints (fst c) (snd c))) ;;
     row' <- storeFunction row k0
               (snd (joinRest tmp numberOfDataPoints (fst c) (snd c)) - k0)
               fct ;;
     if (snd (joinRest tmp numberOfDataPoints (fst c) (snd c))
         <? length tmp)%nat
     then
       r <- loop fuel
              (snd (joinRest tmp numberOfDataPoints (fst c) (snd c))) row' ;;
       Ok (fst r,
           {| firstBucket := k0;
              endBucket :=
                snd (joinRest tmp numberOfDataPoints (fst c) (snd c));
              merged :=
                fst (joinRest tmp numberOfDataPoints (fst c) (snd c));
              function := fct |} :: snd r)
     else
       Ok (row',
           [ {| firstBucket := k0;
                endBucket :=
                  snd (joinRest tmp numberOfDataPoints (fst c) (snd c));
                merged :=
                  fst (joinRest tmp numberOfDataPoints (fst c) (snd c));
                function := fct |} ])).
Proof. reflexivity. Qed.

(** Every group of a finished loop has the function that was built for
    it. *)
Lemma regressBuckets_built (fuel : nat) :
  forall k0 row row' groups,
    loop fuel k0 row = Ok (row', groups) ->
    forall mg, In mg groups -> build (merged mg) = Ok (function mg).
Proof.
  induction fuel as [|fuel IH]; intros k0 row row' groups H; [discriminate|].
  rewrite regressBuckets_S in H.
  apply bind_Ok in H. destruct H as (c & _ & H).
  apply bind_Ok in H. destruct H as (fct & Hb & H).
  apply bind_Ok in H. destruct H as (row1 & _ & H).
  destruct (_ <? length tmp)%nat.
  - apply bind_Ok in H. destruct H as ((row2 & groups2) & Hrec & H).
    injection H as <- <-.
    intros mg [<-|Hin]; [exact Hb|].
    apply (IH _ _ _ _ Hrec mg Hin).
  - injection H as <- <-.
    intros mg [<-|[]]. exact Hb.
Qed.

(** The loop over the buckets, started inside the vector with enough
    observations ahead: it ends, with a failure of the construction of
    some group or with groups that cover the buckets from [k0] on. *)
Lemma regressBuckets_spec (fuel : nat) :
  forall k0 row,
    (k0 < length tmp)%nat ->
    length row = length tmp ->
    (length tmp - k0 <= fuel)%nat ->
    (numberOfDataPoints <= dFactor * dataPoints (skipn k0 tmp))%nat ->
    match loop fuel k0 row with
    | Ok (row', groups) =>
        contiguous k0 groups (length tmp)
        /\ totalMergedSize groups = dataPoints (skipn k0 tmp)
        /\ length row' = length tmp
        /\ (forall i, (i < k0)%nat -> nth_error row' i = nth_error row i)
        /\ rowHolds row' groups
    | Fail f => exists g, build g = Fail f
    end.
Proof.
  induction fuel as [|fuel IH]; intros k0 row Hk Hrow Hfuel Hdense; [lia|].
  rewrite regressBuckets_S.
  destruct (collect_total tmp numberOfDataPoints (S (length tmp)) start k0 Hk)
    as ((g1 & k1) & Hc);
    [lia | change (length (xTmp start)) with 0%nat; lia |].
  rewrite Hc. cbn [bind fst snd].
  destruct (collect_inv _ _ _ _ _ _ _ Hc) as (Hr1 & Hs1).
  change (length (xTmp start)) with 0%nat in Hs1.
  destruct (joinRest_inv tmp numberOfDataPoints g1 k1) as (Hr & Hs & Hd);
    [lia|].
  destruct (joinRest tmp numberOfDataPoints g1 k1) as (g & k).
  cbn [fst snd] in *.
  destruct (build g) as [fct|f] eqn:Hb; cbn [bind];
    [|exists g; exact Hb].
  destruct (storeFunction_spec (k - k0) row k0 fct)
    as (row1 & Hst & Hl1 & Hin1 & Hout1); [lia|].
  rewrite Hst. cbn [bind].
  destruct (k <? length tmp)%nat eqn:E.
  - apply Nat.ltb_lt in E.
    assert (Hl : length row1 = length tmp) by congruence.
    assert (Hf : (length tmp - k <= fuel)%nat) by lia.
    specialize (IH k row1 E Hl Hf (Hd E)).
    destruct (loop fuel k row1) as [(row' & groups)|f]; cbn [bind fst snd];
      [|exact IH].
    destruct IH as (C & T & L & F & R).
    split; [simpl; repeat split; [lia | exact C]|].
    split; [unfold totalMergedSize in *; simpl; lia|].
    split; [exact L|].
    split.
    + intros i Hi. rewrite F by lia. apply Hout1. lia.
    + intros mg kk [<-|Hin] Hc'.
      * unfold covers in Hc'. simpl in Hc'.
        rewrite F by lia. apply Hin1. lia.
      * apply R; assumption.
  - apply Nat.ltb_ge in E. assert (k = length tmp) by lia. subst k.
    rewrite skipn_all in Hs. change (dataPoints []) with 0%nat in Hs.
    split; [simpl; repeat split; lia|].
    split; [unfold totalMergedSize; simpl; lia|].
    split; [congruence|].
    split.
    + intros i Hi. apply Hout1. lia.
    + intros mg kk [<-|[]] Hc'.
      unfold covers in Hc'. simpl in Hc'. apply Hin1. lia.
Qed.

End Regression.

Section Fixings.

Variable close : Real -> Real -> bool.
Variables QL_EPSILON QL_MAX_REAL QL_MIN_REAL : Real.
Variable GeneralLinearLeastSquares :
  list Real -> list Real -> Real * Real * Real.
Variable type : OptionType.
Variable nLimits : nat.

Local Abbreviation build :=
  (buildProxyFunction close QL_EPSILON QL_MAX_REAL
     GeneralLinearLeastSquares type).
Local Abbreviation fixing :=
  (regressFixing close QL_EPSILON QL_MAX_REAL QL_MIN_REAL
     GeneralLinearLeastSquares type nLimits).


Lemma regressFixing_built (tmp : list (list Observation)) row groups :
  fixing tmp = Ok (row, groups) ->
  forall mg, In mg groups -> build (merged mg) = Ok (function mg).
Proof.
  unfold regressFixing. intros H mg Hin.
  apply (regressBuckets_built close QL_EPSILON QL_MAX_REAL QL_MIN_REAL
           GeneralLinearLeastSquares type tmp _ _ _ _ _ _ H mg Hin).
Qed.

(** A finished regression has regressed every open fixing. *)
Lemma regressFixings_Ok (data : list (list (list Observation)))
    (remaining : nat) :
  forall i functions,
    regressFixings close QL_EPSILON QL_MAX_REAL QL_MIN_REAL
      GeneralLinearLeastSquares remaining i type nLimits data
    = Ok functions ->
    forall j, (j < remaining)%nat ->
      exists tmp row groups,
        at_ data (i + j) = Ok tmp
        /\ fixing tmp = Ok (row, groups)
        /\ nth_error functions j = Some row.
Proof.
  induction remaining as [|remaining IH]; intros i functions H j Hj; [lia|].
  simpl in H.
  apply bind_Ok in H. destruct H as (tmp & Hat & H).
  apply bind_Ok in H. destruct H as ((row & groups) & Hfix & H).
  apply bind_Ok in H. destruct H as (rest & Hrest & H).
  injection H as <-.
  destruct j as [|j].
  - exists tmp, row, groups. rewrite Nat.add_0_r. repeat split; assumption.
  - destruct (IH _ _ Hrest j) as (tmp' & row' & groups' & A & B & C); [lia|].
    exists tmp', row', groups'.
    replace (i + S j)%nat with (S i + j)%nat by lia.
    repeat split; assumption.
Qed.

End Fixings.



(** C3 (as amended).  Outside the degenerate case, a non-empty merged group
    with fewer than three points in a regression segment stops the
    construction of its proxy function with a reported error, and the
    report names the failing set (1 or 2) and the number of points in it.
    The regression never goes on silently: when the proxy functions of all
    open fixings have been built, every merged group of every fixing index
    was not degenerate and had three points or more in both segments. *)
Theorem too_few_points_reported
    (close : Real -> Real -> bool)
    (QL_EPSILON QL_MAX_REAL QL_MIN_REAL : Real)
    (GeneralLinearLeastSquares : list Real -> list Real -> Real * Real * Real)
    (type : OptionType) :
  close 0 0 = true ->
  (forall g : Group,
      xTmp g <> [] ->
      degenerate QL_EPSILON g = false ->
      exists rc,
        finalCutoff (isCallType type) g = Ok rc
        /\ ((length (segment1 (xTmp g) (snd rc)) < 3)%nat ->
            buildProxyFunction close QL_EPSILON QL_MAX_REAL
              GeneralLinearLeastSquares type g
            = Fail (Thrown (TooFewPoints 1
                              (length (segment1 (xTmp g) (snd rc))))))
        /\ ((3 <= length (segment1 (xTmp g) (snd rc)))%nat ->
            (length (segment2 (xTmp g) (snd rc)) < 3)%nat ->
            buildProxyFunction close QL_EPSILON QL_MAX_REAL
              GeneralLinearLeastSquares type g
            = Fail (Thrown (TooFewPoints 2
                              (length (segment2 (xTmp g) (snd rc)))))))
  /\ (forall (openFixings nLimits : nat)
             (data : list (list (list Observation)))
             (functions : list (list (option QuadraticProxyFunction))),
        proxyFunctions close QL_EPSILON QL_MAX_REAL QL_MIN_REAL
          GeneralLinearLeastSquares type openFixings nLimits data
        = Ok functions ->
        forall i, (i < openFixings)%nat ->
          exists tmp row groups,
            at_ data i = Ok tmp
            /\ regressFixing close QL_EPSILON QL_MAX_REAL QL_MIN_REAL
                 GeneralLinearLeastSquares type nLimits tmp
               = Ok (row, groups)
            /\ nth_error functions i = Some row
            /\ forall mg, In mg groups ->
                 degenerate QL_EPSILON (merged mg) = false
                 /\ exists rc,
                      finalCutoff (isCallType type) (merged mg) = Ok rc
                      /\ (3 <= length (segment1 (xTmp (merged mg))
                                         (snd rc)))%nat
                      /\ (3 <= length (segment2 (xTmp (merged mg))
                                         (snd rc)))%nat).
Proof.
  intro Hclose. split.
  - intros g Hx Hdeg.
    apply (starved_segment_reported close QL_EPSILON QL_MAX_REAL
             GeneralLinearLeastSquares type g Hx Hdeg).
  - intros openFixings nLimits data functions H i Hi.
    unfold proxyFunctions in H.
    destruct (regressFixings_Ok close QL_EPSILON QL_MAX_REAL QL_MIN_REAL
                GeneralLinearLeastSquares type nLimits data openFixings
                0 functions H i Hi)
      as (tmp & row & groups & Hat & Hfix & Hrow).
    exists tmp, row, groups. repeat (split; [assumption|]).
    intros mg Hin.
    apply (built_group_regular close QL_EPSILON QL_MAX_REAL
             GeneralLinearLeastSquares type (merged mg) (function mg) Hclose).
    apply (regressFixing_built close QL_EPSILON QL_MAX_REAL QL_MIN_REAL
             GeneralLinearLeastSquares type nLimits tmp row groups Hfix mg Hin).
Qed.

(** Four observations at the spots 1, 2, 9 and 10: the first set holds
    two of them. *)
Lemma too_few_points_reported_witness :
  Double.buildProxyFunction Call fourPoints
  = Fail (Thrown (TooFewPoints 1 2)).
Proof.
  destruct (proj1 (too_few_points_reported Double.close Double.QL_EPSILON
                     Double.QL_MAX_REAL Double.QL_MIN_REAL
                     Double.GeneralLinearLeastSquares Call eq_refl)
              fourPoints)
    as (rc & Hrc & Hset1 & _).
  - discriminate.
  - reflexivity.
  - vm_compute in Hrc. injection Hrc as <-.
    apply Hset1. vm_compute. lia.
Defined.

(** C3 as stated fails: the report carries the set and its size but not the
    fixing index.  The same buckets fail with the same report whether they
    belong to the first or to the second open fixing, so no reading of the
    report gives the fixing index back. *)
Lemma too_few_points_counterexample :
  failsAtFixing Call 5 sparseFirst 0 (Thrown (TooFewPoints 1 1))
  /\ failsAtFixing Call 5 sparseSecond 1 (Thrown (TooFewPoints 1 1))
  /\ Double.proxyFunctions Call 2 5 sparseFirst
     = Fail (Thrown (TooFewPoints 1 1))
  /\ Double.proxyFunctions Call 2 5 sparseSecond
     = Fail (Thrown (TooFewPoints 1 1))
  /\ ~ (exists fixingIndexOf : Failure -> nat,
          forall data i f,
            failsAtFixing Call 5 data i f -> fixingIndexOf f = i).
Proof.
  assert (F0 : failsAtFixing Call 5 sparseFirst 0
                 (Thrown (TooFewPoints 1 1))).
  { split.
    - intros j Hj. lia.
    - exists sparseBuckets. split; [reflexivity | vm_compute; reflexivity]. }
  assert (F1 : failsAtFixing Call 5 sparseSecond 1
                 (Thrown (TooFewPoints 1 1))).
  { split.
    - intros j Hj. assert (j = O) by lia. subst j.
      exists sampleBuckets. split; [reflexivity | vm_compute; reflexivity].
    - exists sparseBuckets. split; [reflexivity | vm_compute; reflexivity]. }
  split; [exact F0|]. split; [exact F1|].
  split; [vm_compute; reflexivity|].
  split; [vm_compute; reflexivity|].
  intros (fixingIndexOf & H).
  assert (E0 := H _ _ _ F0). assert (E1 := H _ _ _ F1).
  rewrite E0 in E1. discriminate.
Qed.

(** * Further properties *)

(** ** Evaluation of a put proxy *)

Lemma quadratic_decreasing_left (a b c v y1 y2 : Real) :
  0 < a -> 2 * a * v + b == 0 -> y1 <= y2 -> y2 <= v ->
  quadratic a b c y2 <= quadratic a b c y1.
Proof.
  intros Ha Hv H1 H2. unfold quadratic.
  assert (0 <= (y2 - y1) * (a * (v - y1) + a * (v - y2))).
  { apply Qmult_le_0_compat; [lra|].
    assert (0 <= a * (v - y1)) by (apply Qmult_le_0_compat; lra).
    assert (0 <= a * (v - y2)) by (apply Qmult_le_0_compat; lra).
    lra. }
  nra.
Qed.

Lemma quadratic_decreasing_right (a b c v y1 y2 : Real) :
  a < 0 -> 2 * a * v + b == 0 -> v <= y1 -> y1 <= y2 ->
  quadratic a b c y2 <= quadratic a b c y1.
Proof.
  intros Ha Hv H1 H2. unfold quadratic.
  assert (0 <= (y2 - y1) * ((- a) * (y1 - v) + (- a) * (y2 - v))).
  { apply Qmult_le_0_compat; [lra|].
    assert (0 <= (- a) * (y1 - v)) by (apply Qmult_le_0_compat; lra).
    assert (0 <= (- a) * (y2 - v)) by (apply Qmult_le_0_compat; lra).
    lra. }
  nra.
Qed.

Lemma flatExtrapolationType_put_convex (a : Real) :
  0 < a -> flatExtrapolationType Put a = 1%Z.
Proof.
  intro H. unfold flatExtrapolationType. simpl.
  assert (E : (0 <? a) = true) by (apply Qltb_true; exact H).
  rewrite E. reflexivity.
Qed.

(** A segment of a put, clamped at its vertex, never increases. *)
Lemma clamped_segment_put (a b c x1 x2 : Real) :
  ~ a == 0 -> x1 <= x2 ->
  quadratic a b c
    (clampToVertex (flatExtrapolationType Put a) (- b / (2 * a)) x2)
  <= quadratic a b c
       (clampToVertex (flatExtrapolationType Put a) (- b / (2 * a)) x1).
Proof.
  intros Ha Hx.
  assert (Hv := vertex_is_stationary a b Ha).
  set (v := - b / (2 * a)) in *.
  destruct (Q_dec a 0) as [[Hneg|Hpos]|Hz]; [| |contradiction].
  - rewrite (flatExtrapolationType_put_concave a Hneg).
    destruct (clamp_left v x1) as [(E1 & L1)|(E1 & L1)];
      destruct (clamp_left v x2) as [(E2 & L2)|(E2 & L2)];
      apply (quadratic_decreasing_right a b c v); try assumption; lra.
  - rewrite (flatExtrapolationType_put_convex a Hpos).
    destruct (clamp_right v x1) as [(E1 & L1)|(E1 & L1)];
      destruct (clamp_right v x2) as [(E2 & L2)|(E2 & L2)];
      apply (quadratic_decreasing_left a b c v); try assumption; lra.
Qed.

(** For a put the tangent at the lower cutoff lies on or below the clamped
    segment there when its slope is not positive. *)
Lemma tangent_meets_segment_put (a b c lc : Real) :
  ~ a == 0 -> a < 0 -> 2 * a * lc + b <= 0 ->
  linearExtrapolation a b c lc lc
  <= quadratic a b c (clampToVertex (-1) (- b / (2 * a)) lc).
Proof.
  intros Ha Hneg Hs.
  assert (Hv := vertex_is_stationary a b Ha).
  set (v := - b / (2 * a)) in *.
  assert (Hlc : v <= lc).
  { destruct (Qlt_le_dec lc v) as [L|L]; [|exact L].
    assert (0 < (- a) * (v - lc)) by (apply Qmult_lt_0_compat; lra).
    lra. }
  destruct (clamp_left v lc) as [(E & L)|(E & L)].
  - unfold linearExtrapolation, quadratic.
    set (y := clampToVertex (-1) v lc) in *. nra.
  - assert (lc == v) by lra.
    unfold linearExtrapolation, quadratic.
    set (y := clampToVertex (-1) v lc) in *. nra.
Qed.

Section PutProxy.

Variable close : Real -> Real -> bool.
Variables cutoff a1 b1 c1 a2 b2 c2 lc cmin cmax : Real.
Variable p : QuadraticProxyFunction.
Hypothesis accepted :
  newQuadraticProxyFunction close Put cutoff a1 b1 c1 a2 b2 c2 lc cmin cmax
  = Ok p.
Hypothesis quadratic1 : close a1 0 = false.
Hypothesis quadratic2 : close a2 0 = false.

Local Abbreviation segment1At x :=
  (quadratic a1 b1 c1
     (clampToVertex (flatExtrapolationType Put a1) (- b1 / (2 * a1)) x)).
Local Abbreviation segment2At x :=
  (quadratic a2 b2 c2
     (clampToVertex (flatExtrapolationType Put a2) (- b2 / (2 * a2)) x)).

Lemma put_proxy_fields :
  cutoff <= lc
  /\ p = {| type_ := Put;
            a1_ := a1; b1_ := b1; c1_ := c1;
            a2_ := a2; b2_ := b2; c2_ := c2;
            cutoff_ := cutoff; lowerCutoff_ := lc;
            coreRegionMin_ := cmin; coreRegionMax_ := cmax;
            flatExtrapolationType1_ := Some (flatExtrapolationType Put a1);
            flatExtrapolationType2_ := Some (flatExtrapolationType Put a2);
            extrapolationPoint1_ := Some (- b1 / (2 * a1));
            extrapolationPoint2_ := Some (- b2 / (2 * a2)) |}.
Proof.
  split.
  - assert (E : isOk (newQuadraticProxyFunction close Put cutoff a1 b1 c1
                        a2 b2 c2 lc cmin cmax) = true)
      by (rewrite accepted; reflexivity).
    apply constructor_Ok_iff in E. apply E.
  - destruct (constructor_fields _ _ _ _ _ _ _ _ _ _ _ _ _ accepted)
      as (e1 & e2 & E1 & E2 & ->).
    rewrite (segmentExtrapolation_quadratic close 1 Put a1 b1 quadratic1)
      in E1.
    rewrite (segmentExtrapolation_quadratic close 2 Put a2 b2 quadratic2)
      in E2.
    injection E1 as <-. injection E2 as <-. reflexivity.
Qed.

(** Up to the cutoff the proxy is the larger of the second segment at the
    cutoff and the first segment. *)
Lemma evaluate_put_segment1 (x : Real) :
  x <= cutoff ->
  evaluate p x = Ok (std_max (segment2At cutoff) (segment1At x)).
Proof.
  intro Hx. destruct put_proxy_fields as (_ & ->).
  unfold evaluate, linearGuard; simpl.
  assert (C : (x <=? cutoff) = true) by (apply Qleb_true; exact Hx).
  rewrite C. rewrite andb_false_r. reflexivity.
Qed.

(** Between the cutoff and the lower cutoff, and everywhere above the
    cutoff when the second segment is convex, the proxy is the clamped
    second segment. *)
Lemma evaluate_put_segment2 (x : Real) :
  cutoff < x -> x < lc \/ 0 < a2 ->
  evaluate p x = Ok (segment2At x).
Proof.
  intros Hx Hside. destruct put_proxy_fields as (_ & ->).
  unfold evaluate, linearGuard; simpl.
  assert (C : (x <=? cutoff) = false) by (apply Qleb_false; exact Hx).
  rewrite C.
  destruct Hside as [H|H].
  - assert (C2 : (lc <=? x) = false) by (apply Qleb_false; exact H).
    rewrite C2. reflexivity.
  - rewrite (flatExtrapolationType_put_convex a2 H).
    destruct (lc <=? x); reflexivity.
Qed.

(** At and above the lower cutoff a concave second segment is replaced by
    its tangent at the lower cutoff. *)
Lemma evaluate_put_linear (x : Real) :
  a2 < 0 -> cutoff < x -> lc <= x ->
  evaluate p x = Ok (linearExtrapolation a2 b2 c2 lc x).
Proof.
  intros Ha Hx Hlc. destruct put_proxy_fields as (_ & ->).
  unfold evaluate, linearGuard; simpl.
  assert (C : (x <=? cutoff) = false) by (apply Qleb_false; exact Hx).
  assert (C2 : (lc <=? x) = true) by (apply Qleb_true; exact Hlc).
  rewrite C, C2. simpl.
  rewrite (flatExtrapolationType_put_concave a2 Ha). reflexivity.
Qed.

Hypothesis nonzero1 : ~ a1 == 0.
Hypothesis nonzero2 : ~ a2 == 0.
Hypothesis tangent : a2 < 0 -> 2 * a2 * lc + b2 <= 0.

(** Above the cutoff. *)
Lemma put_proxy_monotone_above (x1 x2 : Real) :
  cutoff < x1 -> x1 <= x2 ->
  exists v1 v2,
    evaluate p x1 = Ok v1 /\ evaluate p x2 = Ok v2 /\ v2 <= v1
    /\ v1 <= segment2At cutoff.
Proof.
  intros H1 H12.
  assert (Hlc := proj1 put_proxy_fields).
  destruct (Q_dec a2 0) as [[Hneg|Hpos]|Hz]; [| |contradiction].
  - assert (Hs := tangent Hneg).
    assert (LinMono : forall x y, x <= y ->
              linearExtrapolation a2 b2 c2 lc y
              <= linearExtrapolation a2 b2 c2 lc x).
    { intros x y Hxy. unfold linearExtrapolation.
      assert (0 <= (- (2 * a2 * lc + b2)) * (y - x))
        by (apply Qmult_le_0_compat; lra).
      lra. }
    assert (Meet := tangent_meets_segment_put a2 b2 c2 lc nonzero2 Hneg Hs).
    rewrite <- (flatExtrapolationType_put_concave a2 Hneg) in Meet.
    destruct (Qlt_le_dec x1 lc) as [B1|B1].
    + destruct (Qlt_le_dec x2 lc) as [B2|B2].
      * exists (segment2At x1), (segment2At x2).
        rewrite (evaluate_put_segment2 x1 H1 (or_introl B1)).
        rewrite (evaluate_put_segment2 x2) by (try lra; left; assumption).
        repeat split; apply clamped_segment_put; assumption || lra.
      * exists (segment2At x1), (linearExtrapolation a2 b2 c2 lc x2).
        rewrite (evaluate_put_segment2 x1 H1 (or_introl B1)).
        rewrite (evaluate_put_linear x2) by (assumption || lra).
        repeat split.
        -- apply Qle_trans with (linearExtrapolation a2 b2 c2 lc lc);
             [apply LinMono; exact B2|].
           apply Qle_trans with (segment2At lc); [exact Meet|].
           apply clamped_segment_put; [assumption | lra].
        -- apply clamped_segment_put; assumption || lra.
    + exists (linearExtrapolation a2 b2 c2 lc x1),
             (linearExtrapolation a2 b2 c2 lc x2).
      rewrite (evaluate_put_linear x1) by (assumption || lra).
      rewrite (evaluate_put_linear x2) by (assumption || lra).
      repeat split.
      * apply LinMono. exact H12.
      * apply Qle_trans with (linearExtrapolation a2 b2 c2 lc lc);
          [apply LinMono; exact B1|].
        apply Qle_trans with (segment2At lc); [exact Meet|].
        apply clamped_segment_put; assumption || lra.
  - exists (segment2At x1), (segment2At x2).
    rewrite (evaluate_put_segment2 x1 H1 (or_intror Hpos)).
    rewrite (evaluate_put_segment2 x2) by (try lra; right; assumption).
    repeat split; apply clamped_segment_put; assumption || lra.
Qed.

(** When the tangent at the lower cutoff does not slope upwards, a put
    proxy with two proper quadratic segments never increases. *)
Lemma put_proxy_monotone (x1 x2 : Real) :
  x1 <= x2 ->
  exists v1 v2,
    evaluate p x1 = Ok v1 /\ evaluate p x2 = Ok v2 /\ v2 <= v1.
Proof.
  intro H12.
  destruct (Qlt_le_dec cutoff x1) as [A1|A1].
  - destruct (put_proxy_monotone_above x1 x2 A1 H12)
      as (v1 & v2 & E1 & E2 & L & _).
    exists v1, v2. repeat split; assumption.
  - destruct (Qlt_le_dec cutoff x2) as [A2|A2].
    + destruct (put_proxy_monotone_above x2 x2 A2 (Qle_refl x2))
        as (v2 & v2' & E2 & _ & _ & Hup).
      exists (std_max (segment2At cutoff) (segment1At x1)), v2.
      rewrite (evaluate_put_segment1 x1 A1).
      split; [reflexivity|]. split; [exact E2|].
      destruct (std_max_cases (segment2At cutoff) (segment1At x1))
        as [(L1 & ->)|(L1 & ->)]; lra.
    + exists (std_max (segment2At cutoff) (segment1At x1)),
             (std_max (segment2At cutoff) (segment1At x2)).
      rewrite (evaluate_put_segment1 x1 A1), (evaluate_put_segment1 x2 A2).
      split; [reflexivity|]. split; [reflexivity|].
      assert (M := clamped_segment_put a1 b1 c1 x1 x2 nonzero1 H12).
      destruct (std_max_cases (segment2At cutoff) (segment1At x1))
        as [(L1 & ->)|(L1 & ->)];
        destruct (std_max_cases (segment2At cutoff) (segment1At x2))
          as [(L2 & ->)|(L2 & ->)]; lra.
Qed.

End PutProxy.

(** ** Statements on evaluation *)

(** X1.  When neither quadratic coefficient is close to zero, the
    constructor assigns all members and [operator()] returns a value at
    every spot, for calls and for puts. *)
Theorem evaluation_defined_for_quadratic_segments
    (close : Real -> Real -> bool) (type : OptionType)
    (cutoff a1 b1 c1 a2 b2 c2 lc cmin cmax : Real)
    (p : QuadraticProxyFunction) (spot : Real) :
  newQuadraticProxyFunction close type cutoff a1 b1 c1 a2 b2 c2 lc cmin cmax
  = Ok p ->
  close a1 0 = false -> close a2 0 = false ->
  exists v, evaluate p spot = Ok v.
Proof. apply evaluate_defined. Qed.

Lemma evaluation_defined_for_quadratic_segments_witness :
  exists p v, sampleCallProxy = Ok p /\ evaluate p 9 = Ok v.
Proof.
  eexists.
  destruct (evaluation_defined_for_quadratic_segments Double.close Call
              8 1 0 0 (-1) 20 (-80) 2 1 10 _ 9 eq_refl eq_refl eq_refl)
    as (v & E).
  exists v. split; [reflexivity | exact E].
Defined.

(** X2.  A call proxy with two proper quadratic segments never decreases,
    across the cutoff included, provided the tangent at the lower cutoff
    does not slope downwards when the first segment is concave: for
    [x1 <= x2] the value at [x1] is at most the value at [x2]. *)
Theorem call_proxy_never_decreases
    (close : Real -> Real -> bool)
    (cutoff a1 b1 c1 a2 b2 c2 lc cmin cmax : Real)
    (p : QuadraticProxyFunction) :
  newQuadraticProxyFunction close Call cutoff a1 b1 c1 a2 b2 c2 lc cmin cmax
  = Ok p ->
  close a1 0 = false -> close a2 0 = false ->
  ~ a1 == 0 -> ~ a2 == 0 ->
  (a1 < 0 -> 0 <= 2 * a1 * lc + b1) ->
  forall x1 x2,
    x1 <= x2 ->
    exists v1 v2,
      evaluate p x1 = Ok v1 /\ evaluate p x2 = Ok v2 /\ v1 <= v2.
Proof. apply call_proxy_monotone. Qed.

Lemma call_proxy_never_decreases_witness :
  exists p v1 v2,
    sampleCallProxy = Ok p
    /\ evaluate p 1 = Ok v1 /\ evaluate p 9 = Ok v2 /\ v1 <= v2.
Proof.
  eexists.
  destruct (call_proxy_never_decreases Double.close
              8 1 0 0 (-1) 20 (-80) 2 1 10 _ eq_refl eq_refl eq_refl)
    with (x1 := 1) (x2 := 9) as (v1 & v2 & E1 & E2 & L);
    try (intro; lra); try lra.
  exists v1, v2. split; [reflexivity|]. repeat split; assumption.
Defined.

(** X3.  A put proxy with two proper quadratic segments never increases,
    across the cutoff included, provided the tangent at the lower cutoff
    does not slope upwards when the second segment is concave: for
    [x1 <= x2] the value at [x2] is at most the value at [x1]. *)
Theorem put_proxy_never_increases
    (close : Real -> Real -> bool)
    (cutoff a1 b1 c1 a2 b2 c2 lc cmin cmax : Real)
    (p : QuadraticProxyFunction) :
  newQuadraticProxyFunction close Put cutoff a1 b1 c1 a2 b2 c2 lc cmin cmax
  = Ok p ->
  close a1 0 = false -> close a2 0 = false ->
  ~ a1 == 0 -> ~ a2 == 0 ->
  (a2 < 0 -> 2 * a2 * lc + b2 <= 0) ->
  forall x1 x2,
    x1 <= x2 ->
    exists v1 v2,
      evaluate p x1 = Ok v1 /\ evaluate p x2 = Ok v2 /\ v2 <= v1.
Proof. apply put_proxy_monotone. Qed.

Lemma put_proxy_never_increases_witness :
  exists p v1 v2,
    samplePutProxy = Ok p
    /\ evaluate p 1 = Ok v1 /\ evaluate p 5 = Ok v2 /\ v2 <= v1.
Proof.
  eexists.
  destruct (put_proxy_never_increases Double.close
              3 1 (-20) 100 1 (-20) 100 3 1 10 _ eq_refl eq_refl eq_refl)
    with (x1 := 1) (x2 := 5) as (v1 & v2 & E1 & E2 & L);
    try (intro; lra); try lra.
  exists v1, v2. split; [reflexivity|]. repeat split; assumption.
Defined.

(** X4.  For a put, at and above the lower cutoff a concave second segment
    is replaced by its tangent at the lower cutoff; when that tangent has a
    positive slope (the lower cutoff lies left of the vertex) the proxy
    strictly increases there. *)
Theorem put_proxy_increases_on_rising_tangent
    (close : Real -> Real -> bool)
    (cutoff a1 b1 c1 a2 b2 c2 lc cmin cmax : Real)
    (p : QuadraticProxyFunction) (x1 x2 : Real) :
  newQuadraticProxyFunction close Put cutoff a1 b1 c1 a2 b2 c2 lc cmin cmax
  = Ok p ->
  close a2 0 = false -> a2 < 0 -> 0 < 2 * a2 * lc + b2 ->
  cutoff < x1 -> lc <= x1 -> x1 < x2 ->
  exists v1 v2,
    evaluate p x1 = Ok v1 /\ evaluate p x2 = Ok v2 /\ v1 < v2.
Proof. apply put_proxy_increases_above_lowerCutoff. Qed.

Lemma put_proxy_increases_on_rising_tangent_witness :
  exists p v1 v2,
    newQuadraticProxyFunction Double.close Put 0 1 0 0 (-1) 10 0 1 0 3 = Ok p
    /\ evaluate p 1 = Ok v1 /\ evaluate p 2 = Ok v2 /\ v1 < v2.
Proof.
  eexists.
  destruct (put_proxy_increases_on_rising_tangent Double.close
              0 1 0 0 (-1) 10 0 1 0 3 _ 1 2 eq_refl eq_refl)
    as (v1 & v2 & E1 & E2 & L); try lra.
  exists v1, v2. split; [reflexivity|]. repeat split; assumption.
Defined.

Lemma quadratic_compat (a b c y y' : Real) :
  y == y' -> quadratic a b c y == quadratic a b c y'.
Proof. intro H. unfold quadratic. rewrite H. reflexivity. Qed.

Lemma std_max_compat (k v v' : Real) :
  v == v' -> std_max k v == std_max k v'.
Proof.
  intro H.
  destruct (std_max_cases k v) as [(L & ->)|(L & ->)];
    destruct (std_max_cases k v') as [(L' & ->)|(L' & ->)]; lra.
Qed.

(** X5.  Flat extrapolation of a call: left of the vertex of a convex first
    segment (and up to the cutoff) the proxy takes the value of that segment
    at its vertex, and right of the vertex of a concave second segment (and
    above the cutoff) it takes the larger of the first segment at the cutoff
    and the second segment at its vertex, whatever the spot. *)
Theorem call_proxy_flat_beyond_vertex
    (close : Real -> Real -> bool)
    (cutoff a1 b1 c1 a2 b2 c2 lc cmin cmax : Real)
    (p : QuadraticProxyFunction) (x : Real) :
  newQuadraticProxyFunction close Call cutoff a1 b1 c1 a2 b2 c2 lc cmin cmax
  = Ok p ->
  close a1 0 = false -> close a2 0 = false ->
  (0 < a1 -> x <= cutoff -> x <= - b1 / (2 * a1) ->
   exists v,
     evaluate p x = Ok v
     /\ v == quadratic a1 b1 c1 (- b1 / (2 * a1)))
  /\ (a2 < 0 -> cutoff < x -> - b2 / (2 * a2) <= x ->
      exists v,
        evaluate p x = Ok v
        /\ v == std_max
                  (quadratic a1 b1 c1
                     (clampToVertex (flatExtrapolationType Call a1)
                        (- b1 / (2 * a1)) cutoff))
                  (quadratic a2 b2 c2 (- b2 / (2 * a2)))).
Proof.
  intros Hp H1 H2. split.
  - intros Ha Hx Hv.
    rewrite (evaluate_call_segment1 close cutoff a1 b1 c1 a2 b2 c2 lc cmin
               cmax p Hp H1 H2 x Hx (or_intror Ha)).
    eexists. split; [reflexivity|].
    apply quadratic_compat.
    rewrite (flatExtrapolationType_call_convex a1 Ha).
    destruct (clamp_left (- b1 / (2 * a1)) x) as [(E & L)|(E & L)]; lra.
  - intros Ha Hx Hv.
    rewrite (evaluate_call_segment2 close cutoff a1 b1 c1 a2 b2 c2 lc cmin
               cmax p Hp H1 H2 x Hx).
    eexists. split; [reflexivity|].
    apply std_max_compat. apply quadratic_compat.
    rewrite (flatExtrapolationType_call_concave a2 Ha).
    destruct (clamp_right (- b2 / (2 * a2)) x) as [(E & L)|(E & L)]; lra.
Qed.

Lemma call_proxy_flat_beyond_vertex_witness :
  exists p v v',
    sampleCallProxy = Ok p
    /\ evaluate p 11 = Ok v /\ evaluate p 50 = Ok v' /\ v == 64 /\ v' == 64.
Proof.
  eexists.
  destruct (call_proxy_flat_beyond_vertex Double.close
              8 1 0 0 (-1) 20 (-80) 2 1 10 _ 11 eq_refl eq_refl eq_refl)
    as (_ & F).
  destruct (call_proxy_flat_beyond_vertex Double.close
              8 1 0 0 (-1) 20 (-80) 2 1 10 _ 50 eq_refl eq_refl eq_refl)
    as (_ & F').
  destruct F as (v & E & Hv);
    [lra | lra | apply Qleb_true; reflexivity |].
  destruct F' as (v' & E' & Hv');
    [lra | lra | apply Qleb_true; reflexivity |].
  exists v, v'. split; [reflexivity|].
  split; [exact E|]. split; [exact E'|].
  split; [rewrite Hv | rewrite Hv']; reflexivity.
Defined.

(** ** The order of the observations *)

Lemma pair_lt_iff (p q : Observation) :
  pair_ltb p q = true
  <-> fst p < fst q \/ (fst p <= fst q /\ snd p < snd q).
Proof.
  unfold pair_ltb. rewrite orb_true_iff, andb_true_iff, negb_true_iff.
  rewrite !Qltb_true, Qltb_false. tauto.
Qed.

Lemma pair_le_iff (p q : Observation) :
  pair_le p q <-> fst p <= fst q /\ (fst p < fst q \/ snd p <= snd q).
Proof.
  unfold pair_le, pair_ltb.
  rewrite orb_false_iff, andb_false_iff, negb_false_iff.
  rewrite !Qltb_false, Qltb_true. intuition lra.
Qed.

Lemma pair_le_trans (p q r : Observation) :
  pair_le p q -> pair_le q r -> pair_le p r.
Proof. rewrite !pair_le_iff. intros (A & B) (C & D). split; lra. Qed.

Lemma pair_lt_le (p q : Observation) : pair_ltb p q = true -> pair_le p q.
Proof. rewrite pair_lt_iff, pair_le_iff. intros [A|(A & B)]; split; lra. Qed.

Lemma pair_le_spot (p q : Observation) : pair_le p q -> fst p <= fst q.
Proof. rewrite pair_le_iff. tauto. Qed.

(** ** [std::merge] *)

Lemma merge_nil_l (l : list Observation) : merge [] l = l.
Proof. destruct l; reflexivity. Qed.

Lemma merge_perm (l1 l2 : list Observation) :
  Permutation (merge l1 l2) (l1 ++ l2).
Proof.
  revert l2. induction l1 as [|x1 t1 IH1]; intro l2.
  - rewrite merge_nil_l. apply Permutation_refl.
  - induction l2 as [|x2 t2 IH2].
    + simpl. rewrite app_nil_r. apply Permutation_refl.
    + simpl. destruct (pair_ltb x2 x1).
      * simpl in IH2.
        apply Permutation_trans with (x2 :: x1 :: t1 ++ t2);
          [apply perm_skip; exact IH2|].
        apply (Permutation_middle (x1 :: t1) t2 x2).
      * apply perm_skip. apply IH1.
Qed.

Lemma merge_Forall (P : Observation -> Prop) (l1 l2 : list Observation) :
  Forall P l1 -> Forall P l2 -> Forall P (merge l1 l2).
Proof.
  intros H1 H2. apply Forall_forall. intros x Hx.
  apply (Permutation_in _ (merge_perm l1 l2)) in Hx.
  apply in_app_or in Hx.
  destruct Hx as [Hx|Hx];
    [apply (proj1 (Forall_forall P l1) H1) | apply (proj1 (Forall_forall P l2) H2)];
    exact Hx.
Qed.

Lemma ascending_head (x : Observation) (l : list Observation) :
  ascending (x :: l) -> Forall (pair_le x) l.
Proof. intro H. inversion H. assumption. Qed.

Lemma ascending_tail (x : Observation) (l : list Observation) :
  ascending (x :: l) -> ascending l.
Proof. intro H. inversion H. assumption. Qed.

Lemma Forall_pair_le_trans (x y : Observation) (l : list Observation) :
  pair_le x y -> Forall (pair_le y) l -> Forall (pair_le x) l.
Proof.
  intros Hxy H. apply Forall_forall. intros z Hz.
  apply (pair_le_trans x y z Hxy).
  apply (proj1 (Forall_forall _ l) H z Hz).
Qed.

(** Merging two sorted ranges gives a sorted range. *)
Lemma merge_ascending (l1 l2 : list Observation) :
  ascending l1 -> ascending l2 -> ascending (merge l1 l2).
Proof.
  revert l2. induction l1 as [|x1 t1 IH1]; intros l2 H1 H2.
  - rewrite merge_nil_l. exact H2.
  - induction l2 as [|x2 t2 IH2].
    + exact H1.
    + simpl. destruct (pair_ltb x2 x1) eqn:E.
      * constructor.
        -- apply IH2. apply (ascending_tail x2 t2 H2).
        -- change (Forall (pair_le x2) (merge (x1 :: t1) t2)).
           apply merge_Forall.
           ++ constructor; [apply pair_lt_le; exact E|].
              apply (Forall_pair_le_trans x2 x1);
                [apply pair_lt_le; exact E | apply ascending_head; exact H1].
           ++ apply ascending_head. exact H2.
      * constructor.
        -- apply IH1; [apply (ascending_tail x1 t1 H1) | exact H2].
        -- apply merge_Forall.
           ++ apply ascending_head. exact H1.
           ++ constructor; [exact E|].
              apply (Forall_pair_le_trans x1 x2);
                [exact E | apply ascending_head; exact H2].
Qed.

Lemma last_nonempty {A} (l : list A) (a d d' : A) :
  last (a :: l) d = last (a :: l) d'.
Proof.
  revert a. induction l as [|b t IH]; intro a; [reflexivity|].
  change (last (b :: t) d = last (b :: t) d'). apply IH.
Qed.

(** In a sorted range the first spot is the smallest and the last spot the
    largest. *)
Lemma ascending_spots (front : Observation) (rest : list Observation) :
  ascending (front :: rest) ->
  Forall (fun o => fst front <= fst o
                   /\ fst o <= fst (last (front :: rest) front))
    (front :: rest).
Proof.
  revert front. induction rest as [|y t IH]; intros front H.
  - constructor; [simpl; lra | constructor].
  - assert (Hy : pair_le front y).
    { apply ascending_head in H. inversion H. assumption. }
    apply pair_le_spot in Hy.
    specialize (IH y (ascending_tail _ _ H)).
    assert (L : last (front :: y :: t) front = last (y :: t) y).
    { change (last (front :: y :: t) front) with (last (y :: t) front).
      apply last_nonempty. }
    rewrite L.
    constructor.
    + split; [lra|].
      inversion IH as [|? ? (A & B) ?]; subst. lra.
    + apply Forall_forall. intros o Ho.
      destruct (proj1 (Forall_forall _ _) IH o Ho) as (A & B).
      split; lra.
Qed.

(** ** What merging keeps *)

Lemma absorb_ascending (g : Group) (bucket : list Observation) :
  ascending (xTmp g) -> ascending bucket -> ascending (xTmp (absorb g bucket)).
Proof.
  intros Hg Hb. unfold absorb.
  destruct bucket; simpl xTmp; apply merge_ascending; assumption.
Qed.

Lemma absorb_spotsWithin (g : Group) (bucket : list Observation) :
  spotsWithin g -> ascending bucket -> spotsWithin (absorb g bucket).
Proof.
  unfold spotsWithin, absorb. intros Hg Hb.
  destruct bucket as [|front rest]; cbn [xTmp spotMin spotMax].
  - apply merge_Forall; [exact Hg | constructor].
  - set (lo := if fst front <? spotMin g then fst front else spotMin g).
    set (hi := if spotMax g <? fst (last (front :: rest) front)
               then fst (last (front :: rest) front) else spotMax g).
    assert (Hlo : lo <= spotMin g /\ lo <= fst front).
    { unfold lo. destruct (fst front <? spotMin g) eqn:E.
      - apply Qltb_true in E. split; lra.
      - apply Qltb_false in E. split; lra. }
    assert (Hhi : spotMax g <= hi /\ fst (last (front :: rest) front) <= hi).
    { unfold hi.
      destruct (spotMax g <? fst (last (front :: rest) front)) eqn:E.
      - apply Qltb_true in E. split; lra.
      - apply Qltb_false in E. split; lra. }
    apply merge_Forall.
    + apply (Forall_impl _ (P := fun o => spotMin g <= fst o
                                          /\ fst o <= spotMax g));
        [|exact Hg].
      intros o (A & B). split; lra.
    + apply (Forall_impl _ (P := fun o =>
               fst front <= fst o
               /\ fst o <= fst (last (front :: rest) front)));
        [|apply ascending_spots; exact Hb].
      intros o (A & B). split; lra.
Qed.

Lemma In_skipn {A} (k : nat) (l : list A) (x : A) :
  In x (skipn k l) -> In x l.
Proof.
  intro H. rewrite <- (firstn_skipn k l). apply in_or_app. right. exact H.
Qed.

Lemma at_In {A} (v : list A) (i : nat) (x : A) : at_ v i = Ok x -> In x v.
Proof.
  intro H. apply at_inv in H. apply (nth_error_In _ _ (proj1 H)).
Qed.

Section MergedGroups.

Variable close : Real -> Real -> bool.
Variables QL_EPSILON QL_MAX_REAL QL_MIN_REAL : Real.
Variable GeneralLinearLeastSquares :
  list Real -> list Real -> Real * Real * Real.
Variable type : OptionType.
Variable tmp : list (list Observation).
Variable numberOfDataPoints : nat.

Local Abbreviation loop fuel :=
  (regressBuckets close QL_EPSILON QL_MAX_REAL QL_MIN_REAL
     GeneralLinearLeastSquares fuel type tmp numberOfDataPoints).
Local Abbreviation start := (emptyGroup QL_MAX_REAL QL_MIN_REAL).

(** A property of groups that absorbing a bucket of [tmp] keeps. *)
Variable P : Group -> Prop.
Hypothesis kept :
  forall g bucket, In bucket tmp -> P g -> P (absorb g bucket).

Lemma collect_keeps (fuel : nat) :
  forall g k0 g1 k1,
    P g -> collect fuel tmp numberOfDataPoints g k0 = Ok (g1, k1) -> P g1.
Proof.
  induction fuel as [|fuel IH]; intros g k0 g1 k1 Hg H; [discriminate|].
  rewrite collect_S in H.
  apply bind_Ok in H. destruct H as (bucket & Hat & H).
  assert (Hg' : P (absorb g bucket)) by (apply kept; [eapply at_In|]; eauto).
  destruct (dFactor * length (xTmp (absorb g bucket))
            <? numberOfDataPoints)%nat.
  - apply (IH _ _ _ _ Hg' H).
  - injection H as <- <-. exact Hg'.
Qed.

Lemma absorb_all_keeps (buckets : list (list Observation)) :
  (forall b, In b buckets -> In b tmp) ->
  forall g, P g -> P (fold_left absorb buckets g).
Proof.
  induction buckets as [|b rest IH]; intros Hin g Hg; [exact Hg|].
  simpl. apply IH.
  - intros b' Hb'. apply Hin. right. exact Hb'.
  - apply kept; [apply Hin; left; reflexivity | exact Hg].
Qed.

Lemma joinRest_keeps (g : Group) (k : nat) :
  P g -> P (fst (joinRest tmp numberOfDataPoints g k)).
Proof.
  intro Hg. unfold joinRest.
  destruct (dFactor * dataPoints (skipn k tmp) <? numberOfDataPoints)%nat;
    simpl; [|exact Hg].
  apply absorb_all_keeps; [|exact Hg].
  intros b Hb. apply (In_skipn k tmp b Hb).
Qed.

(** Every group the loop has merged has the property. *)
Lemma regressBuckets_keeps (fuel : nat) :
  P start ->
  forall k0 row row' groups,
    loop fuel k0 row = Ok (row', groups) ->
    forall mg, In mg groups -> P (merged mg).
Proof.
  intro Hstart.
  induction fuel as [|fuel IH]; intros k0 row row' groups H; [discriminate|].
  rewrite regressBuckets_S in H.
  apply bind_Ok in H. destruct H as ((g1 & k1) & Hc & H).
  apply bind_Ok in H. destruct H as (fct & _ & H).
  apply bind_Ok in H. destruct H as (row1 & _ & H).
  assert (Hg : P (fst (joinRest tmp numberOfDataPoints g1 k1))).
  { apply joinRest_keeps. apply (collect_keeps _ _ _ _ _ Hstart Hc). }
  cbn [fst snd] in H.
  destruct (_ <? length tmp)%nat.
  - apply bind_Ok in H. destruct H as ((row2 & groups2) & Hrec & H).
    injection H as <- <-.
    intros mg [<-|Hin]; [exact Hg|].
    apply (IH _ _ _ _ Hrec mg Hin).
  - injection H as <- <-.
    intros mg [<-|[]]. exact Hg.
Qed.

End MergedGroups.

Lemma bucketsBetween_step (tmp : list (list Observation)) (k0 k1 : nat)
    (bucket : list Observation) :
  at_ tmp k0 = Ok bucket -> (k0 < k1)%nat ->
  bucketsBetween tmp k0 k1 = bucket ++ bucketsBetween tmp (S k0) k1.
Proof.
  intros Hat Hk. unfold bucketsBetween.
  rewrite (skipn_at _ _ _ Hat).
  replace (k1 - k0)%nat with (S (k1 - S k0)) by lia.
  reflexivity.
Qed.

Lemma bucketsBetween_empty (tmp : list (list Observation)) (k : nat) :
  bucketsBetween tmp k k = [].
Proof. unfold bucketsBetween. rewrite Nat.sub_diag. reflexivity. Qed.

Lemma bucketsBetween_rest (tmp : list (list Observation)) (k0 k1 : nat) :
  (k0 <= k1 <= length tmp)%nat ->
  bucketsBetween tmp k0 (length tmp)
  = bucketsBetween tmp k0 k1 ++ concat (skipn k1 tmp).
Proof.
  intro H. unfold bucketsBetween.
  rewrite <- concat_app. f_equal.
  rewrite firstn_all2 by (rewrite length_skipn; lia).
  replace (skipn k1 tmp) with (skipn (k1 - k0) (skipn k0 tmp))
    by (rewrite skipn_skipn; f_equal; lia).
  symmetry. apply firstn_skipn.
Qed.

Lemma absorb_perm (g : Group) (bucket : list Observation) :
  Permutation (xTmp (absorb g bucket)) (xTmp g ++ bucket).
Proof.
  unfold absorb. destruct bucket; cbn [xTmp]; apply merge_perm.
Qed.

Lemma absorb_all_perm (buckets : list (list Observation)) :
  forall g,
    Permutation (xTmp (fold_left absorb buckets g))
      (xTmp g ++ concat buckets).
Proof.
  induction buckets as [|b rest IH]; intro g; simpl.
  - rewrite app_nil_r. apply Permutation_refl.
  - apply Permutation_trans with (xTmp (absorb g b) ++ concat rest);
      [apply IH|].
    rewrite app_assoc. apply Permutation_app_tail. apply absorb_perm.
Qed.

Section MergedData.

Variable close : Real -> Real -> bool.
Variables QL_EPSILON QL_MAX_REAL QL_MIN_REAL : Real.
Variable GeneralLinearLeastSquares :
  list Real -> list Real -> Real * Real * Real.
Variable type : OptionType.
Variable tmp : list (list Observation).
Variable numberOfDataPoints : nat.

Local Abbreviation loop fuel :=
  (regressBuckets close QL_EPSILON QL_MAX_REAL QL_MIN_REAL
     GeneralLinearLeastSquares fuel type tmp numberOfDataPoints).
Local Abbreviation start := (emptyGroup QL_MAX_REAL QL_MIN_REAL).

(** The inner loop stops only when the group holds a tenth of the
    observations. *)
Lemma collect_dense (fuel : nat) :
  forall g k0 g1 k1,
    collect fuel tmp numberOfDataPoints g k0 = Ok (g1, k1) ->
    (numberOfDataPoints <= dFactor * length (xTmp g1))%nat.
Proof.
  induction fuel as [|fuel IH]; intros g k0 g1 k1 H; [discriminate|].
  rewrite collect_S in H.
  apply bind_Ok in H. destruct H as (bucket & Hat & H).
  destruct (dFactor * length (xTmp (absorb g bucket))
            <? numberOfDataPoints)%nat eqn:E.
  - apply (IH _ _ _ _ H).
  - injection H as <- <-. apply Nat.ltb_ge in E. exact E.
Qed.

Lemma joinRest_grows (g : Group) (k : nat) :
  (length (xTmp g)
   <= length (xTmp (fst (joinRest tmp numberOfDataPoints g k))))%nat.
Proof.
  unfold joinRest.
  destruct (dFactor * dataPoints (skipn k tmp) <? numberOfDataPoints)%nat;
    simpl; [|lia].
  rewrite absorb_all_length. lia.
Qed.

Lemma regressBuckets_dense (fuel : nat) :
  forall k0 row row' groups,
    loop fuel k0 row = Ok (row', groups) ->
    forall mg, In mg groups ->
      (numberOfDataPoints <= dFactor * length (xTmp (merged mg)))%nat.
Proof.
  induction fuel as [|fuel IH]; intros k0 row row' groups H; [discriminate|].
  rewrite regressBuckets_S in H.
  apply bind_Ok in H. destruct H as ((g1 & k1) & Hc & H).
  apply bind_Ok in H. destruct H as (fct & _ & H).
  apply bind_Ok in H. destruct H as (row1 & _ & H).
  assert (Hd := collect_dense _ _ _ _ _ Hc).
  assert (Hg := joinRest_grows g1 k1).
  cbn [fst snd] in H.
  assert (D : (numberOfDataPoints
               <= dFactor
                  * length (xTmp (fst (joinRest tmp numberOfDataPoints
                                         g1 k1))))%nat)
    by (unfold dFactor in *; lia).
  destruct (_ <? length tmp)%nat.
  - apply bind_Ok in H. destruct H as ((row2 & groups2) & Hrec & H).
    injection H as <- <-.
    intros mg [<-|Hin]; [exact D|].
    apply (IH _ _ _ _ Hrec mg Hin).
  - injection H as <- <-.
    intros mg [<-|[]]. exact D.
Qed.

(** The inner loop merges exactly the buckets it passes. *)
Lemma collect_between (fuel : nat) :
  forall g k0 g1 k1,
    collect fuel tmp numberOfDataPoints g k0 = Ok (g1, k1) ->
    Permutation (xTmp g1) (xTmp g ++ bucketsBetween tmp k0 k1).
Proof.
  induction fuel as [|fuel IH]; intros g k0 g1 k1 H; [discriminate|].
  assert (Hr := proj1 (collect_inv _ _ _ _ _ _ _ H)).
  rewrite collect_S in H.
  apply bind_Ok in H. destruct H as (bucket & Hat & H).
  rewrite (bucketsBetween_step tmp k0 k1 bucket Hat) by lia.
  rewrite app_assoc.
  destruct (dFactor * length (xTmp (absorb g bucket))
            <? numberOfDataPoints)%nat.
  - apply Permutation_trans
      with (xTmp (absorb g bucket) ++ bucketsBetween tmp (S k0) k1);
      [apply (IH _ _ _ _ H)|].
    apply Permutation_app_tail. apply absorb_perm.
  - injection H as <- <-. rewrite bucketsBetween_empty, app_nil_r.
    apply absorb_perm.
Qed.

Lemma joinRest_between (g : Group) (k0 k : nat) :
  (k0 <= k <= length tmp)%nat ->
  Permutation (xTmp g) (bucketsBetween tmp k0 k) ->
  Permutation (xTmp (fst (joinRest tmp numberOfDataPoints g k)))
    (bucketsBetween tmp k0 (snd (joinRest tmp numberOfDataPoints g k))).
Proof.
  intros Hk Hg. unfold joinRest.
  destruct (dFactor * dataPoints (skipn k tmp) <? numberOfDataPoints)%nat;
    simpl; [|exact Hg].
  rewrite (bucketsBetween_rest tmp k0 k Hk).
  apply Permutation_trans with (xTmp g ++ concat (skipn k tmp));
    [apply absorb_all_perm|].
  apply Permutation_app_tail. exact Hg.
Qed.

(** Every group holds the observations of its own buckets, no more and no
    fewer. *)
Lemma regressBuckets_between (fuel : nat) :
  forall k0 row row' groups,
    loop fuel k0 row = Ok (row', groups) ->
    forall mg, In mg groups ->
      Permutation (xTmp (merged mg))
        (bucketsBetween tmp (firstBucket mg) (endBucket mg)).
Proof.
  induction fuel as [|fuel IH]; intros k0 row row' groups H; [discriminate|].
  rewrite regressBuckets_S in H.
  apply bind_Ok in H. destruct H as ((g1 & k1) & Hc & H).
  apply bind_Ok in H. destruct H as (fct & _ & H).
  apply bind_Ok in H. destruct H as (row1 & _ & H).
  assert (Hr := proj1 (collect_inv _ _ _ _ _ _ _ Hc)).
  assert (Hp := collect_between _ _ _ _ _ Hc).
  change (xTmp start) with (@nil Observation) in Hp. simpl app in Hp.
  assert (Hj := joinRest_between g1 k0 k1 ltac:(lia) Hp).
  cbn [fst snd] in H.
  destruct (_ <? length tmp)%nat.
  - apply bind_Ok in H. destruct H as ((row2 & groups2) & Hrec & H).
    injection H as <- <-.
    intros mg [<-|Hin]; [exact Hj|].
    apply (IH _ _ _ _ Hrec mg Hin).
  - injection H as <- <-.
    intros mg [<-|[]]. exact Hj.
Qed.

End MergedData.

(** ** Statements on the merged groups *)

(** X6.  When the buckets of a fixing index are sorted (as [std::merge] and
    [std::upper_bound] require), every merged group of a finished regression
    is sorted too, and all its spots lie between the [spotMin] and the
    [spotMax] the loop has recorded for it. *)
Theorem merged_groups_sorted_within_range
    (close : Real -> Real -> bool)
    (QL_EPSILON QL_MAX_REAL QL_MIN_REAL : Real)
    (GeneralLinearLeastSquares : list Real -> list Real -> Real * Real * Real)
    (type : OptionType) (nLimits : nat) (tmp : list (list Observation))
    (row : list (option QuadraticProxyFunction))
    (groups : list MergedGroup) :
  (forall bucket, In bucket tmp -> ascending bucket) ->
  regressFixing close QL_EPSILON QL_MAX_REAL QL_MIN_REAL
    GeneralLinearLeastSquares type nLimits tmp = Ok (row, groups) ->
  forall mg, In mg groups ->
    ascending (xTmp (merged mg)) /\ spotsWithin (merged mg).
Proof.
  intros Hsorted H.
  apply (regressBuckets_keeps close QL_EPSILON QL_MAX_REAL QL_MIN_REAL
           GeneralLinearLeastSquares type tmp (dataPoints tmp)
           (fun g => ascending (xTmp g) /\ spotsWithin g))
    with (fuel := S (length tmp)) (k0 := O) (row := repeat None nLimits)
         (row' := row).
  - intros g bucket Hin (A & B). split.
    + apply absorb_ascending; [exact A | apply Hsorted; exact Hin].
    + apply absorb_spotsWithin; [exact B | apply Hsorted; exact Hin].
  - split; [constructor | constructor].
  - exact H.
Qed.

Lemma sampleBuckets_ascending :
  forall bucket, In bucket sampleBuckets -> ascending bucket.
Proof.
  intros bucket [<-|[<-|[<-|[<-|[<-|[]]]]]];
    repeat (constructor; try reflexivity).
Qed.

Lemma merged_groups_sorted_within_range_witness :
  exists row groups,
    Double.regressFixing Call 5 sampleBuckets = Ok (row, groups)
    /\ forall mg, In mg groups ->
         ascending (xTmp (merged mg)) /\ spotsWithin (merged mg).
Proof.
  destruct (Double.regressFixing Call 5 sampleBuckets)
    as [(row & groups)|f] eqn:E; [|vm_compute in E; discriminate].
  exists row, groups. split; [reflexivity|].
  exact (merged_groups_sorted_within_range Double.close Double.QL_EPSILON
           Double.QL_MAX_REAL Double.QL_MIN_REAL
           Double.GeneralLinearLeastSquares Call 5 sampleBuckets row groups
           sampleBuckets_ascending E).
Defined.

(** X7.  Every merged group of a finished regression holds at least a tenth
    of the observations of its fixing index:
    [dFactor * size >= numberOfDataPoints], for the first group and the
    last as for the others. *)
Theorem merged_groups_dense
    (close : Real -> Real -> bool)
    (QL_EPSILON QL_MAX_REAL QL_MIN_REAL : Real)
    (GeneralLinearLeastSquares : list Real -> list Real -> Real * Real * Real)
    (type : OptionType) (nLimits : nat) (tmp : list (list Observation))
    (row : list (option QuadraticProxyFunction))
    (groups : list MergedGroup) :
  regressFixing close QL_EPSILON QL_MAX_REAL QL_MIN_REAL
    GeneralLinearLeastSquares type nLimits tmp = Ok (row, groups) ->
  forall mg, In mg groups ->
    (dataPoints tmp <= dFactor * length (xTmp (merged mg)))%nat.
Proof.
  intro H.
  apply (regressBuckets_dense close QL_EPSILON QL_MAX_REAL QL_MIN_REAL
           GeneralLinearLeastSquares type tmp (dataPoints tmp)
           (S (length tmp)) O (repeat None nLimits) row groups H).
Qed.

Lemma merged_groups_dense_witness :
  exists row groups,
    Double.regressFixing Call 5 sampleBuckets = Ok (row, groups)
    /\ forall mg, In mg groups ->
         (22 <= 10 * length (xTmp (merged mg)))%nat.
Proof.
  destruct (Double.regressFixing Call 5 sampleBuckets)
    as [(row & groups)|f] eqn:E; [|vm_compute in E; discriminate].
  exists row, groups. split; [reflexivity|].
  exact (merged_groups_dense Double.close Double.QL_EPSILON
           Double.QL_MAX_REAL Double.QL_MIN_REAL
           Double.GeneralLinearLeastSquares Call 5 sampleBuckets row groups
           E).
Defined.

(** X8.  Every merged group of a finished regression holds exactly the
    observations of the buckets it covers: its data is a permutation of the
    observations of the buckets from its first to its last, so merging
    neither loses, nor duplicates, nor moves an observation to another
    group. *)
Theorem merged_groups_hold_their_buckets
    (close : Real -> Real -> bool)
    (QL_EPSILON QL_MAX_REAL QL_MIN_REAL : Real)
    (GeneralLinearLeastSquares : list Real -> list Real -> Real * Real * Real)
    (type : OptionType) (nLimits : nat) (tmp : list (list Observation))
    (row : list (option QuadraticProxyFunction))
    (groups : list MergedGroup) :
  regressFixing close QL_EPSILON QL_MAX_REAL QL_MIN_REAL
    GeneralLinearLeastSquares type nLimits tmp = Ok (row, groups) ->
  forall mg, In mg groups ->
    Permutation (xTmp (merged mg))
      (bucketsBetween tmp (firstBucket mg) (endBucket mg)).
Proof.
  intro H.
  apply (regressBuckets_between close QL_EPSILON QL_MAX_REAL QL_MIN_REAL
           GeneralLinearLeastSquares type tmp (dataPoints tmp)
           (S (length tmp)) O (repeat None nLimits) row groups H).
Qed.

Lemma merged_groups_hold_their_buckets_witness :
  exists row groups,
    Double.regressFixing Call 5 sampleBuckets = Ok (row, groups)
    /\ forall mg, In mg groups ->
         Permutation (xTmp (merged mg))
           (bucketsBetween sampleBuckets (firstBucket mg) (endBucket mg)).
Proof.
  destruct (Double.regressFixing Call 5 sampleBuckets)
    as [(row & groups)|f] eqn:E; [|vm_compute in E; discriminate].
  exists row, groups. split; [reflexivity|].
  exact (merged_groups_hold_their_buckets Double.close Double.QL_EPSILON
           Double.QL_MAX_REAL Double.QL_MIN_REAL
           Double.GeneralLinearLeastSquares Call 5 sampleBuckets row groups
           E).
Defined.

(** ** Buckets that need no merging *)

Section DenseBuckets.

Variable close : Real -> Real -> bool.
Variables QL_EPSILON QL_MAX_REAL QL_MIN_REAL : Real.
Variable GeneralLinearLeastSquares :
  list Real -> list Real -> Real * Real * Real.
Variable type : OptionType.
Variable tmp : list (list Observation).
Variable numberOfDataPoints : nat.
Hypothesis dense :
  forall bucket, In bucket tmp ->
    (numberOfDataPoints <= dFactor * length bucket)%nat.

Local Abbreviation loop fuel :=
  (regressBuckets close QL_EPSILON QL_MAX_REAL QL_MIN_REAL
     GeneralLinearLeastSquares fuel type tmp numberOfDataPoints).
Local Abbreviation start := (emptyGroup QL_MAX_REAL QL_MIN_REAL).

Lemma absorb_start (bucket : list Observation) :
  xTmp (absorb start bucket) = bucket.
Proof.
  unfold absorb. destruct bucket; cbn [xTmp emptyGroup]; apply merge_nil_l.
Qed.

(** The inner loop takes one bucket and stops. *)
Lemma collect_one (fuel k0 : nat) (bucket : list Observation) :
  at_ tmp k0 = Ok bucket ->
  collect (S fuel) tmp numberOfDataPoints start k0
  = Ok (absorb start bucket, S k0).
Proof.
  intro Hat. rewrite collect_S, Hat. cbn [bind].
  assert (E : (dFactor * length (xTmp (absorb start bucket))
               <? numberOfDataPoints)%nat = false).
  { apply Nat.ltb_ge. rewrite absorb_start.
    apply dense. apply (at_In _ _ _ Hat). }
  rewrite E. reflexivity.
Qed.

(** Nothing is joined to it. *)
Lemma joinRest_none (g : Group) (k : nat) :
  (k <= length tmp)%nat ->
  joinRest tmp numberOfDataPoints g k = (g, k).
Proof.
  intro Hk. unfold joinRest.
  destruct (Nat.eq_dec k (length tmp)) as [->|Hne].
  - rewrite skipn_all. change (dataPoints []) with 0%nat.
    destruct (dFactor * 0 <? numberOfDataPoints)%nat; reflexivity.
  - destruct (at_Ok tmp k) as (bucket & Hat); [lia|].
    rewrite (skipn_at _ _ _ Hat), dataPoints_cons.
    assert (D := dense bucket (at_In _ _ _ Hat)).
    assert (E : (dFactor * (length bucket
                            + dataPoints (skipn (S k) tmp))
                 <? numberOfDataPoints)%nat = false)
      by (apply Nat.ltb_ge; unfold dFactor in *; lia).
    rewrite E. reflexivity.
Qed.

Lemma regressBuckets_one_by_one (fuel : nat) :
  forall k0 row row' groups,
    (k0 < length tmp)%nat ->
    loop fuel k0 row = Ok (row', groups) ->
    map (fun mg => (firstBucket mg, endBucket mg)) groups
    = map (fun k => (k, S k)) (seq k0 (length tmp - k0))
    /\ forall mg, In mg groups ->
         at_ tmp (firstBucket mg) = Ok (xTmp (merged mg)).
Proof.
  induction fuel as [|fuel IH]; intros k0 row row' groups Hk H;
    [discriminate|].
  rewrite regressBuckets_S in H.
  destruct (at_Ok tmp k0 Hk) as (bucket & Hat).
  rewrite (collect_one (length tmp) k0 bucket Hat) in H.
  cbn [bind fst snd] in H.
  rewrite (joinRest_none (absorb start bucket) (S k0)) in H by lia.
  cbn [fst snd] in H.
  apply bind_Ok in H. destruct H as (fct & _ & H).
  apply bind_Ok in H. destruct H as (row1 & _ & H).
  replace (length tmp - k0)%nat with (S (length tmp - S k0)) by lia.
  cbn [seq map].
  destruct (S k0 <? length tmp)%nat eqn:E.
  - apply Nat.ltb_lt in E.
    apply bind_Ok in H. destruct H as ((row2 & groups2) & Hrec & H).
    injection H as <- <-.
    destruct (IH _ _ _ _ E Hrec) as (Hb & Hd).
    split.
    + cbn [map firstBucket endBucket snd]. rewrite Hb. reflexivity.
    + intros mg [<-|Hin]; [|apply Hd; exact Hin].
      cbn [firstBucket merged]. rewrite absorb_start. exact Hat.
  - apply Nat.ltb_ge in E. injection H as <- <-.
    replace (length tmp - S k0)%nat with O by lia.
    split; [reflexivity|].
    intros mg [<-|[]].
    cbn [firstBucket merged]. rewrite absorb_start. exact Hat.
Qed.

End DenseBuckets.

(** X9.  When every bucket of a fixing index holds at least a tenth of its
    observations, a finished regression has merged nothing: there is one
    group per bucket, in order, and the data of each group is its
    bucket. *)
Theorem dense_buckets_are_not_merged
    (close : Real -> Real -> bool)
    (QL_EPSILON QL_MAX_REAL QL_MIN_REAL : Real)
    (GeneralLinearLeastSquares : list Real -> list Real -> Real * Real * Real)
    (type : OptionType) (nLimits : nat) (tmp : list (list Observation))
    (row : list (option QuadraticProxyFunction))
    (groups : list MergedGroup) :
  (forall bucket, In bucket tmp ->
     (dataPoints tmp <= dFactor * length bucket)%nat) ->
  regressFixing close QL_EPSILON QL_MAX_REAL QL_MIN_REAL
    GeneralLinearLeastSquares type nLimits tmp = Ok (row, groups) ->
  map (fun mg => (firstBucket mg, endBucket mg)) groups
  = map (fun k => (k, S k)) (seq 0 (length tmp))
  /\ forall mg, In mg groups ->
       at_ tmp (firstBucket mg) = Ok (xTmp (merged mg)).
Proof.
  intros Hdense H.
  destruct tmp as [|b rest] eqn:Etmp.
  - vm_compute in H. discriminate.
  - rewrite <- Etmp in *.
    assert (Hlen : (0 < length tmp)%nat) by (rewrite Etmp; simpl; lia).
    destruct (regressBuckets_one_by_one close QL_EPSILON QL_MAX_REAL
                QL_MIN_REAL GeneralLinearLeastSquares type tmp
                (dataPoints tmp) Hdense (S (length tmp)) O
                (repeat None nLimits) row groups Hlen H) as (A & B).
    rewrite Nat.sub_0_r in A. split; assumption.
Qed.

Lemma dense_buckets_are_not_merged_witness :
  exists row groups,
    Double.regressFixing Call 2 [onParabola 1 10; onParabola 1 10]
    = Ok (row, groups)
    /\ map (fun mg => (firstBucket mg, endBucket mg)) groups
       = [(0, 1); (1, 2)]%nat.
Proof.
  destruct (Double.regressFixing Call 2 [onParabola 1 10; onParabola 1 10])
    as [(row & groups)|f] eqn:E; [|vm_compute in E; discriminate].
  exists row, groups. split; [reflexivity|].
  apply (dense_buckets_are_not_merged Double.close Double.QL_EPSILON
           Double.QL_MAX_REAL Double.QL_MIN_REAL
           Double.GeneralLinearLeastSquares Call 2
           [onParabola 1 10; onParabola 1 10] row groups); [|exact E].
  intros bucket [<-|[<-|[]]]; vm_compute; lia.
Defined.

(** ** The grid of proxy functions *)

Section Surface.

Variable close : Real -> Real -> bool.
Variables QL_EPSILON QL_MAX_REAL QL_MIN_REAL : Real.
Variable GeneralLinearLeastSquares :
  list Real -> list Real -> Real * Real * Real.
Variable type : OptionType.
Variable nLimits : nat.

Local Abbreviation fixing :=
  (regressFixing close QL_EPSILON QL_MAX_REAL QL_MIN_REAL
     GeneralLinearLeastSquares type nLimits).

(** A regressed fixing index has a function in every cell of its row. *)
Lemma regressFixing_row_complete (tmp : list (list Observation)) row groups :
  tmp <> [] -> nLimits = length tmp ->
  fixing tmp = Ok (row, groups) ->
  length row = nLimits
  /\ forall kk, (kk < nLimits)%nat ->
       exists fct, nth_error row kk = Some (Some fct).
Proof.
  intros Hne Hn H. unfold regressFixing in H.
  assert (Hlen : (0 < length tmp)%nat)
    by (destruct tmp; [congruence | simpl; lia]).
  assert (S := regressBuckets_spec close QL_EPSILON QL_MAX_REAL QL_MIN_REAL
                 GeneralLinearLeastSquares type tmp (dataPoints tmp)
                 (S (length tmp)) 0 (repeat None nLimits) Hlen).
  rewrite repeat_length in S. specialize (S Hn).
  assert (Hfuel : (length tmp - 0 <= Datatypes.S (length tmp))%nat) by lia.
  specialize (S Hfuel).
  assert (Hdense : (dataPoints tmp <= dFactor * dataPoints (skipn 0 tmp))%nat)
    by (simpl skipn; unfold dFactor; lia).
  specialize (S Hdense).
  rewrite H in S. destruct S as (C & _ & L & _ & R).
  split; [congruence|].
  intros kk Hkk.
  destruct (contiguous_partition groups 0 (length tmp) C kk)
    as (mg & Hin & Hc & _); [lia|].
  exists (function mg). apply (R mg kk Hin Hc).
Qed.

Lemma regressFixings_length (data : list (list (list Observation)))
    (remaining : nat) :
  forall i functions,
    regressFixings close QL_EPSILON QL_MAX_REAL QL_MIN_REAL
      GeneralLinearLeastSquares remaining i type nLimits data
    = Ok functions ->
    length functions = remaining.
Proof.
  induction remaining as [|remaining IH]; intros i functions H.
  - injection H as <-. reflexivity.
  - simpl in H.
    apply bind_Ok in H. destruct H as (tmp & _ & H).
    apply bind_Ok in H. destruct H as (r & _ & H).
    apply bind_Ok in H. destruct H as (rest & Hrest & H).
    injection H as <-. simpl. rewrite (IH _ _ Hrest). reflexivity.
Qed.

End Surface.

(** X10.  After a regression that finished for all open fixings, the grid
    of proxy functions has one row per open fixing and one function in
    every cell: with [nLimits >= 1] buckets per fixing index, no
    [functions[i][kk]] is left a null pointer. *)
Theorem proxy_grid_complete
    (close : Real -> Real -> bool)
    (QL_EPSILON QL_MAX_REAL QL_MIN_REAL : Real)
    (GeneralLinearLeastSquares : list Real -> list Real -> Real * Real * Real)
    (type : OptionType) (openFixings nLimits : nat)
    (data : list (list (list Observation)))
    (functions : list (list (option QuadraticProxyFunction))) :
  (0 < nLimits)%nat ->
  (forall i tmp, (i < openFixings)%nat -> at_ data i = Ok tmp ->
     length tmp = nLimits) ->
  proxyFunctions close QL_EPSILON QL_MAX_REAL QL_MIN_REAL
    GeneralLinearLeastSquares type openFixings nLimits data = Ok functions ->
  length functions = openFixings
  /\ forall i kk, (i < openFixings)%nat -> (kk < nLimits)%nat ->
       exists row fct,
         nth_error functions i = Some row
         /\ length row = nLimits
         /\ nth_error row kk = Some (Some fct).
Proof.
  intros Hn Hshape H. unfold proxyFunctions in H. split.
  - apply (regressFixings_length close QL_EPSILON QL_MAX_REAL QL_MIN_REAL
             GeneralLinearLeastSquares type nLimits data openFixings 0
             functions H).
  - intros i kk Hi Hkk.
    destruct (regressFixings_Ok close QL_EPSILON QL_MAX_REAL QL_MIN_REAL
                GeneralLinearLeastSquares type nLimits data openFixings
                0 functions H i Hi)
      as (tmp & row & groups & Hat & Hfix & Hrow).
    simpl in Hat.
    assert (Hlen := Hshape i tmp Hi Hat).
    assert (Hne : tmp <> []) by (intros ->; simpl in Hlen; lia).
    destruct (regressFixing_row_complete close QL_EPSILON QL_MAX_REAL
                QL_MIN_REAL GeneralLinearLeastSquares type nLimits tmp row
                groups Hne (eq_sym Hlen) Hfix) as (L & Hcells).
    destruct (Hcells kk Hkk) as (fct & Hcell).
    exists row, fct. repeat split; assumption.
Qed.

Lemma proxy_grid_complete_witness :
  exists functions,
    Double.proxyFunctions Call 2 5 [sampleBuckets; sampleBuckets]
    = Ok functions
    /\ length functions = 2%nat
    /\ forall i kk, (i < 2)%nat -> (kk < 5)%nat ->
         exists row fct,
           nth_error functions i = Some row
           /\ length row = 5%nat
           /\ nth_error row kk = Some (Some fct).
Proof.
  destruct (Double.proxyFunctions Call 2 5 [sampleBuckets; sampleBuckets])
    as [functions|f] eqn:E; [|vm_compute in E; discriminate].
  exists functions. split; [reflexivity|].
  apply (proxy_grid_complete Double.close Double.QL_EPSILON
           Double.QL_MAX_REAL Double.QL_MIN_REAL
           Double.GeneralLinearLeastSquares Call 2 5
           [sampleBuckets; sampleBuckets] functions); [lia | | exact E].
  intros i tmp Hi Hat.
  destruct i as [|[|i]]; [| |lia]; vm_compute in Hat;
    injection Hat as <-; reflexivity.
Defined.

(** ** Statements on the construction of a group's function *)

Lemma segments_partition (x : list Observation) (cutoff : Real) :
  (length (segment1 x cutoff) + length (segment2 x cutoff))%nat = length x.
Proof.
  unfold segment1, segment2. induction x as [|o t IH]; [reflexivity|].
  simpl. destruct (fst o <=? cutoff); simpl; lia.
Qed.

(** X11.  A merged group of fewer than six observations never gets a proxy
    function: the regression needs three points on each side of the cutoff,
    the constant function of the degenerate case is refused, and an empty
    group is indexed out of range. *)
Theorem fewer_than_six_observations_never_build
    (close : Real -> Real -> bool) (QL_EPSILON QL_MAX_REAL : Real)
    (GeneralLinearLeastSquares : list Real -> list Real -> Real * Real * Real)
    (type : OptionType) (g : Group) :
  close 0 0 = true ->
  (length (xTmp g) < 6)%nat ->
  isOk (buildProxyFunction close QL_EPSILON QL_MAX_REAL
          GeneralLinearLeastSquares type g) = false.
Proof.
  intros Hclose Hsize.
  destruct (buildProxyFunction close QL_EPSILON QL_MAX_REAL
              GeneralLinearLeastSquares type g) as [fct|f] eqn:E;
    [|reflexivity].
  exfalso.
  destruct (built_group_regular close QL_EPSILON QL_MAX_REAL
              GeneralLinearLeastSquares type g fct Hclose E)
    as (_ & rc & _ & H1 & H2).
  assert (P := segments_partition (xTmp g) (snd rc)). lia.
Qed.

Lemma fewer_than_six_observations_never_build_witness :
  isOk (Double.buildProxyFunction Put fourPoints) = false.
Proof.
  apply (fewer_than_six_observations_never_build Double.close
           Double.QL_EPSILON Double.QL_MAX_REAL
           Double.GeneralLinearLeastSquares Put fourPoints eq_refl).
  vm_compute. lia.
Defined.

(** X12.  A proxy function the engine has built has the option type it was
    asked for and the cutoff the shrinking loop ended with.  For a call its
    lower cutoff is at most the cutoff; for a put its lower cutoff is equal
    to the cutoff, because the engine takes the smaller of the percentile
    spot and the cutoff while the constructor wants it at least as large as
    the cutoff. *)
Theorem built_function_cutoffs
    (close : Real -> Real -> bool) (QL_EPSILON QL_MAX_REAL : Real)
    (GeneralLinearLeastSquares : list Real -> list Real -> Real * Real * Real)
    (type : OptionType) (g : Group) (fct : QuadraticProxyFunction) :
  close 0 0 = true ->
  buildProxyFunction close QL_EPSILON QL_MAX_REAL
    GeneralLinearLeastSquares type g = Ok fct ->
  type_ fct = type
  /\ (exists rc,
        finalCutoff (isCallType type) g = Ok rc /\ cutoff_ fct = snd rc)
  /\ match type with
     | Call => lowerCutoff_ fct <= cutoff_ fct
     | Put => lowerCutoff_ fct == cutoff_ fct
     end.
Proof.
  intros Hclose Hb.
  destruct (built_group_regular close QL_EPSILON QL_MAX_REAL
              GeneralLinearLeastSquares type g fct Hclose Hb)
    as (Hdeg & _).
  unfold buildProxyFunction in Hb.
  apply bind_Ok in Hb. destruct Hb as (rc & Hrc & Hb).
  apply bind_Ok in Hb. destruct Hb as (lc & _ & Hb).
  apply bind_Ok in Hb. destruct Hb as (cmin & _ & Hb).
  apply bind_Ok in Hb. destruct Hb as (cmax & _ & Hb).
  rewrite Hdeg in Hb.
  apply bind_Ok in Hb. destruct Hb as (u1 & _ & Hb).
  apply bind_Ok in Hb. destruct Hb as (u2 & _ & Hb).
  destruct (regress GeneralLinearLeastSquares
              (segment1 (xTmp g) (snd rc))) as ((c1 & b1) & a1).
  destruct (regress GeneralLinearLeastSquares
              (segment2 (xTmp g) (snd rc))) as ((c2 & b2) & a2).
  assert (Hside : cutoffSideOk type (std_min lc (snd rc)) (snd rc)).
  { assert (E : isOk (newQuadraticProxyFunction close type (snd rc)
                        a1 b1 c1 a2 b2 c2 (std_min lc (snd rc)) cmin cmax)
                = true) by (rewrite Hb; reflexivity).
    apply constructor_Ok_iff in E. apply E. }
  apply constructor_fields in Hb. destruct Hb as (e1 & e2 & _ & _ & ->).
  cbn [type_ cutoff_ lowerCutoff_].
  split; [reflexivity|]. split; [exists rc; split; [exact Hrc | reflexivity]|].
  destruct (std_min_cases lc (snd rc)) as [(L & E)|(L & E)];
    rewrite E in *; destruct type; unfold cutoffSideOk in Hside; lra.
Qed.

Lemma built_function_cutoffs_witness :
  exists fct,
    Double.buildProxyFunction Put tenPoints = Ok fct
    /\ type_ fct = Put
    /\ lowerCutoff_ fct == cutoff_ fct.
Proof.
  destruct (Double.buildProxyFunction Put tenPoints) as [fct|f] eqn:E;
    [|vm_compute in E; discriminate].
  exists fct. split; [reflexivity|].
  destruct (built_function_cutoffs Double.close Double.QL_EPSILON
              Double.QL_MAX_REAL Double.GeneralLinearLeastSquares
              Put tenPoints fct eq_refl E) as (A & _ & C).
  split; assumption.
Defined.

(** ** Double precision: rounding is monotone *)

(** *** Rounding to an integer *)
Lemma roundHalfEven_floor (x : Q) :
  Binary64.roundHalfEven x = Qfloor x
  \/ Binary64.roundHalfEven x = (Qfloor x + 1)%Z.
Proof.
  unfold Binary64.roundHalfEven.
  destruct (Qcompare (x - inject_Z (Qfloor x)) (1 # 2)); [|auto|auto].
  destruct (Z.even (Qfloor x)); auto.
Qed.

Lemma roundHalfEven_Z (n : Z) : Binary64.roundHalfEven (inject_Z n) = n.
Proof.
  unfold Binary64.roundHalfEven. rewrite Qfloor_Z.
  assert (E : inject_Z n - inject_Z n == 0) by ring.
  destruct (Qcompare (inject_Z n - inject_Z n) (1 # 2)) eqn:C; try reflexivity.
  - apply Qeq_alt in C. rewrite E in C. discriminate.
  - apply Qgt_alt in C. rewrite E in C. discriminate.
Qed.

Lemma roundHalfEven_comp (x y : Q) :
  x == y -> Binary64.roundHalfEven x = Binary64.roundHalfEven y.
Proof.
  intro H. unfold Binary64.roundHalfEven. rewrite (Qfloor_comp _ _ H).
  assert (E : x - inject_Z (Qfloor y) == y - inject_Z (Qfloor y))
    by (rewrite H; reflexivity).
  rewrite (Qcompare_comp _ _ E _ _ (Qeq_refl (1 # 2))). reflexivity.
Qed.

Lemma roundHalfEven_monotone (x y : Q) :
  x <= y -> (Binary64.roundHalfEven x <= Binary64.roundHalfEven y)%Z.
Proof.
  intro H.
  assert (F := Qfloor_resp_le _ _ H).
  destruct (Z.eq_dec (Qfloor x) (Qfloor y)) as [E|E].
  - unfold Binary64.roundHalfEven. rewrite E.
    destruct (Qcompare (x - inject_Z (Qfloor y)) (1 # 2)) eqn:Cx;
      destruct (Qcompare (y - inject_Z (Qfloor y)) (1 # 2)) eqn:Cy;
      try (destruct (Z.even (Qfloor y))); try lia;
      repeat match goal with
      | C : (_ ?= _) = Eq |- _ => apply Qeq_alt in C
      | C : (_ ?= _) = Lt |- _ => apply Qlt_alt in C
      | C : (_ ?= _) = Gt |- _ => apply Qgt_alt in C
      end; exfalso; lra.
  - destruct (roundHalfEven_floor x) as [-> | ->];
      destruct (roundHalfEven_floor y) as [-> | ->]; lia.
Qed.

(** *** Powers of two and binades *)
Lemma pow2_pos (e : Z) : 0 < 2 ^ e.
Proof. apply Qpower_0_lt. reflexivity. Qed.

Lemma pow2_plus (a b : Z) : 2 ^ (a + b) == 2 ^ a * 2 ^ b.
Proof. apply Qpower_plus. discriminate. Qed.

Lemma pow2_succ (a : Z) : 2 ^ (a + 1) == 2 * 2 ^ a.
Proof. rewrite pow2_plus. change (2 ^ 1) with 2. ring. Qed.

Lemma pow2_Z (k : Z) : (0 <= k)%Z -> inject_Z (2 ^ k) == 2 ^ k.
Proof. intro H. apply (Zpower_Qpower 2 k H). Qed.

Lemma pow2_le (a b : Z) : (a <= b)%Z -> 2 ^ a <= 2 ^ b.
Proof. intro H. apply Qpower_le_compat_l; [exact H | discriminate]. Qed.

Lemma pow2_cancel (a : Z) : 2 ^ a * 2 ^ (- a) == 1.
Proof. rewrite <- pow2_plus. rewrite Z.add_opp_diag_r. reflexivity. Qed.

Lemma binade_spec (x : Q) :
  0 < x -> 2 ^ Binary64.binade x <= x /\ x < 2 ^ (Binary64.binade x + 1).
Proof.
  intro Hx. destruct x as [n d]. unfold Binary64.binade. cbv zeta.
  cbn [Qnum Qden].
  assert (Hn : (0 < n)%Z) by (unfold Qlt in Hx; simpl in Hx; lia).
  set (a := Z.log2 n). set (c := Z.log2 (Z.pos d)).
  assert (Ha := Z.log2_spec n Hn). fold a in Ha.
  assert (Hc := Z.log2_spec (Z.pos d) (Pos2Z.is_pos d)). fold c in Hc.
  assert (Ha0 : (0 <= a)%Z) by apply Z.log2_nonneg.
  assert (Hc0 : (0 <= c)%Z) by apply Z.log2_nonneg.
  assert (E : (n # d) * inject_Z (Z.pos d) == inject_Z n)
    by (rewrite (Qmake_Qdiv n d); field; discriminate).
  assert (A1 : 2 ^ a <= inject_Z n)
    by (rewrite <- pow2_Z by exact Ha0; rewrite <- Zle_Qle; lia).
  assert (A2 : inject_Z n < 2 * 2 ^ a).
  { rewrite <- pow2_succ, <- pow2_Z by lia. rewrite <- Zlt_Qlt.
    replace (a + 1)%Z with (Z.succ a) by lia. lia. }
  assert (C1 : 2 ^ c <= inject_Z (Z.pos d))
    by (rewrite <- pow2_Z by exact Hc0; rewrite <- Zle_Qle; lia).
  assert (C2 : inject_Z (Z.pos d) < 2 * 2 ^ c).
  { rewrite <- pow2_succ, <- pow2_Z by lia. rewrite <- Zlt_Qlt.
    replace (c + 1)%Z with (Z.succ c) by lia. lia. }
  assert (K : 2 ^ (a - c) * 2 ^ c == 2 ^ a)
    by (rewrite <- pow2_plus; replace (a - c + c)%Z with a by lia;
        reflexivity).
  assert (K1 : 2 ^ (a - c - 1) * 2 == 2 ^ (a - c)).
  { replace (a - c)%Z with (a - c - 1 + 1)%Z at 2 by lia.
    rewrite pow2_succ. ring. }
  assert (K2 : 2 ^ (a - c + 1) == 2 * 2 ^ (a - c)) by apply pow2_succ.
  assert (P := pow2_pos (a - c)). assert (Pc := pow2_pos c).
  assert (Pa := pow2_pos a). assert (P1 := pow2_pos (a - c - 1)).
  destruct (Qle_bool (2 ^ (a - c)) (n # d)) eqn:B;
    [apply Qle_bool_iff in B
    | assert (B' : n # d < 2 ^ (a - c))
        by (apply Qnot_le_lt; intro L; apply Qle_bool_iff in L; congruence);
      clear B; replace (a - c - 1 + 1)%Z with (a - c)%Z by lia];
    set (p := 2 ^ (a - c)) in *; clearbody p;
    set (p1 := 2 ^ (a - c - 1)) in *; clearbody p1;
    set (p2 := 2 ^ (a - c + 1)) in *; clearbody p2;
    set (pc := 2 ^ c) in *; clearbody pc;
    set (pa := 2 ^ a) in *; clearbody pa;
    set (D := inject_Z (Z.pos d)) in *; clearbody D;
    set (N := inject_Z n) in *; clearbody N;
    set (x := n # d) in *; clearbody x.
  - split; [exact B|].
    apply Qnot_le_lt. intro L.
    assert (2 * p * pc <= x * D)
      by (apply Qmult_le_compat_nonneg; split; lra).
    lra.
  - split; [|exact B'].
    apply Qnot_lt_le. intro L.
    assert (x * D <= p1 * D)
      by (apply Qmult_le_compat_r; lra).
    assert (p1 * D < p1 * (2 * pc))
      by (rewrite !(Qmult_comm p1); apply Qmult_lt_compat_r; lra).
    assert (p1 * (2 * pc) == pa) by (rewrite <- K, <- K1; ring).
    lra.
Qed.

Lemma pow2_lt_inv (a b : Z) : 2 ^ a < 2 ^ b -> (a < b)%Z.
Proof. intro H. apply (Qpower_lt_compat_l_inv 2); [exact H | reflexivity]. Qed.

Lemma binade_monotone (x y : Q) :
  0 < x -> x <= y -> (Binary64.binade x <= Binary64.binade y)%Z.
Proof.
  intros Hx H.
  destruct (binade_spec x Hx) as (A & _).
  destruct (binade_spec y) as (_ & B); [lra|].
  assert (L : 2 ^ Binary64.binade x < 2 ^ (Binary64.binade y + 1)) by lra.
  apply pow2_lt_inv in L. lia.
Qed.

Lemma exponent_monotone (x y : Q) :
  0 < x -> x <= y -> (Binary64.exponent x <= Binary64.exponent y)%Z.
Proof.
  intros Hx H. unfold Binary64.exponent.
  assert (B := binade_monotone x y Hx H). lia.
Qed.

Lemma exponent_min (x : Q) : (-1074 <= Binary64.exponent x)%Z.
Proof. unfold Binary64.exponent. lia. Qed.

(** rounding and the grid of an Binary64.exponent *)
Lemma scale_grid (n k e : Z) :
  (e <= k)%Z ->
  inject_Z n * 2 ^ k * 2 ^ (- e) == inject_Z (n * 2 ^ (k - e)).
Proof.
  intro H. rewrite inject_Z_mult, pow2_Z by lia.
  replace (k - e)%Z with (k + - e)%Z by lia. rewrite pow2_plus. ring.
Qed.

Lemma unscale_grid (n k e : Z) :
  (e <= k)%Z ->
  inject_Z (n * 2 ^ (k - e)) * 2 ^ e == inject_Z n * 2 ^ k.
Proof.
  intro H. rewrite inject_Z_mult, pow2_Z by lia.
  replace k with (k - e + e)%Z at 2 by lia. rewrite pow2_plus. ring.
Qed.

Lemma roundPositive_le_grid (x : Q) (n k : Z) :
  x <= inject_Z n * 2 ^ k -> (Binary64.exponent x <= k)%Z ->
  Binary64.roundPositive x <= inject_Z n * 2 ^ k.
Proof.
  intros H He. unfold Binary64.roundPositive. cbv zeta.
  set (e := Binary64.exponent x) in *.
  assert (S : x * 2 ^ (- e) <= inject_Z (n * 2 ^ (k - e))).
  { rewrite <- scale_grid by exact He.
    apply Qmult_le_compat_r; [exact H | apply Qlt_le_weak, pow2_pos]. }
  apply roundHalfEven_monotone in S. rewrite roundHalfEven_Z in S.
  rewrite <- (unscale_grid n k e He).
  apply Qmult_le_compat_r; [|apply Qlt_le_weak, pow2_pos].
  rewrite <- Zle_Qle. exact S.
Qed.

Lemma roundPositive_ge_grid (x : Q) (n k : Z) :
  inject_Z n * 2 ^ k <= x -> (Binary64.exponent x <= k)%Z ->
  inject_Z n * 2 ^ k <= Binary64.roundPositive x.
Proof.
  intros H He. unfold Binary64.roundPositive. cbv zeta.
  set (e := Binary64.exponent x) in *.
  assert (S : inject_Z (n * 2 ^ (k - e)) <= x * 2 ^ (- e)).
  { rewrite <- scale_grid by exact He.
    apply Qmult_le_compat_r; [exact H | apply Qlt_le_weak, pow2_pos]. }
  apply roundHalfEven_monotone in S. rewrite roundHalfEven_Z in S.
  rewrite <- (unscale_grid n k e He).
  apply Qmult_le_compat_r; [|apply Qlt_le_weak, pow2_pos].
  rewrite <- Zle_Qle. exact S.
Qed.

Lemma roundPositive_nonneg (x : Q) : 0 <= x -> 0 <= Binary64.roundPositive x.
Proof.
  intro H.
  assert (G := roundPositive_ge_grid x 0 (Binary64.exponent x)).
  rewrite Qmult_0_l in G. apply G; [exact H | lia].
Qed.

Lemma roundPositive_monotone (x y : Q) :
  0 < x -> x <= y -> Binary64.roundPositive x <= Binary64.roundPositive y.
Proof.
  intros Hx H.
  assert (He := exponent_monotone x y Hx H).
  destruct (Z.eq_dec (Binary64.exponent x) (Binary64.exponent y)) as [E|E].
  - unfold Binary64.roundPositive. cbv zeta. rewrite E.
    apply Qmult_le_compat_r; [|apply Qlt_le_weak, pow2_pos].
    rewrite <- Zle_Qle. apply roundHalfEven_monotone.
    apply Qmult_le_compat_r; [exact H | apply Qlt_le_weak, pow2_pos].
  - destruct (binade_spec x Hx) as (_ & Bx).
    destruct (binade_spec y) as (By & _); [lra|].
    assert (Ey : Binary64.exponent y = (Binary64.binade y - 52)%Z)
      by (unfold Binary64.exponent in *; lia).
    assert (Exy : (Binary64.binade x + 1 <= Binary64.binade y)%Z)
      by (unfold Binary64.exponent in *; lia).
    set (u := Z.max (Binary64.binade x + 1) (Binary64.exponent x)).
    assert (U : Binary64.roundPositive x <= inject_Z 1 * 2 ^ u).
    { apply roundPositive_le_grid; [|unfold u; lia].
      rewrite Qmult_1_l.
      apply Qle_trans with (2 ^ (Binary64.binade x + 1)); [lra|].
      apply pow2_le. unfold u. lia. }
    assert (L : inject_Z 1 * 2 ^ Binary64.binade y <= Binary64.roundPositive y).
    { apply roundPositive_ge_grid; [rewrite Qmult_1_l; exact By | lia]. }
    rewrite Qmult_1_l in U, L.
    assert (M : 2 ^ u <= 2 ^ Binary64.binade y)
      by (apply pow2_le; unfold u; lia).
    lra.
Qed.

Lemma round_zero (x : Q) : x == 0 -> Binary64.round x = 0.
Proof.
  intro H. unfold Binary64.round.
  destruct (Qcompare x 0) eqn:C; [reflexivity| |].
  - apply Qlt_alt in C. lra.
  - apply Qgt_alt in C. lra.
Qed.

Lemma round_positive (x : Q) :
  0 < x -> Binary64.round x = Binary64.roundPositive x.
Proof.
  intro H. unfold Binary64.round.
  destruct (Qcompare x 0) eqn:C; [| |reflexivity].
  - apply Qeq_alt in C. lra.
  - apply Qlt_alt in C. lra.
Qed.

Lemma round_negative (x : Q) :
  x < 0 -> Binary64.round x = - Binary64.roundPositive (- x).
Proof.
  intro H. unfold Binary64.round.
  destruct (Qcompare x 0) eqn:C; [|reflexivity|].
  - apply Qeq_alt in C. lra.
  - apply Qgt_alt in C. lra.
Qed.

Lemma round_nonneg (x : Q) : 0 <= x -> 0 <= Binary64.round x.
Proof.
  intro H. destruct (Qlt_le_dec 0 x) as [P|P].
  - rewrite round_positive by exact P.
    apply roundPositive_nonneg, H.
  - rewrite round_zero by lra. apply Qle_refl.
Qed.

Lemma round_monotone (x y : Q) : x <= y -> Binary64.round x <= Binary64.round y.
Proof.
  intro H.
  destruct (Qlt_le_dec 0 x) as [Px|Px].
  - rewrite (round_positive x Px), (round_positive y) by lra.
    apply roundPositive_monotone; assumption.
  - destruct (Qlt_le_dec x 0) as [Nx|Nx].
    + rewrite (round_negative x Nx).
      assert (0 <= Binary64.roundPositive (- x))
        by (apply roundPositive_nonneg; lra).
      destruct (Qlt_le_dec y 0) as [Ny|Ny].
      * rewrite (round_negative y Ny).
        assert (Binary64.roundPositive (- y) <= Binary64.roundPositive (- x))
          by (apply roundPositive_monotone; lra).
        lra.
      * assert (0 <= Binary64.round y) by (apply round_nonneg; exact Ny). lra.
    + rewrite (round_zero x) by lra. apply round_nonneg. lra.
Qed.

Lemma round_comp (x y : Q) : x == y -> Binary64.round x == Binary64.round y.
Proof.
  intro H. apply Qle_antisym; apply round_monotone; rewrite H; apply Qle_refl.
Qed.

(** doubles lie on the grid of the smallest Binary64.exponent *)
Lemma roundPositive_grid (x : Q) :
  exists m, Binary64.roundPositive x == inject_Z m * 2 ^ (-1074).
Proof.
  unfold Binary64.roundPositive. cbv zeta.
  exists (Binary64.roundHalfEven (x * 2 ^ (- Binary64.exponent x))
          * 2 ^ (Binary64.exponent x - -1074))%Z.
  rewrite unscale_grid by apply exponent_min. reflexivity.
Qed.

Lemma double_grid (x : Q) :
  Binary64.is_double x -> exists m, x == inject_Z m * 2 ^ (-1074).
Proof.
  unfold Binary64.is_double. intro H.
  destruct (Qlt_le_dec 0 x) as [P|P].
  - rewrite (round_positive x P) in H.
    destruct (roundPositive_grid x) as (m & Hm).
    exists m. rewrite <- H. exact Hm.
  - destruct (Qlt_le_dec x 0) as [N|N].
    + rewrite (round_negative x N) in H.
      destruct (roundPositive_grid (- x)) as (m & Hm).
      exists (- m)%Z. rewrite <- H, Hm, inject_Z_opp. ring.
    + exists 0%Z. rewrite Qmult_0_l. lra.
Qed.

Lemma floor_grid_le (t : Q) (e : Z) :
  inject_Z (Qfloor (t * 2 ^ (- e))) * 2 ^ e <= t.
Proof.
  assert (F := Qfloor_le (t * 2 ^ (- e))).
  assert (t == t * 2 ^ (- e) * 2 ^ e).
  { rewrite <- Qmult_assoc, (Qmult_comm (2 ^ (- e))), pow2_cancel. ring. }
  rewrite H at 2.
  apply Qmult_le_compat_r; [exact F | apply Qlt_le_weak, pow2_pos].
Qed.

Lemma floor_normal (t : Q) :
  0 < t -> Binary64.exponent t <> (-1074)%Z ->
  (2 ^ 52 <= Qfloor (t * 2 ^ (- Binary64.exponent t)))%Z.
Proof.
  intros Ht E.
  assert (Ee : Binary64.exponent t = (Binary64.binade t - 52)%Z)
    by (unfold Binary64.exponent in *; lia).
  destruct (binade_spec t Ht) as (B & _).
  rewrite <- (Qfloor_Z (2 ^ 52)). apply Qfloor_resp_le.
  rewrite pow2_Z by lia. rewrite Ee.
  replace 52%Z with (Binary64.binade t + - (Binary64.binade t - 52))%Z
    at 1 by lia.
  rewrite pow2_plus.
  apply Qmult_le_compat_r; [exact B | apply Qlt_le_weak, pow2_pos].
Qed.

(** A fraction [rel] of the rounded difference of two doubles stays within
    their difference. *)
Lemma mul_sub_within (lo hi rel : Q) :
  Binary64.is_double lo -> Binary64.is_double hi -> lo <= hi ->
  0 <= rel -> rel <= 1 - 2 ^ (-52) ->
  0 <= Binary64.mul rel (Binary64.sub hi lo)
  /\ Binary64.mul rel (Binary64.sub hi lo) <= hi - lo.
Proof.
  intros Dlo Dhi H R0 R1. unfold Binary64.mul, Binary64.sub.
  assert (S0 : 0 <= Binary64.round (hi - lo)) by (apply round_nonneg; lra).
  split.
  { apply round_nonneg. apply Qmult_le_0_compat; assumption. }
  destruct (Qlt_le_dec 0 (hi - lo)) as [Ht|Ht].
  2:{ rewrite (round_zero (hi - lo)) by lra.
      rewrite (round_zero (rel * 0)) by ring. lra. }
  set (t := hi - lo) in *.
  set (e := Binary64.exponent t).
  set (F := Qfloor (t * 2 ^ (- e))).
  assert (HD : inject_Z F * 2 ^ e <= t) by apply floor_grid_le.
  assert (F0 : (0 <= F)%Z).
  { unfold F. rewrite <- (Qfloor_Z 0). apply Qfloor_resp_le.
    apply Qmult_le_0_compat; [lra | apply Qlt_le_weak, pow2_pos]. }
  assert (P := pow2_pos e).
  assert (small : (1 # 1) - 2 ^ (-52) <= 1) by (vm_compute; discriminate).
  assert (V : rel * Binary64.round t <= inject_Z F * 2 ^ e).
  { rewrite (round_positive t Ht). unfold Binary64.roundPositive. cbv zeta.
    fold e. fold F.
    destruct (roundHalfEven_floor (t * 2 ^ (- e))) as [-> | Hup].
    - fold F.
      assert (0 <= inject_Z F * 2 ^ e).
      { apply Qmult_le_0_compat; [|lra]. rewrite <- (Zle_Qle 0). exact F0. }
      assert ((1 - rel) * (inject_Z F * 2 ^ e) >= 0)
        by (apply Qmult_le_0_compat; lra).
      lra.
    - destruct (Z.eq_dec e (-1074)) as [E|E].
      + exfalso.
        destruct (double_grid lo Dlo) as (ml & Hl).
        destruct (double_grid hi Dhi) as (mh & Hh).
        assert (G : t == inject_Z (mh - ml) * 2 ^ (-1074)).
        { unfold t. rewrite Hl, Hh. unfold Zminus.
          rewrite inject_Z_plus, inject_Z_opp. ring. }
        assert (S : t * 2 ^ (- e) == inject_Z (mh - ml)).
        { rewrite E, G, <- Qmult_assoc, pow2_cancel. ring. }
        rewrite (roundHalfEven_comp _ _ S), roundHalfEven_Z in Hup.
        unfold F in Hup. rewrite (Qfloor_comp _ _ S), Qfloor_Z in Hup. lia.
      + rewrite Hup. fold F.
        assert (N := floor_normal t Ht E). fold e in N. fold F in N.
        rewrite inject_Z_plus.
        assert (N' : 2 ^ 52 <= inject_Z F).
        { rewrite <- pow2_Z by lia. rewrite <- Zle_Qle. exact N. }
        change (2 ^ 52) with (4503599627370496 # 1) in N'.
        change (2 ^ (-52)) with (1 # 4503599627370496) in R1.
        change (inject_Z 1) with 1.
        assert (rel * (inject_Z F + 1) <= inject_Z F).
        { assert (0 <= (1 - (1 # 4503599627370496) - rel)
                       * (inject_Z F + 1))
            by (apply Qmult_le_0_compat; lra).
          lra. }
        rewrite Qmult_assoc.
        apply Qmult_le_compat_r; [assumption | lra]. }
  destruct (Qlt_le_dec 0 (rel * Binary64.round t)) as [Pv|Pv].
  - rewrite (round_positive _ Pv).
    apply Qle_trans with (inject_Z F * 2 ^ e); [|exact HD].
    apply roundPositive_le_grid; [exact V|].
    apply exponent_monotone; [exact Pv | lra].
  - rewrite round_zero; [lra|].
    assert (0 <= rel * Binary64.round t)
      by (apply Qmult_le_0_compat; assumption).
    lra.
Qed.

(** ** Where the cutoff ends up *)

Lemma relCutoffAfter_S (isCall : bool) (k : nat) :
  relCutoffAfter isCall (S k) = shrink isCall (relCutoffAfter isCall k).
Proof. reflexivity. Qed.

(** The relative cutoffs the loop can reach, checked one by one: a call
    stays above 0.495 and never exceeds its initial value, a put stays
    below 0.506 and never falls below its initial value. *)
Lemma relCutoff_call_bounds (k : nat) :
  (k <= 47)%nat ->
  (495 # 1000) < relCutoffAfter true k /\ relCutoffAfter true k <= relCutoff.
Proof.
  intro Hk.
  assert (H : forallb
                (fun j =>
                   ((495 # 1000) <? relCutoffAfter true j)
                   && (relCutoffAfter true j <=? relCutoff))
                (seq 0 48) = true) by (vm_compute; reflexivity).
  rewrite forallb_forall in H.
  assert (I : In k (seq 0 48)) by (apply in_seq; lia).
  apply H in I. apply andb_true_iff in I. destruct I as (A & B).
  split; [apply Qltb_true; exact A | apply Qleb_true; exact B].
Qed.

Lemma relCutoff_put_bounds (k : nat) :
  (k <= 92)%nat ->
  initialRelCutoff false <= relCutoffAfter false k
  /\ relCutoffAfter false k < (506 # 1000).
Proof.
  intro Hk.
  assert (H : forallb
                (fun j =>
                   (initialRelCutoff false <=? relCutoffAfter false j)
                   && (relCutoffAfter false j <? (506 # 1000)))
                (seq 0 93) = true) by (vm_compute; reflexivity).
  rewrite forallb_forall in H.
  assert (I : In k (seq 0 93)) by (apply in_seq; lia).
  apply H in I. apply andb_true_iff in I. destruct I as (A & B).
  split; [apply Qleb_true; exact A | apply Qltb_true; exact B].
Qed.

Lemma continuing_mayShrink (isCall : bool) (g : Group) (j : nat) :
  continuing isCall g j = true ->
  mayShrink isCall (relCutoffAfter isCall j) = true.
Proof. unfold continuing. intro H. apply andb_true_iff in H. apply H. Qed.

(** Between two doubles the cutoff of a relative cutoff in [0, 1) lies
    between them, the rounding of the three operations included. *)
Lemma cutoffAt_between (lo hi rel : Real) :
  Binary64.is_double lo -> Binary64.is_double hi -> lo <= hi ->
  0 <= rel -> rel <= 1 - 2 ^ (-52) ->
  lo <= cutoffAt lo hi rel /\ cutoffAt lo hi rel <= hi.
Proof.
  intros Dlo Dhi H R0 R1. unfold cutoffAt, Binary64.add.
  destruct (mul_sub_within lo hi rel Dlo Dhi H R0 R1) as (P0 & P1).
  unfold Binary64.is_double in Dlo, Dhi.
  split.
  - rewrite <- Dlo at 1. apply round_monotone. lra.
  - rewrite <- Dhi at 2. apply round_monotone. lra.
Qed.

Lemma cutoffAt_monotone (lo hi rel rel' : Real) :
  lo <= hi -> rel <= rel' -> cutoffAt lo hi rel <= cutoffAt lo hi rel'.
Proof.
  intros H Hr. unfold cutoffAt, Binary64.add, Binary64.mul, Binary64.sub.
  assert (D : 0 <= Binary64.round (hi - lo)) by (apply round_nonneg; lra).
  apply round_monotone.
  assert (Binary64.round (rel * Binary64.round (hi - lo))
          <= Binary64.round (rel' * Binary64.round (hi - lo)))
    by (apply round_monotone, Qmult_le_compat_r; assumption).
  lra.
Qed.

(** X13.  The loop that lowers the cutoff ends with a relative cutoff close
    to where it started or just across one half: in (0.495, 0.8] for a
    call and in [0.2, 0.506) for a put, where 0.8 and 0.2 stand for the
    initial values, the doubles 0.8 and 1.0 - 0.8.  With
    [spotMin <= spotMax], both of them doubles, the cutoff therefore lies
    between them, at or below the initial cutoff for a call and at or above
    it for a put, the rounding of the cutoff included. *)
Theorem final_cutoff_within_range (isCall : bool) (g : Group) :
  exists rel cutoff,
    finalCutoff isCall g = Ok (rel, cutoff)
    /\ cutoff = cutoffAt (spotMin g) (spotMax g) rel
    /\ (if isCall
        then (495 # 1000) < rel /\ rel <= relCutoff
        else 1 - relCutoff <= rel /\ rel < (506 # 1000))
    /\ Qabs (relCutoff - (80 # 100)) < 1 # 10 ^ 16
    /\ (spotMin g <= spotMax g ->
        Binary64.is_double (spotMin g) -> Binary64.is_double (spotMax g) ->
        spotMin g <= cutoff /\ cutoff <= spotMax g
        /\ if isCall
           then cutoff <= cutoffAt (spotMin g) (spotMax g) relCutoff
           else cutoffAt (spotMin g) (spotMax g) (Binary64.sub 1 relCutoff)
                <= cutoff).
Proof.
  destruct (finalCutoff_runs isCall g) as (k & Hk & Hrun & _ & _).
  exists (relCutoffAfter isCall k),
         (cutoffAt (spotMin g) (spotMax g) (relCutoffAfter isCall k)).
  split; [exact Hrun|]. split; [reflexivity|].
  assert (U : relCutoff <= 1 - 2 ^ (-52))
    by (apply Qleb_true; vm_compute; reflexivity).
  assert (L : 0 <= initialRelCutoff false)
    by (apply Qleb_true; vm_compute; reflexivity).
  assert (E : initialRelCutoff false == 1 - relCutoff)
    by (vm_compute; reflexivity).
  assert (S : (506 # 1000) <= 1 - 2 ^ (-52))
    by (apply Qleb_true; vm_compute; reflexivity).
  destruct isCall.
  - destruct (relCutoff_call_bounds k Hk) as (Hlo & Hup).
    split; [split; assumption|].
    split; [vm_compute; reflexivity|].
    intros Hrange Dlo Dhi.
    destruct (cutoffAt_between (spotMin g) (spotMax g)
                (relCutoffAfter true k) Dlo Dhi Hrange) as (A & B);
      try lra.
    split; [exact A|]. split; [exact B|].
    apply cutoffAt_monotone; [exact Hrange | exact Hup].
  - destruct (relCutoff_put_bounds k Hk) as (Hlo & Hup).
    split; [split; lra|].
    split; [vm_compute; reflexivity|].
    intros Hrange Dlo Dhi.
    destruct (cutoffAt_between (spotMin g) (spotMax g)
                (relCutoffAfter false k) Dlo Dhi Hrange) as (A & B);
      try lra.
    split; [exact A|]. split; [exact B|].
    apply cutoffAt_monotone; [exact Hrange | exact Hlo].
Qed.

(** ** The critical size and the regression sets *)

Lemma upper_bound_le_segment1 (x : list Observation) (cutoff : Real) :
  (upper_bound x (cutoff, 0%Q) <= length (segment1 x cutoff))%nat.
Proof.
  unfold segment1. induction x as [|o t IH]; [simpl; lia|].
  simpl. destruct (pair_ltb (cutoff, 0) o) eqn:E; [lia|].
  assert (L : fst o <= cutoff) by (apply (pair_le_spot o (cutoff, 0)); exact E).
  apply Qleb_true in L. rewrite L. simpl. lia.
Qed.

Lemma upper_bound_le_length (x : list Observation) (v : Observation) :
  (upper_bound x v <= length x)%nat.
Proof.
  induction x as [|o t IH]; [simpl; lia|].
  simpl. destruct (pair_ltb v o); simpl; lia.
Qed.

Lemma pair_lt_le_trans (v o o' : Observation) :
  pair_ltb v o = true -> pair_le o o' -> pair_ltb v o' = true.
Proof.
  rewrite !pair_lt_iff, pair_le_iff. intros [A|(A & B)] (C & D).
  - left. lra.
  - destruct D as [D|D]; [left; lra | right; split; lra].
Qed.

(** On a sorted range the position found is the number of elements that
    are not greater than the value. *)
Lemma upper_bound_counts (x : list Observation) (v : Observation) :
  ascending x ->
  upper_bound x v
  = length (filter (fun o => negb (pair_ltb v o)) x).
Proof.
  induction x as [|o t IH]; intro H; [reflexivity|].
  simpl. destruct (pair_ltb v o) eqn:E; simpl.
  - assert (Z : Forall (fun o' => pair_ltb v o' = true) t).
    { apply (Forall_impl _ (P := pair_le o)).
      - intros o' Ho'. apply (pair_lt_le_trans v o o' E Ho').
      - apply ascending_head. exact H. }
    clear IH H. induction t as [|o' t' IHt]; [reflexivity|].
    inversion Z as [|? ? Ho' Zt]; subst. simpl. rewrite Ho'. simpl.
    apply IHt. exact Zt.
  - f_equal. apply IH. apply (ascending_tail o t H).
Qed.

(** X14.  On sorted data the size [sizeA] that the loop reads off
    [std::upper_bound] is the number of observations not greater than
    [(cutoff, 0.0)] as pairs, while the regression sets are split by the
    spot alone.  So the critical size the loop tests is never smaller than
    the second set for a call, and never larger than the first set for a
    put. *)
Theorem critical_size_and_regression_sets
    (x : list Observation) (cutoff : Real) :
  ascending x ->
  upper_bound x (cutoff, 0)
  = length (filter (fun o => negb (pair_ltb (cutoff, 0) o)) x)
  /\ (length (segment2 x cutoff) <= criticalSize true x cutoff)%nat
  /\ (criticalSize false x cutoff <= length (segment1 x cutoff))%nat.
Proof.
  intro H. split; [apply upper_bound_counts; exact H|].
  unfold criticalSize.
  assert (A := upper_bound_le_segment1 x cutoff).
  assert (P := segments_partition x cutoff).
  split; lia.
Qed.

Lemma critical_size_and_regression_sets_witness :
  upper_bound (xTmp tenPoints) (8, 0) = 7%nat
  /\ (length (segment2 (xTmp tenPoints) 8) <= 3)%nat
  /\ (7 <= length (segment1 (xTmp tenPoints) 8))%nat.
Proof.
  assert (H : ascending (xTmp tenPoints))
    by (repeat (constructor; try reflexivity)).
  destruct (critical_size_and_regression_sets (xTmp tenPoints) 8 H)
    as (A & B & C).
  split; [reflexivity|]. split; [exact B | exact C].
Defined.

(** ** The factory and the time grid *)

Section FactoryFacts.

Variable NullSize : N.
Variable NullReal : Real.
Variable allowsErrorEstimate : bool.
Variable YieldTermStructure : Type.

(** Not both a sample count and a tolerance. *)
Local Abbreviation exclusive m :=
  (mk_samples_ (YieldTermStructure := YieldTermStructure) m = NullSize
   \/ mk_tolerance_ m == NullReal).

Lemma applyParameter_exclusive
    (m m' : MakeMcFxTarfEngine YieldTermStructure) (p : NamedParameter) :
  exclusive m ->
  applyParameter NullSize NullReal allowsErrorEstimate YieldTermStructure m p
  = Ok m' ->
  exclusive m'.
Proof.
  intros Hm H. destruct p as [n|n|n|t]; simpl in H.
  - injection H as <-. exact Hm.
  - injection H as <-. exact Hm.
  - unfold withSamples in H.
    apply bind_Ok in H. destruct H as (u & R & H).
    apply QL_REQUIRE_Ok in R. apply Qeq_bool_iff in R.
    injection H as <-. right. exact R.
  - unfold withAbsoluteTolerance in H.
    apply bind_Ok in H. destruct H as (u & R & H).
    apply QL_REQUIRE_Ok in R. apply N.eqb_eq in R.
    apply bind_Ok in H. destruct H as (u' & _ & H).
    injection H as <-. left. exact R.
Qed.

Lemma applyParameters_exclusive (ps : list NamedParameter) :
  forall m m' : MakeMcFxTarfEngine YieldTermStructure,
    exclusive m ->
    applyParameters NullSize NullReal allowsErrorEstimate YieldTermStructure
      m ps = Ok m' ->
    exclusive m'.
Proof.
  induction ps as [|p rest IH]; intros m m' Hm H; simpl in H.
  - injection H as <-. exact Hm.
  - apply bind_Ok in H. destruct H as (m1 & H1 & H).
    apply (IH m1 m' (applyParameter_exclusive m m1 p Hm H1) H).
Qed.

(** What an engine that was constructed holds. *)
Lemma newMcFxTarfEngine_fields timeSteps timeStepsPerYear brownianBridge
    antitheticVariate requiredSamples requiredTolerance maxSamples seed
    (discount : option YieldTermStructure) generateProxy e :
  newMcFxTarfEngine NullSize timeSteps timeStepsPerYear brownianBridge
    antitheticVariate requiredSamples requiredTolerance maxSamples seed
    discount generateProxy = Ok e ->
  e = {| timeSteps_ := timeSteps;
         timeStepsPerYear_ := timeStepsPerYear;
         requiredSamples_ := requiredSamples;
         maxSamples_ := maxSamples;
         requiredTolerance_ := requiredTolerance;
         brownianBridge_ := brownianBridge;
         antitheticVariate_ := antitheticVariate;
         seed_ := seed;
         discount_ := discount;
         generateProxy_ := generateProxy |}.
Proof.
  unfold newMcFxTarfEngine. intro H.
  repeat (apply bind_Ok in H; destruct H as (? & _ & H)).
  congruence.
Qed.

End FactoryFacts.

(** X15.  An engine made by the factory never carries both a sample count
    and a tolerance: whatever sequence of named parameters was accepted,
    the required samples are the null value or the required tolerance is
    the null value. *)
Theorem factory_engine_samples_or_tolerance
    (NullSize : N) (NullReal : Real) (allowsErrorEstimate : bool)
    (YieldTermStructure : Type)
    (riskFreeRate : option YieldTermStructure) (ps : list NamedParameter)
    (e : McFxTarfEngine YieldTermStructure) :
  makeEngine NullSize NullReal allowsErrorEstimate riskFreeRate ps = Ok e ->
  requiredSamples_ _ e = NullSize \/ requiredTolerance_ _ e == NullReal.
Proof.
  unfold makeEngine. intro H.
  apply bind_Ok in H. destruct H as (m & Hm & H).
  assert (X : mk_samples_ m = NullSize \/ mk_tolerance_ m == NullReal).
  { apply (applyParameters_exclusive NullSize NullReal allowsErrorEstimate
             YieldTermStructure ps
             (newMakeMcFxTarfEngine NullSize NullReal riskFreeRate) m);
      [|exact Hm].
    left. reflexivity. }
  unfold toPricingEngine in H.
  apply bind_Ok in H. destruct H as (u1 & _ & H).
  apply bind_Ok in H. destruct H as (u2 & _ & H).
  apply newMcFxTarfEngine_fields in H. subst e. exact X.
Qed.

Lemma factory_engine_samples_or_tolerance_witness :
  exists e,
    makeEngine Double.NullSize Double.NullReal true (Some tt)
      [WithSteps 10; WithSamples 1000] = Ok e
    /\ (requiredSamples_ _ e = Double.NullSize
        \/ requiredTolerance_ _ e == Double.NullReal).
Proof.
  eexists. split; [reflexivity|].
  apply (factory_engine_samples_or_tolerance Double.NullSize Double.NullReal
           true unit (Some tt) [WithSteps 10; WithSamples 1000]).
  reflexivity.
Defined.

(** X16.  For every engine its constructor has accepted, [timeGrid] never
    reaches "time steps not specified": given at least one fixing time it
    asks for a grid over the fixing times with at least one step, namely
    the time steps when they were supplied and otherwise the steps per year
    times the last fixing time, rounded to a double and truncated, but no
    fewer than one.  In the second case the truncated product has to fit
    [Size]. *)
Theorem timeGrid_of_constructed_engine
    (NullSize : N) (YieldTermStructure : Type)
    (timeSteps timeStepsPerYear : N) (brownianBridge antitheticVariate : bool)
    (requiredSamples : N) (requiredTolerance : Real) (maxSamples seed : N)
    (discount : option YieldTermStructure) (generateProxy : bool)
    (e : McFxTarfEngine YieldTermStructure)
    (first : Real) (others : list Real) (product : N) :
  newMcFxTarfEngine NullSize timeSteps timeStepsPerYear brownianBridge
    antitheticVariate requiredSamples requiredTolerance maxSamples seed
    discount generateProxy = Ok e ->
  (timeSteps = NullSize ->
   stepsUntil timeStepsPerYear (last (first :: others) first)
   = Some product) ->
  exists steps,
    timeGrid NullSize e (first :: others) = Grid (first :: others) steps
    /\ (1 <= steps)%N
    /\ steps = (if (timeSteps =? NullSize)%N
                then N.max product 1
                else timeSteps).
Proof.
  intros H Hfits.
  assert (Hok : isOk (newMcFxTarfEngine NullSize timeSteps timeStepsPerYear
                        brownianBridge antitheticVariate requiredSamples
                        requiredTolerance maxSamples seed discount
                        generateProxy) = true) by (rewrite H; reflexivity).
  apply newMcFxTarfEngine_Ok_iff in Hok.
  destruct Hok as ((Hany & _ & Hpos & _) & _).
  apply newMcFxTarfEngine_fields in H. subst e.
  unfold timeGrid. cbn [timeSteps_ timeStepsPerYear_].
  destruct (N.eqb_spec timeSteps NullSize) as [E|E]; cbn [negb].
  - destruct (N.eqb_spec timeStepsPerYear NullSize) as [E'|E']; cbn [negb].
    + exfalso. tauto.
    + rewrite (Hfits E).
      eexists. split; [reflexivity|]. split; [lia | reflexivity].
  - exists timeSteps. split; [reflexivity|]. split; [lia | reflexivity].
Qed.

Lemma timeGrid_of_constructed_engine_witness :
  exists e,
    newMcFxTarfEngine Double.NullSize Double.NullSize 12 false false 1000
      Double.NullReal Double.NullSize 42 (Some tt) true = Ok e
    /\ timeGrid Double.NullSize e
         [1 # 4; Binary64.round (1 # 3)]
       = Grid [1 # 4; Binary64.round (1 # 3)] 4.
Proof.
  eexists. split; [reflexivity|].
  destruct (timeGrid_of_constructed_engine Double.NullSize unit
              Double.NullSize 12 false false 1000 Double.NullReal
              Double.NullSize 42 (Some tt) true _ (1 # 4)
              [Binary64.round (1 # 3)] 4 eq_refl)
    as (steps & E & _ & ->); [intros _; vm_compute; reflexivity|].
  exact E.
Defined.

(** Twelve steps per year up to the double nearest one third are four steps,
    the product being rounded to 4.0 before it is truncated; a product that
    is negative or too large for [Size] has no defined number of steps. *)
Lemma stepsUntil_rounded :
  stepsUntil 12 (Binary64.round (1 # 3)) = Some 4%N
  /\ stepsUntil 12 (1 # 4) = Some 3%N
  /\ stepsUntil 12 (- (1 # 24)) = Some 0%N
  /\ stepsUntil 12 (- (1 # 4)) = None
  /\ stepsUntil (2 ^ 63) 4 = None.
Proof. repeat split; vm_compute; reflexivity. Qed.

(** ** The containers before the simulation *)

Section ContainerFacts.

Variable Date : Type.
Variable time : Date -> Real.
Variable discount : Date -> Real.

Lemma pushFixings_spec (openFixingDates openPaymentDates : list Date)
    (remaining : nat) :
  forall i fixingTimes discounts,
    (i + remaining <= length openFixingDates)%nat ->
    (i + remaining <= length openPaymentDates)%nat ->
    pushFixings Date time discount remaining i openFixingDates
      openPaymentDates fixingTimes discounts
    = Ok (fixingTimes
          ++ map time (firstn remaining (skipn i openFixingDates)),
          discounts
          ++ map discount (firstn remaining (skipn i openPaymentDates))).
Proof.
  induction remaining as [|remaining IH];
    intros i fixingTimes discounts Hf Hp.
  - simpl. rewrite !app_nil_r. reflexivity.
  - simpl.
    destruct (at_Ok openFixingDates i) as (d & Hd); [lia|].
    destruct (at_Ok openPaymentDates i) as (q & Hq); [lia|].
    rewrite Hd, Hq. cbn [bind].
    rewrite IH by lia.
    rewrite (skipn_at _ _ _ Hd), (skipn_at _ _ _ Hq).
    cbn [firstn map]. rewrite <- !app_assoc. reflexivity.
Qed.

End ContainerFacts.

(** X17.  After [reset], the part of [calculate] before the simulation
    leaves the containers in step with one another, whatever they held
    before: one fixing time and one discount factor per open fixing date,
    and, with proxy generation, five bucket limits that start at 0, never
    decrease and stay below the target, and one data entry per fixing time
    with as many (empty) buckets as there are bucket limits.  This needs a
    payment date for every fixing date and a target above a non-negative
    accumulated amount. *)
Theorem containers_after_reset
    (Date : Type) (time discount : Date -> Real) (Proxy : Type)
    (openFixingDates openPaymentDates : list Date)
    (target accumulatedAmount : Real) (s : Containers Proxy) :
  (length openFixingDates <= length openPaymentDates)%nat ->
  0 <= accumulatedAmount -> accumulatedAmount < target ->
  exists s',
    prepare time discount true openFixingDates openPaymentDates
      target accumulatedAmount (reset s) = Ok s'
    /\ fixingTimes_ s' = map time openFixingDates
    /\ discounts_ s'
       = map discount (firstn (length openFixingDates) openPaymentDates)
    /\ bucketLimitsOk nAccBuckets target (accBucketLimits_ s')
    /\ length (data_ s') = length openFixingDates
    /\ forall tmp, In tmp (data_ s') ->
         tmp = repeat [] nAccBuckets
         /\ length tmp = length (accBucketLimits_ s').
Proof.
  intros Hp Hacc Ht.
  destruct (createBuckets_ok nAccBuckets target accumulatedAmount)
    as (limits & Hl & Hok); [unfold nAccBuckets; lia | exact Ht | exact Hacc |].
  unfold prepare, reset. cbn [fixingTimes_ discounts_ accBucketLimits_ data_
                               proxy_].
  rewrite (pushFixings_spec Date time discount openFixingDates
             openPaymentDates (length openFixingDates) 0 [] [])
    by (simpl; lia).
  cbn [bind fst snd app skipn].
  rewrite firstn_all.
  change (pushBuckets nAccBuckets target accumulatedAmount [])
    with (createBuckets nAccBuckets target accumulatedAmount).
  rewrite Hl. cbn [bind].
  eexists. split; [reflexivity|].
  cbn [fixingTimes_ discounts_ accBucketLimits_ data_].
  split; [reflexivity|]. split; [reflexivity|]. split; [exact Hok|].
  unfold pushData. cbn [app].
  split; [rewrite repeat_length, length_map; reflexivity|].
  intros tmp Hin. apply repeat_spec in Hin. subst tmp.
  split; [reflexivity|].
  rewrite repeat_length. symmetry. apply Hok.
Qed.

Lemma containers_after_reset_witness :
  exists s',
    prepare (Date := nat) of_Size (fun _ => 1) true [1; 2; 3]%nat
      [2; 3; 4]%nat 1 0
      (reset {| fixingTimes_ := [7]; discounts_ := [7];
                proxy_ := Some tt; data_ := [[]];
                accBucketLimits_ := [7] |}) = Ok s'
    /\ fixingTimes_ s' = [1; 2; 3]
    /\ length (data_ s') = 3%nat
    /\ length (accBucketLimits_ s') = 5%nat.
Proof.
  destruct (containers_after_reset nat of_Size (fun _ => 1) unit
              [1; 2; 3]%nat [2; 3; 4]%nat 1 0
              {| fixingTimes_ := [7]; discounts_ := [7];
                 proxy_ := Some tt; data_ := [[]];
                 accBucketLimits_ := [7] |})
    as (s' & E & F & _ & (L & _) & D & _); [simpl; lia | lra | lra |].
  exists s'. split; [exact E|]. split; [exact F|]. split; [exact D | exact L].
Defined.

(** ** The core region of a built function *)

Lemma ascending_nth (x : list Observation) :
  ascending x ->
  forall i j p q,
    (i <= j)%nat -> nth_error x i = Some p -> nth_error x j = Some q ->
    fst p <= fst q.
Proof.
  intro H. unfold ascending in H.
  induction H as [|a l Hs IH Hall]; intros i j p q Hij Hp Hq.
  - destruct i; discriminate.
  - destruct i as [|i], j as [|j]; simpl in Hp, Hq.
    + injection Hp as <-. injection Hq as <-. apply Qle_refl.
    + injection Hp as <-. apply nth_error_In in Hq.
      rewrite Forall_forall in Hall. apply pair_le_spot, Hall, Hq.
    + lia.
    + apply (IH i j); [lia | assumption | assumption].
Qed.

Lemma to_Size_le (x y : Real) : x <= y -> (to_Size x <= to_Size y)%nat.
Proof.
  intro H. unfold to_Size. apply Qfloor_resp_le in H. lia.
Qed.

Lemma spotAtFraction_inv (x : list Observation) (fraction v : Real) :
  spotAtFraction x fraction = Ok v ->
  exists o,
    nth_error x (to_Size (of_Size (length x) * fraction)) = Some o
    /\ v = fst o.
Proof.
  unfold spotAtFraction. intro H.
  apply bind_Ok in H. destruct H as (o & Ho & E).
  apply at_inv in Ho. injection E as <-.
  exists o. split; [apply Ho | reflexivity].
Qed.

Lemma core_indices (n : nat) :
  (to_Size (of_Size n * coreCutoff)
   <= to_Size (of_Size n * (1 - coreCutoff)))%nat.
Proof.
  apply to_Size_le. assert (H := of_Size_nonneg n).
  unfold coreCutoff. lra.
Qed.

(** X18.  The core region of a proxy function the engine has built is the
    pair of spots found one hundredth and ninety-nine hundredths of the way
    into the data of its group.  On a sorted group whose spots lie within
    its recorded bounds (as the merged groups are) it is a proper interval
    inside these bounds: [spotMin <= coreRegionMin <= coreRegionMax <=
    spotMax]. *)
Theorem built_function_core_region
    (close : Real -> Real -> bool) (QL_EPSILON QL_MAX_REAL : Real)
    (GeneralLinearLeastSquares : list Real -> list Real -> Real * Real * Real)
    (type : OptionType) (g : Group) (fct : QuadraticProxyFunction) :
  close 0 0 = true ->
  ascending (xTmp g) -> spotsWithin g ->
  buildProxyFunction close QL_EPSILON QL_MAX_REAL
    GeneralLinearLeastSquares type g = Ok fct ->
  spotAtFraction (xTmp g) coreCutoff = Ok (fst (coreRegion fct))
  /\ spotAtFraction (xTmp g) (1 - coreCutoff) = Ok (snd (coreRegion fct))
  /\ spotMin g <= fst (coreRegion fct)
  /\ fst (coreRegion fct) <= snd (coreRegion fct)
  /\ snd (coreRegion fct) <= spotMax g.
Proof.
  intros Hclose Hasc Hin Hb.
  destruct (built_group_regular close QL_EPSILON QL_MAX_REAL
              GeneralLinearLeastSquares type g fct Hclose Hb)
    as (Hdeg & _).
  unfold buildProxyFunction in Hb.
  apply bind_Ok in Hb. destruct Hb as (rc & Hrc & Hb).
  apply bind_Ok in Hb. destruct Hb as (lc & _ & Hb).
  apply bind_Ok in Hb. destruct Hb as (cmin & Hmin & Hb).
  apply bind_Ok in Hb. destruct Hb as (cmax & Hmax & Hb).
  rewrite Hdeg in Hb.
  apply bind_Ok in Hb. destruct Hb as (u1 & _ & Hb).
  apply bind_Ok in Hb. destruct Hb as (u2 & _ & Hb).
  destruct (regress GeneralLinearLeastSquares
              (segment1 (xTmp g) (snd rc))) as ((c1 & b1) & a1).
  destruct (regress GeneralLinearLeastSquares
              (segment2 (xTmp g) (snd rc))) as ((c2 & b2) & a2).
  apply constructor_fields in Hb. destruct Hb as (e1 & e2 & _ & _ & ->).
  unfold coreRegion. cbn [coreRegionMin_ coreRegionMax_ fst snd].
  split; [exact Hmin|]. split; [exact Hmax|].
  destruct (spotAtFraction_inv _ _ _ Hmin) as (o1 & N1 & ->).
  destruct (spotAtFraction_inv _ _ _ Hmax) as (o2 & N2 & ->).
  unfold spotsWithin in Hin. rewrite Forall_forall in Hin.
  split; [apply (Hin o1), (nth_error_In _ _ N1)|].
  split; [|apply (Hin o2), (nth_error_In _ _ N2)].
  apply (ascending_nth (xTmp g) Hasc _ _ o1 o2
           (core_indices (length (xTmp g))) N1 N2).
Qed.

Lemma built_function_core_region_witness :
  exists fct,
    Double.buildProxyFunction Put tenPoints = Ok fct
    /\ coreRegion fct = (1, 10).
Proof.
  destruct (Double.buildProxyFunction Put tenPoints) as [fct|f] eqn:E;
    [|vm_compute in E; discriminate].
  exists fct. split; [reflexivity|].
  assert (A : ascending (xTmp tenPoints))
    by (repeat (constructor; try reflexivity)).
  assert (W : spotsWithin tenPoints)
    by (repeat (constructor; try (split; apply Qleb_true; reflexivity))).
  destruct (built_function_core_region Double.close Double.QL_EPSILON
              Double.QL_MAX_REAL Double.GeneralLinearLeastSquares
              Put tenPoints fct eq_refl A W E) as (Hmin & Hmax & _).
  assert (E1 : spotAtFraction (xTmp tenPoints) coreCutoff = Ok 1)
    by (vm_compute; reflexivity).
  assert (E2 : spotAtFraction (xTmp tenPoints) (1 - coreCutoff) = Ok 10)
    by (vm_compute; reflexivity).
  rewrite E1 in Hmin. rewrite E2 in Hmax.
  injection Hmin as Hlo. injection Hmax as Hhi.
  unfold coreRegion in *. cbn [fst snd] in Hlo, Hhi.
  rewrite <- Hlo, <- Hhi. reflexivity.
Defined.
